(** * Time-log core: policies, workflows, locks and finance

    A shallow embedding of the pure domain core of the time-log library
    (core/types.ts, core/policies.ts, core/workflows.ts, core/locks.ts,
    core/finance.ts, core/errors.ts) together with the properties its
    design document states about it.

    Conventions of the embedding:
    - a JavaScript [Date] is its epoch time in milliseconds ([getTime()]), an
      integer; invalid dates are outside the model;
    - a JavaScript [number] that carries money or minutes is an IEEE 754
      binary64 value, i.e. a primitive [float];
    - an optional field [f?: T] is an [option T]; [undefined] is [None];
    - a function that may [throw] returns [Error + T]. *)

From Stdlib Require Import ZArith QArith Qround List String Ascii Bool Lia Floats.
Import ListNotations.
Local Close Scope Q_scope.
Local Open Scope Z_scope.

(* ================================================================= *)
(** ** JavaScript values used by the core *)

Definition Date := Z.

(** Truthiness of an optional string: [undefined] and the empty string are
    falsy, every other string is truthy. *)
Definition truthy (o : option string) : bool :=
  match o with
  | None => false
  | Some s => negb (String.eqb s EmptyString)
  end.

(** [o === s] for an optional string against a string. *)
Definition strictEq (o : option string) (s : string) : bool :=
  match o with
  | None => false
  | Some s' => String.eqb s' s
  end.

(** [a === b] for two optional strings. *)
Definition strictEqOpt (a b : option string) : bool :=
  match a, b with
  | None, None => true
  | Some x, Some y => String.eqb x y
  | _, _ => false
  end.

(** Values stored in the metadata bag of an audit record. *)
Inductive JsValue : Type :=
| JsString (s : string)
| JsUndefined.

Definition ofOptString (o : option string) : JsValue :=
  match o with
  | Some s => JsString s
  | None => JsUndefined
  end.

(** The binary64 value of an integer; exact up to 2^53 in magnitude. *)
Definition integerToNumber (n : Z) : float :=
  if n <? 0 then (- (of_uint63 (Uint63.of_Z (- n))))%float
  else of_uint63 (Uint63.of_Z n).

(** [Math.round] on binary64: the integer nearest to [x], halves going
    towards plus infinity; NaN, infinities, zeros and integral values are
    returned unchanged, and a negative argument rounding to zero gives -0. *)
Definition Math_round (x : float) : float :=
  match Prim2SF x with
  | S754_finite s m e =>
      if 0 <=? e then x
      else
        let k := - e in
        let twice := if s then - (2 * Z.pos m) else 2 * Z.pos m in
        let n := (twice + 2 ^ k) / 2 ^ (k + 1) in
        if n =? 0 then (if s then (- 0)%float else 0%float)
        else integerToNumber n
  | _ => x
  end.

(** [Math.trunc] on binary64: the integral part of [x]; NaN, infinities,
    zeros and integral values are returned unchanged, and a negative
    argument above -1 gives -0. *)
Definition Math_trunc (x : float) : float :=
  match Prim2SF x with
  | S754_finite s m e =>
      if 0 <=? e then x
      else
        let n := Z.pos m / 2 ^ (- e) in
        if n =? 0 then (if s then (- 0)%float else 0%float)
        else integerToNumber (if s then - n else n)
  | _ => x
  end.

(* ================================================================= *)
(** ** Binary64 arithmetic on epoch times *)

(** [Date] arithmetic in JavaScript is arithmetic on binary64 numbers.  The
    operands here are integers (epoch times, their differences, 60000), so
    the results are given exactly, on integers: a binary64 number is a pair
    of a significand and an exponent, standing for
    [significand * 2 ^ exponent], with a significand of at most 53 bits.
    The exponent is not bounded, as no difference or quotient of epoch
    times comes near the largest or the smallest binary64 number. *)
Module Binary64.

(** [2 ^ k] is [pow2Up k / pow2Down k], for a negative [k] as well. *)
Definition pow2Up (k : Z) : Z := 2 ^ Z.max 0 k.
Definition pow2Down (k : Z) : Z := 2 ^ Z.max 0 (- k).

(** The integer [k] with [2 ^ k <= n / m < 2 ^ (k + 1)], for positive [n]
    and [m]: the difference of the two bit lengths, or one less. *)
Definition floorLog2 (n m : Z) : Z :=
  let k := Z.log2 n - Z.log2 m in
  if m * pow2Up k <=? n * pow2Down k then k else k - 1.

(** The integer nearest to [n / m], for a positive [m]; of two equally
    near, the even one. *)
Definition roundHalfEven (n m : Z) : Z :=
  let q := n / m in
  let r := n mod m in
  if 2 * r <? m then q
  else if m <? 2 * r then q + 1
  else if Z.even q then q else q + 1.

(** The binary64 number nearest to [n / m], for positive [n] and [m]: the
    quotient is scaled to a significand between 2^52 and 2^53, which is
    rounded to an integer. *)
Definition nearest (n m : Z) : Z * Z :=
  let e := floorLog2 n m - 52 in
  (roundHalfEven (n * pow2Down e) (m * pow2Up e), e).

(** [n / m] on binary64, for integers [n] and [m] that are binary64
    numbers, [m] positive. *)
Definition quotient (n m : Z) : Z * Z :=
  match n ?= 0 with
  | Eq => (0, 0)
  | Gt => nearest n m
  | Lt => let '(significand, e) := nearest (- n) m in (- significand, e)
  end.

(** [Math.trunc], as an integer. *)
Definition trunc (x : Z * Z) : Z :=
  let '(significand, e) := x in
  Z.quot (significand * pow2Up e) (pow2Down e).

(** The binary64 number nearest to the integer [n]; it is an integer. *)
Definition ofInteger (n : Z) : Z := trunc (quotient n 1).

End Binary64.

(* ================================================================= *)
(** ** date-fns *)

(** The two date-fns functions the core imports, as date-fns 3 and later
    define them.  [differenceInMinutes] subtracts the two epoch times,
    divides the difference by 60000 and truncates towards zero, all on
    binary64 numbers: the difference is exact as long as the two instants
    are less than 2^53 ms apart, and rounded beyond that (two valid dates
    are up to 2 * 8.64e15 ms apart).  [areIntervalsOverlapping] orders
    the two end points of each interval and then compares them, with [<=]
    when [inclusive] is set and [<] otherwise.  On intervals whose start is
    not after their end, the only ones date-fns 2 accepts, this is the plain
    comparison of the given end points in every version. *)
Module DateFns.

Record Interval : Type := mkInterval { start : Date; end_ : Date }.

Definition differenceInMilliseconds (dateLeft dateRight : Date) : Z :=
  Binary64.ofInteger (dateLeft - dateRight).

Definition differenceInMinutes (dateLeft dateRight : Date) : Z :=
  let diff :=
    Binary64.quotient (differenceInMilliseconds dateLeft dateRight) 60000 in
  Binary64.trunc diff.

Definition areIntervalsOverlapping
    (intervalLeft intervalRight : Interval) (inclusive : bool) : bool :=
  let leftStartTime := Z.min (start intervalLeft) (end_ intervalLeft) in
  let leftEndTime := Z.max (start intervalLeft) (end_ intervalLeft) in
  let rightStartTime := Z.min (start intervalRight) (end_ intervalRight) in
  let rightEndTime := Z.max (start intervalRight) (end_ intervalRight) in
  if inclusive
  then (leftStartTime <=? rightEndTime) && (rightStartTime <=? leftEndTime)
  else (leftStartTime <? rightEndTime) && (rightStartTime <? leftEndTime).

End DateFns.

(* ================================================================= *)
(** ** core/types.ts *)

Inductive TimeEntryStatus : Type :=
| DRAFT | SUBMITTED | APPROVED | REJECTED | LOCKED | BILLED.

(** The string value of each enum member. *)
Definition statusString (s : TimeEntryStatus) : string :=
  match s with
  | DRAFT => "DRAFT"
  | SUBMITTED => "SUBMITTED"
  | APPROVED => "APPROVED"
  | REJECTED => "REJECTED"
  | LOCKED => "LOCKED"
  | BILLED => "BILLED"
  end.

Definition status_eqb (a b : TimeEntryStatus) : bool :=
  match a, b with
  | DRAFT, DRAFT | SUBMITTED, SUBMITTED | APPROVED, APPROVED
  | REJECTED, REJECTED | LOCKED, LOCKED | BILLED, BILLED => true
  | _, _ => false
  end.

Inductive TimeCategoryType : Type :=
| CAT_BILLABLE | CAT_NON_BILLABLE | CAT_INTERNAL | CAT_TRAINING | CAT_MEETING.

Module TimeEntry.
Record t : Type := mk {
  id : string;
  projectId : string;
  taskId : option string;
  developerId : string;
  clientId : string;
  startAt : Date;
  endAt : Date;
  durationMinutes : float;
  billable : bool;
  category : TimeCategoryType;
  tags : list string;
  status : TimeEntryStatus;
  notes : option string;
  approvedBy : option string;
  approvedAt : option Date;
  rejectedBy : option string;
  rejectedAt : option Date;
  rejectionReason : option string;
  lockedAt : option Date;
  billedAt : option Date;
  invoiceId : option string;
  createdAt : Date;
  updatedAt : Date
}.
End TimeEntry.

Module RateCard.
Record t : Type := mk {
  id : string;
  developerId : option string;
  projectId : option string;
  clientId : option string;
  hourlyRate : float;
  currency : string;
  effectiveFrom : Date;
  effectiveTo : option Date;
  isActive : bool;
  createdAt : Date;
  updatedAt : Date
}.
End RateCard.

Module TimeLock.
Record t : Type := mk {
  id : string;
  projectId : option string;
  clientId : option string;
  periodStart : Date;
  periodEnd : Date;
  reason : string;
  lockedBy : string;
  lockedAt : Date;
  unlockedBy : option string;
  unlockedAt : option Date;
  isActive : bool
}.
End TimeLock.

(** [Omit<AuditLog, 'id' | 'createdAt'>]; the metadata bag keeps the keys in
    the order of the object literal that builds it. *)
Module AuditLog.
Record t : Type := mk {
  entityType : string;
  entityId : string;
  action : string;
  userId : string;
  metadata : list (string * JsValue)
}.
End AuditLog.

(* ================================================================= *)
(** ** core/errors.ts *)

(** The error classes the core throws.  An [InvalidStatusTransitionError]
    carries the current and the target status, a [PeriodLockedError] the
    period it was raised for, and a [ConflictError] raised for overlapping
    locks the period of the existing lock its message is formatted from. *)
Inductive Error : Type :=
| ValidationError (message : string)
| InvalidStatusTransitionError (currentStatus targetStatus : TimeEntryStatus)
| PeriodLockedError (periodStart periodEnd : Date)
| ConflictError (lockStart lockEnd : Date).

Definition Result (A : Type) : Type := (Error + A)%type.

Definition ok {A : Type} (a : A) : Result A := inr a.
Definition throw {A : Type} (e : Error) : Result A := inl e.

Definition bind {A B : Type} (m : Result A) (k : A -> Result B) : Result B :=
  match m with
  | inl e => inl e
  | inr a => k a
  end.

Notation "x <- m ;; k" := (bind m (fun x => k))
  (at level 61, m at next level, right associativity).

Notation "' p <- m ;; k" := (bind m (fun p => k))
  (at level 61, p pattern, m at next level, right associativity).

(* ================================================================= *)
(** ** core/policies.ts *)

Inductive RoundingInterval : Type :=
| NONE | ONE_MINUTE | FIVE_MINUTES | SIX_MINUTES | FIFTEEN_MINUTES.

(** The numeric value of each enum member. *)
Definition intervalValue (i : RoundingInterval) : float :=
  match i with
  | NONE => 0
  | ONE_MINUTE => 1
  | FIVE_MINUTES => 5
  | SIX_MINUTES => 6
  | FIFTEEN_MINUTES => 15
  end%float.

Definition roundDuration (minutes : float) (interval : RoundingInterval) : float :=
  match interval with
  | NONE => minutes
  | _ => (Math_round (minutes / intervalValue interval) * intervalValue interval)%float
  end.

Definition calculateDuration (startAt endAt : Date) : Z :=
  Z.abs (DateFns.differenceInMinutes endAt startAt).

(** [Pick<TimeEntry, 'startAt' | 'endAt'>]; every [TimeEntry] has that
    shape. *)
Record EntryPeriod : Type := mkEntryPeriod {
  startAt : Date;
  endAt : Date
}.

Definition asEntryPeriod (e : TimeEntry.t) : EntryPeriod :=
  mkEntryPeriod (TimeEntry.startAt e) (TimeEntry.endAt e).

Definition detectOverlap (entry1 entry2 : EntryPeriod) : bool :=
  DateFns.areIntervalsOverlapping
    (DateFns.mkInterval (startAt entry1) (endAt entry1))
    (DateFns.mkInterval (startAt entry2) (endAt entry2))
    false.

Record ValidationResult : Type := mkValidation {
  valid : bool;
  error : option string
}.

Definition validateDuration (startAt endAt : Date) : ValidationResult :=
  let duration := calculateDuration startAt endAt in
  if duration <=? 0 then
    mkValidation false (Some "End time must be after start time"%string)
  else if duration >? 1440 then
    mkValidation false (Some "Time entry cannot exceed 24 hours"%string)
  else if duration <? 1 then
    mkValidation false (Some "Time entry must be at least 1 minute"%string)
  else mkValidation true None.

Definition canEditTimeEntry (status : TimeEntryStatus) : bool :=
  status_eqb status DRAFT || status_eqb status REJECTED.

Definition canSubmitTimeEntry (status : TimeEntryStatus) : bool :=
  status_eqb status DRAFT || status_eqb status REJECTED.

Definition canApproveTimeEntry (status : TimeEntryStatus) : bool :=
  status_eqb status SUBMITTED.

Definition canRejectTimeEntry (status : TimeEntryStatus) : bool :=
  status_eqb status SUBMITTED || status_eqb status APPROVED.

Definition canLockTimeEntry (status : TimeEntryStatus) : bool :=
  status_eqb status APPROVED.

Definition canBillTimeEntry (status : TimeEntryStatus) : bool :=
  status_eqb status LOCKED.

(** The structural type [{ periodStart; periodEnd; isActive }] of the locks
    handed to the workflow functions; every [TimeLock] has that shape. *)
Record PeriodLock : Type := mkPeriodLock {
  periodStart : Date;
  periodEnd : Date;
  isActive : bool
}.

Definition asPeriodLock (lock : TimeLock.t) : PeriodLock :=
  mkPeriodLock (TimeLock.periodStart lock) (TimeLock.periodEnd lock)
               (TimeLock.isActive lock).

Definition isPeriodLocked (startAt endAt : Date) (locks : list PeriodLock) : bool :=
  existsb (fun lock =>
    isActive lock &&
    DateFns.areIntervalsOverlapping
      (DateFns.mkInterval startAt endAt)
      (DateFns.mkInterval (periodStart lock) (periodEnd lock))
      true) locks.

Definition validTransitions (s : TimeEntryStatus) : list TimeEntryStatus :=
  match s with
  | DRAFT => [SUBMITTED]
  | SUBMITTED => [APPROVED; REJECTED]
  | APPROVED => [LOCKED; REJECTED]
  | REJECTED => [DRAFT; SUBMITTED]
  | LOCKED => [BILLED]
  | BILLED => []
  end.

(** [Array.prototype.includes] on a list of statuses. *)
Definition includes (l : list TimeEntryStatus) (s : TimeEntryStatus) : bool :=
  existsb (status_eqb s) l.

Definition validateStatusTransition
    (currentStatus newStatus : TimeEntryStatus) : ValidationResult :=
  let allowed := validTransitions currentStatus in
  if negb (includes allowed newStatus) then
    mkValidation false
      (Some ("Cannot transition from " ++ statusString currentStatus ++ " to "
               ++ statusString newStatus)%string)
  else mkValidation true None.

(* ================================================================= *)
(** ** Object spread on time entries *)

(** [{ ...entry, f: v }] copies every field of [entry] and overrides [f].
    One function per field the workflow functions override. *)
Module Spread.
Import TimeEntry.

Definition with_status (v : TimeEntryStatus) (e : t) : t :=
  mk (id e) (projectId e) (taskId e) (developerId e) (clientId e)
     (startAt e) (endAt e) (durationMinutes e) (billable e) (category e)
     (tags e) v (notes e) (approvedBy e) (approvedAt e) (rejectedBy e)
     (rejectedAt e) (rejectionReason e) (lockedAt e) (billedAt e)
     (invoiceId e) (createdAt e) (updatedAt e).

Definition with_updatedAt (v : Date) (e : t) : t :=
  mk (id e) (projectId e) (taskId e) (developerId e) (clientId e)
     (startAt e) (endAt e) (durationMinutes e) (billable e) (category e)
     (tags e) (status e) (notes e) (approvedBy e) (approvedAt e)
     (rejectedBy e) (rejectedAt e) (rejectionReason e) (lockedAt e)
     (billedAt e) (invoiceId e) (createdAt e) v.

Definition with_approvedBy (v : option string) (e : t) : t :=
  mk (id e) (projectId e) (taskId e) (developerId e) (clientId e)
     (startAt e) (endAt e) (durationMinutes e) (billable e) (category e)
     (tags e) (status e) (notes e) v (approvedAt e) (rejectedBy e)
     (rejectedAt e) (rejectionReason e) (lockedAt e) (billedAt e)
     (invoiceId e) (createdAt e) (updatedAt e).

Definition with_approvedAt (v : option Date) (e : t) : t :=
  mk (id e) (projectId e) (taskId e) (developerId e) (clientId e)
     (startAt e) (endAt e) (durationMinutes e) (billable e) (category e)
     (tags e) (status e) (notes e) (approvedBy e) v (rejectedBy e)
     (rejectedAt e) (rejectionReason e) (lockedAt e) (billedAt e)
     (invoiceId e) (createdAt e) (updatedAt e).

Definition with_rejectedBy (v : option string) (e : t) : t :=
  mk (id e) (projectId e) (taskId e) (developerId e) (clientId e)
     (startAt e) (endAt e) (durationMinutes e) (billable e) (category e)
     (tags e) (status e) (notes e) (approvedBy e) (approvedAt e) v
     (rejectedAt e) (rejectionReason e) (lockedAt e) (billedAt e)
     (invoiceId e) (createdAt e) (updatedAt e).

Definition with_rejectedAt (v : option Date) (e : t) : t :=
  mk (id e) (projectId e) (taskId e) (developerId e) (clientId e)
     (startAt e) (endAt e) (durationMinutes e) (billable e) (category e)
     (tags e) (status e) (notes e) (approvedBy e) (approvedAt e)
     (rejectedBy e) v (rejectionReason e) (lockedAt e) (billedAt e)
     (invoiceId e) (createdAt e) (updatedAt e).

Definition with_rejectionReason (v : option string) (e : t) : t :=
  mk (id e) (projectId e) (taskId e) (developerId e) (clientId e)
     (startAt e) (endAt e) (durationMinutes e) (billable e) (category e)
     (tags e) (status e) (notes e) (approvedBy e) (approvedAt e)
     (rejectedBy e) (rejectedAt e) v (lockedAt e) (billedAt e) (invoiceId
     e) (createdAt e) (updatedAt e).

Definition with_lockedAt (v : option Date) (e : t) : t :=
  mk (id e) (projectId e) (taskId e) (developerId e) (clientId e)
     (startAt e) (endAt e) (durationMinutes e) (billable e) (category e)
     (tags e) (status e) (notes e) (approvedBy e) (approvedAt e)
     (rejectedBy e) (rejectedAt e) (rejectionReason e) v (billedAt e)
     (invoiceId e) (createdAt e) (updatedAt e).

Definition with_billedAt (v : option Date) (e : t) : t :=
  mk (id e) (projectId e) (taskId e) (developerId e) (clientId e)
     (startAt e) (endAt e) (durationMinutes e) (billable e) (category e)
     (tags e) (status e) (notes e) (approvedBy e) (approvedAt e)
     (rejectedBy e) (rejectedAt e) (rejectionReason e) (lockedAt e) v
     (invoiceId e) (createdAt e) (updatedAt e).

Definition with_invoiceId (v : option string) (e : t) : t :=
  mk (id e) (projectId e) (taskId e) (developerId e) (clientId e)
     (startAt e) (endAt e) (durationMinutes e) (billable e) (category e)
     (tags e) (status e) (notes e) (approvedBy e) (approvedAt e)
     (rejectedBy e) (rejectedAt e) (rejectionReason e) (lockedAt e)
     (billedAt e) v (createdAt e) (updatedAt e).

End Spread.

(* ================================================================= *)
(** ** core/workflows.ts *)

Record WorkflowContext : Type := mkContext {
  userId : string;
  userRole : string;
  timestamp : Date
}.

(** The result type shared by the five batch operations
    ([SubmitEntriesResult], [ApproveEntriesResult], ...). *)
Record EntriesResult : Type := mkEntriesResult {
  entries : list TimeEntry.t;
  auditLogs : list AuditLog.t
}.

(** The loop every batch operation is written as:
    [for (const entry of entries) { <guards>; updatedEntries.push(..);
    auditLogs.push(..) }], started on two empty arrays.  [body] is the loop
    body up to the two pushes: it throws, or yields the updated entry and
    the audit record that are pushed. *)
Fixpoint forEntries (body : TimeEntry.t -> Result (TimeEntry.t * AuditLog.t))
    (entries : list TimeEntry.t) (updatedEntries : list TimeEntry.t)
    (auditLogs : list AuditLog.t) : Result EntriesResult :=
  match entries with
  | [] => ok (mkEntriesResult updatedEntries auditLogs)
  | entry :: rest =>
      pushed <- body entry ;;
      forEntries body rest (updatedEntries ++ [fst pushed])
                 (auditLogs ++ [snd pushed])
  end.

(** A defaulted parameter [locks = []]. *)
Definition orEmpty {A : Type} (o : option (list A)) : list A :=
  match o with
  | Some l => l
  | None => []
  end.

Definition entryLog (action : string) (entry : TimeEntry.t)
    (context : WorkflowContext) (newStatus : TimeEntryStatus)
    (extra : list (string * JsValue)) : AuditLog.t :=
  AuditLog.mk "TimeEntry"%string (TimeEntry.id entry) action (userId context)
    ([("userRole"%string, JsString (userRole context));
      ("previousStatus"%string, JsString (statusString (TimeEntry.status entry)));
      ("newStatus"%string, JsString (statusString newStatus))] ++ extra).

Definition submitBody (context : WorkflowContext) (locks : list PeriodLock)
    (entry : TimeEntry.t) : Result (TimeEntry.t * AuditLog.t) :=
  if negb (canSubmitTimeEntry (TimeEntry.status entry)) then
    throw (InvalidStatusTransitionError (TimeEntry.status entry) SUBMITTED)
  else if isPeriodLocked (TimeEntry.startAt entry) (TimeEntry.endAt entry) locks then
    throw (PeriodLockedError (TimeEntry.startAt entry) (TimeEntry.endAt entry))
  else
    let updatedEntry :=
      Spread.with_updatedAt (timestamp context)
        (Spread.with_status SUBMITTED entry) in
    ok (updatedEntry, entryLog "SUBMIT"%string entry context SUBMITTED []).

Definition submitTimeEntries (entries : list TimeEntry.t)
    (context : WorkflowContext) (locks : option (list PeriodLock))
    : Result EntriesResult :=
  forEntries (submitBody context (orEmpty locks)) entries [] [].

Definition approveBody (context : WorkflowContext) (locks : list PeriodLock)
    (entry : TimeEntry.t) : Result (TimeEntry.t * AuditLog.t) :=
  if negb (canApproveTimeEntry (TimeEntry.status entry)) then
    throw (InvalidStatusTransitionError (TimeEntry.status entry) APPROVED)
  else if isPeriodLocked (TimeEntry.startAt entry) (TimeEntry.endAt entry) locks then
    throw (PeriodLockedError (TimeEntry.startAt entry) (TimeEntry.endAt entry))
  else
    let updatedEntry :=
      Spread.with_updatedAt (timestamp context)
        (Spread.with_approvedAt (Some (timestamp context))
           (Spread.with_approvedBy (Some (userId context))
              (Spread.with_status APPROVED entry))) in
    ok (updatedEntry, entryLog "APPROVE"%string entry context APPROVED []).

Definition approveTimeEntries (entries : list TimeEntry.t)
    (context : WorkflowContext) (locks : option (list PeriodLock))
    : Result EntriesResult :=
  forEntries (approveBody context (orEmpty locks)) entries [] [].

Definition rejectBody (reason : string) (context : WorkflowContext)
    (entry : TimeEntry.t) : Result (TimeEntry.t * AuditLog.t) :=
  if negb (canRejectTimeEntry (TimeEntry.status entry)) then
    throw (InvalidStatusTransitionError (TimeEntry.status entry) REJECTED)
  else
    let updatedEntry :=
      Spread.with_updatedAt (timestamp context)
        (Spread.with_rejectionReason (Some reason)
           (Spread.with_rejectedAt (Some (timestamp context))
              (Spread.with_rejectedBy (Some (userId context))
                 (Spread.with_status REJECTED entry)))) in
    ok (updatedEntry,
        entryLog "REJECT"%string entry context REJECTED
                 [("reason"%string, JsString reason)]).

Definition rejectTimeEntries (entries : list TimeEntry.t) (reason : string)
    (context : WorkflowContext) : Result EntriesResult :=
  forEntries (rejectBody reason context) entries [] [].

Definition lockBody (reason : option string) (context : WorkflowContext)
    (entry : TimeEntry.t) : Result (TimeEntry.t * AuditLog.t) :=
  if negb (canLockTimeEntry (TimeEntry.status entry)) then
    throw (InvalidStatusTransitionError (TimeEntry.status entry) LOCKED)
  else
    let updatedEntry :=
      Spread.with_updatedAt (timestamp context)
        (Spread.with_lockedAt (Some (timestamp context))
           (Spread.with_status LOCKED entry)) in
    ok (updatedEntry,
        entryLog "LOCK"%string entry context LOCKED
                 [("reason"%string, ofOptString reason)]).

Definition lockTimeEntries (entries : list TimeEntry.t) (reason : option string)
    (context : WorkflowContext) : Result EntriesResult :=
  forEntries (lockBody reason context) entries [] [].

Definition billBody (invoiceId : string) (context : WorkflowContext)
    (entry : TimeEntry.t) : Result (TimeEntry.t * AuditLog.t) :=
  if negb (status_eqb (TimeEntry.status entry) LOCKED) then
    throw (InvalidStatusTransitionError (TimeEntry.status entry) BILLED)
  else
    let updatedEntry :=
      Spread.with_updatedAt (timestamp context)
        (Spread.with_invoiceId (Some invoiceId)
           (Spread.with_billedAt (Some (timestamp context))
              (Spread.with_status BILLED entry))) in
    ok (updatedEntry,
        entryLog "BILL"%string entry context BILLED
                 [("invoiceId"%string, JsString invoiceId)]).

Definition billTimeEntries (entries : list TimeEntry.t) (invoiceId : string)
    (context : WorkflowContext) : Result EntriesResult :=
  forEntries (billBody invoiceId context) entries [] [].

(* ================================================================= *)
(** ** core/locks.ts *)

Module CreateLockParams.
Record t : Type := mk {
  projectId : option string;
  clientId : option string;
  periodStart : Date;
  periodEnd : Date;
  reason : string;
  lockedBy : string
}.
End CreateLockParams.

(** The scope test of [checkEntryLockConflict]:
    [(lock.projectId && lock.projectId === entry.projectId) ||
     (lock.clientId && lock.clientId === entry.clientId)]. *)
Definition entryScopeMatch (lock : TimeLock.t) (entry : TimeEntry.t) : bool :=
  (truthy (TimeLock.projectId lock)
     && strictEq (TimeLock.projectId lock) (TimeEntry.projectId entry))
  || (truthy (TimeLock.clientId lock)
        && strictEq (TimeLock.clientId lock) (TimeEntry.clientId entry)).

Fixpoint entryConflictLoop (entry : TimeEntry.t) (activeLocks : list TimeLock.t)
    : option TimeLock.t :=
  match activeLocks with
  | [] => None
  | lock :: rest =>
      let scopeMatch := entryScopeMatch lock entry in
      if negb scopeMatch then entryConflictLoop entry rest
      else
        let overlaps :=
          DateFns.areIntervalsOverlapping
            (DateFns.mkInterval (TimeEntry.startAt entry) (TimeEntry.endAt entry))
            (DateFns.mkInterval (TimeLock.periodStart lock) (TimeLock.periodEnd lock))
            true in
        if overlaps then Some lock else entryConflictLoop entry rest
  end.

Definition checkEntryLockConflict (entry : TimeEntry.t) (locks : list TimeLock.t)
    : option TimeLock.t :=
  let activeLocks := filter TimeLock.isActive locks in
  entryConflictLoop entry activeLocks.

(** The scope test of [checkPeriodLockConflict]:
    [(projectId && lock.projectId === projectId) ||
     (clientId && lock.clientId === clientId)]. *)
Definition periodScopeMatch (projectId clientId : option string)
    (lock : TimeLock.t) : bool :=
  (truthy projectId && strictEqOpt (TimeLock.projectId lock) projectId)
  || (truthy clientId && strictEqOpt (TimeLock.clientId lock) clientId).

Fixpoint periodConflictLoop (periodStart periodEnd : Date)
    (projectId clientId : option string) (activeLocks : list TimeLock.t)
    : option TimeLock.t :=
  match activeLocks with
  | [] => None
  | lock :: rest =>
      let scopeMatch := periodScopeMatch projectId clientId lock in
      if negb scopeMatch
      then periodConflictLoop periodStart periodEnd projectId clientId rest
      else
        let overlaps :=
          DateFns.areIntervalsOverlapping
            (DateFns.mkInterval periodStart periodEnd)
            (DateFns.mkInterval (TimeLock.periodStart lock) (TimeLock.periodEnd lock))
            true in
        if overlaps then Some lock
        else periodConflictLoop periodStart periodEnd projectId clientId rest
  end.

Definition checkPeriodLockConflict (periodStart periodEnd : Date)
    (projectId clientId : option string) (locks : option (list TimeLock.t))
    : option TimeLock.t :=
  let activeLocks := filter TimeLock.isActive (orEmpty locks) in
  periodConflictLoop periodStart periodEnd projectId clientId activeLocks.

(** The scope test of [validateLockOverlap]:
    [(newLock.projectId && lock.projectId === newLock.projectId) ||
     (newLock.clientId && lock.clientId === newLock.clientId)]. *)
Definition sameScope (newLock : CreateLockParams.t) (lock : TimeLock.t) : bool :=
  periodScopeMatch (CreateLockParams.projectId newLock)
                   (CreateLockParams.clientId newLock) lock.

Fixpoint lockOverlapLoop (newLock : CreateLockParams.t)
    (activeLocks : list TimeLock.t) : Result unit :=
  match activeLocks with
  | [] => ok tt
  | lock :: rest =>
      if negb (sameScope newLock lock) then lockOverlapLoop newLock rest
      else
        let overlaps :=
          DateFns.areIntervalsOverlapping
            (DateFns.mkInterval (CreateLockParams.periodStart newLock)
                                (CreateLockParams.periodEnd newLock))
            (DateFns.mkInterval (TimeLock.periodStart lock) (TimeLock.periodEnd lock))
            false in
        if overlaps
        then throw (ConflictError (TimeLock.periodStart lock) (TimeLock.periodEnd lock))
        else lockOverlapLoop newLock rest
  end.

Definition validateLockOverlap (newLock : CreateLockParams.t)
    (existingLocks : list TimeLock.t) : Result unit :=
  let activeLocks := filter TimeLock.isActive existingLocks in
  lockOverlapLoop newLock activeLocks.

(* ================================================================= *)
(** ** core/finance.ts *)

Module EntryCost.
Record t : Type := mk {
  entryId : string;
  projectId : string;
  developerId : string;
  originalMinutes : float;
  roundedMinutes : float;
  hourlyRate : float;
  currency : string;
  cost : float
}.
End EntryCost.

(** [Array.prototype.sort] with a comparator [cmp]: a stable sort, written
    as an insertion sort that keeps equal elements in their input order. *)
Fixpoint insertSorted {A : Type} (cmp : A -> A -> Z) (x : A) (l : list A) : list A :=
  match l with
  | [] => [x]
  | y :: ys => if cmp x y <=? 0 then x :: l else y :: insertSorted cmp x ys
  end.

Definition Array_sort {A : Type} (cmp : A -> A -> Z) (l : list A) : list A :=
  fold_right (insertSorted cmp) [] l.

(** [(a, b) => b.effectiveFrom.getTime() - a.effectiveFrom.getTime()]. *)
Definition byEffectiveFromDesc (a b : RateCard.t) : Z :=
  RateCard.effectiveFrom b - RateCard.effectiveFrom a.

(** [card.effectiveTo && card.effectiveTo < atDate]: a [Date] object is
    always truthy. *)
Definition expiredAt (atDate : Date) (card : RateCard.t) : bool :=
  match RateCard.effectiveTo card with
  | Some effectiveTo => effectiveTo <? atDate
  | None => false
  end.

Section Finance.

(** The clock read by the defaulted parameters [atDate = new Date()]. *)
Variable now : Date.

Definition orNow (atDate : option Date) : Date :=
  match atDate with
  | Some d => d
  | None => now
  end.

Definition resolveEffectiveRate (entry : TimeEntry.t)
    (rateCards : list RateCard.t) (atDate : option Date) : option RateCard.t :=
  let atDate := orNow atDate in
  let activeCards :=
    filter (fun card =>
      if negb (RateCard.isActive card) then false
      else if RateCard.effectiveFrom card >? atDate then false
      else if expiredAt atDate card then false
      else true) rateCards in
  let projectRate :=
    hd_error (Array_sort byEffectiveFromDesc
      (filter (fun card =>
         strictEq (RateCard.projectId card) (TimeEntry.projectId entry))
         activeCards)) in
  match projectRate with
  | Some projectRate => Some projectRate
  | None =>
    let clientRate :=
      hd_error (Array_sort byEffectiveFromDesc
        (filter (fun card =>
           strictEq (RateCard.clientId card) (TimeEntry.clientId entry))
           activeCards)) in
    match clientRate with
    | Some clientRate => Some clientRate
    | None =>
      let developerRate :=
        hd_error (Array_sort byEffectiveFromDesc
          (filter (fun card =>
             strictEq (RateCard.developerId card) (TimeEntry.developerId entry)
             && negb (truthy (RateCard.projectId card))
             && negb (truthy (RateCard.clientId card)))
             activeCards)) in
      developerRate
    end
  end.

(** A defaulted [roundingInterval = RoundingInterval.FIFTEEN_MINUTES]. *)
Definition orFifteen (roundingInterval : option RoundingInterval)
    : RoundingInterval :=
  match roundingInterval with
  | Some i => i
  | None => FIFTEEN_MINUTES
  end.

Definition entryCost (entry : TimeEntry.t) (rate : RateCard.t)
    (roundingInterval : RoundingInterval) : EntryCost.t :=
  let roundedMinutes :=
    roundDuration (TimeEntry.durationMinutes entry) roundingInterval in
  let hours := (roundedMinutes / 60)%float in
  let cost :=
    (Math_round (hours * RateCard.hourlyRate rate * 100) / 100)%float in
  EntryCost.mk (TimeEntry.id entry) (TimeEntry.projectId entry)
    (TimeEntry.developerId entry) (TimeEntry.durationMinutes entry)
    roundedMinutes (RateCard.hourlyRate rate) (RateCard.currency rate) cost.

Fixpoint costLoop (rateCards : list RateCard.t)
    (roundingInterval : RoundingInterval) (atDate : Date)
    (entries : list TimeEntry.t) (costs : list EntryCost.t)
    : list EntryCost.t :=
  match entries with
  | [] => costs
  | entry :: rest =>
      if negb (TimeEntry.billable entry)
      then costLoop rateCards roundingInterval atDate rest costs
      else
        match resolveEffectiveRate entry rateCards (Some atDate) with
        | None => costLoop rateCards roundingInterval atDate rest costs
        | Some rate =>
            costLoop rateCards roundingInterval atDate rest
              (costs ++ [entryCost entry rate roundingInterval])
        end
  end.

Definition calculateEntryCosts (entries : list TimeEntry.t)
    (rateCards : list RateCard.t)
    (roundingInterval : option RoundingInterval) (atDate : option Date)
    : list EntryCost.t :=
  let roundingInterval := orFifteen roundingInterval in
  let atDate := orNow atDate in
  costLoop rateCards roundingInterval atDate entries [].

End Finance.

(* ================================================================= *)
(** * Statements of the design document *)

(** The definitions of this part are not code of the library: they phrase
    what the design document says, for the theorems below to compare the
    code with. *)

(** ** Status transition policy *)


(** ** Batch workflow calls *)

(** One of the five batch operations together with its arguments other than
    the batch of entries. *)
Inductive BatchCall : Type :=
| Submit (context : WorkflowContext) (locks : option (list PeriodLock))
| Approve (context : WorkflowContext) (locks : option (list PeriodLock))
| Reject (reason : string) (context : WorkflowContext)
| Lock (reason : option string) (context : WorkflowContext)
| Bill (invoiceId : string) (context : WorkflowContext).

Definition runBatch (call : BatchCall) (entries : list TimeEntry.t)
    : Result EntriesResult :=
  match call with
  | Submit context locks => submitTimeEntries entries context locks
  | Approve context locks => approveTimeEntries entries context locks
  | Reject reason context => rejectTimeEntries entries reason context
  | Lock reason context => lockTimeEntries entries reason context
  | Bill invoiceId context => billTimeEntries entries invoiceId context
  end.

(** The loop body each operation runs. *)
Definition bodyOf (call : BatchCall)
    : TimeEntry.t -> Result (TimeEntry.t * AuditLog.t) :=
  match call with
  | Submit context locks => submitBody context (orEmpty locks)
  | Approve context locks => approveBody context (orEmpty locks)
  | Reject reason context => rejectBody reason context
  | Lock reason context => lockBody reason context
  | Bill invoiceId context => billBody invoiceId context
  end.

Definition notLocked (locks : option (list PeriodLock)) (entry : TimeEntry.t) : Prop :=
  isPeriodLocked (TimeEntry.startAt entry) (TimeEntry.endAt entry)
                 (orEmpty locks) = false.

(** An entry passes a call when the guard of the operation holds of its
    status and, for submit and approve, its period is not locked. *)
Definition passes (call : BatchCall) (entry : TimeEntry.t) : Prop :=
  match call with
  | Submit _ locks =>
      canSubmitTimeEntry (TimeEntry.status entry) = true /\ notLocked locks entry
  | Approve _ locks =>
      canApproveTimeEntry (TimeEntry.status entry) = true /\ notLocked locks entry
  | Reject _ _ => canRejectTimeEntry (TimeEntry.status entry) = true
  | Lock _ _ => canLockTimeEntry (TimeEntry.status entry) = true
  | Bill _ _ => TimeEntry.status entry = LOCKED
  end.

(** The status an operation moves entries to. *)
Definition targetStatus (call : BatchCall) : TimeEntryStatus :=
  match call with
  | Submit _ _ => SUBMITTED
  | Approve _ _ => APPROVED
  | Reject _ _ => REJECTED
  | Lock _ _ => LOCKED
  | Bill _ _ => BILLED
  end.

(** The errors a call can raise for one entry: the invalid transition from
    the entry's status, or the locked period of the entry. *)
Definition raisedFor (call : BatchCall) (entry : TimeEntry.t) (err : Error) : Prop :=
  err = InvalidStatusTransitionError (TimeEntry.status entry) (targetStatus call)
  \/ err = PeriodLockedError (TimeEntry.startAt entry) (TimeEntry.endAt entry).

(** ** Fields of a time entry *)

Inductive Field : Type :=
| F_id | F_projectId | F_taskId | F_developerId | F_clientId | F_startAt
| F_endAt | F_durationMinutes | F_billable | F_category | F_tags | F_status
| F_notes | F_approvedBy | F_approvedAt | F_rejectedBy | F_rejectedAt
| F_rejectionReason | F_lockedAt | F_billedAt | F_invoiceId | F_createdAt
| F_updatedAt.

(** Two entries hold the same value in field [f]. *)
Definition sameField (f : Field) (a b : TimeEntry.t) : Prop :=
  match f with
  | F_id => TimeEntry.id a = TimeEntry.id b
  | F_projectId => TimeEntry.projectId a = TimeEntry.projectId b
  | F_taskId => TimeEntry.taskId a = TimeEntry.taskId b
  | F_developerId => TimeEntry.developerId a = TimeEntry.developerId b
  | F_clientId => TimeEntry.clientId a = TimeEntry.clientId b
  | F_startAt => TimeEntry.startAt a = TimeEntry.startAt b
  | F_endAt => TimeEntry.endAt a = TimeEntry.endAt b
  | F_durationMinutes => TimeEntry.durationMinutes a = TimeEntry.durationMinutes b
  | F_billable => TimeEntry.billable a = TimeEntry.billable b
  | F_category => TimeEntry.category a = TimeEntry.category b
  | F_tags => TimeEntry.tags a = TimeEntry.tags b
  | F_status => TimeEntry.status a = TimeEntry.status b
  | F_notes => TimeEntry.notes a = TimeEntry.notes b
  | F_approvedBy => TimeEntry.approvedBy a = TimeEntry.approvedBy b
  | F_approvedAt => TimeEntry.approvedAt a = TimeEntry.approvedAt b
  | F_rejectedBy => TimeEntry.rejectedBy a = TimeEntry.rejectedBy b
  | F_rejectedAt => TimeEntry.rejectedAt a = TimeEntry.rejectedAt b
  | F_rejectionReason => TimeEntry.rejectionReason a = TimeEntry.rejectionReason b
  | F_lockedAt => TimeEntry.lockedAt a = TimeEntry.lockedAt b
  | F_billedAt => TimeEntry.billedAt a = TimeEntry.billedAt b
  | F_invoiceId => TimeEntry.invoiceId a = TimeEntry.invoiceId b
  | F_createdAt => TimeEntry.createdAt a = TimeEntry.createdAt b
  | F_updatedAt => TimeEntry.updatedAt a = TimeEntry.updatedAt b
  end.

(** [b] differs from [a] at most in the fields listed in [fs]. *)
Definition changesOnly (fs : list Field) (a b : TimeEntry.t) : Prop :=
  forall f : Field, ~ In f fs -> sameField f a b.

(** ** Intervals *)

(** The earlier and the later end point of an interval. *)
Definition lo (i : DateFns.Interval) : Date := Z.min (DateFns.start i) (DateFns.end_ i).
Definition hi (i : DateFns.Interval) : Date := Z.max (DateFns.start i) (DateFns.end_ i).

(** An interval whose start is not after its end. *)
Definition ordered (i : DateFns.Interval) : Prop := DateFns.start i <= DateFns.end_ i.

(** Overlap under inclusive bounds: a common boundary instant counts. *)
Definition overlapsInclusive (a b : DateFns.Interval) : Prop :=
  lo a <= hi b /\ lo b <= hi a.

(** Overlap under exclusive bounds: a common boundary instant does not
    count. *)
Definition overlapsExclusive (a b : DateFns.Interval) : Prop :=
  lo a < hi b /\ lo b < hi a.

(** The two intervals have an instant in common. *)
Definition shareInstant (a b : DateFns.Interval) : Prop :=
  exists t : Date, lo a <= t <= hi a /\ lo b <= t <= hi b.

(** The two intervals have an instant in common that is a boundary of
    neither. *)
Definition shareInteriorInstant (a b : DateFns.Interval) : Prop :=
  exists t : Date, lo a < t < hi a /\ lo b < t < hi b.

(** The two intervals meet at a boundary only: one ends where the other
    starts. *)
Definition touch (a b : DateFns.Interval) : Prop :=
  DateFns.end_ a = DateFns.start b \/ DateFns.end_ b = DateFns.start a.

Definition entrySpan (entry : TimeEntry.t) : DateFns.Interval :=
  DateFns.mkInterval (TimeEntry.startAt entry) (TimeEntry.endAt entry).

Definition lockSpan (lock : TimeLock.t) : DateFns.Interval :=
  DateFns.mkInterval (TimeLock.periodStart lock) (TimeLock.periodEnd lock).

Definition newLockSpan (newLock : CreateLockParams.t) : DateFns.Interval :=
  DateFns.mkInterval (CreateLockParams.periodStart newLock)
                     (CreateLockParams.periodEnd newLock).

Definition periodSpan (p : EntryPeriod) : DateFns.Interval :=
  DateFns.mkInterval (startAt p) (endAt p).

(** ** Lock scopes *)

(** An optional id is set when it is present and not the empty string. *)
Definition isSet (o : option string) : Prop :=
  exists s : string, o = Some s /\ s <> EmptyString.

(** A candidate lock and an existing lock have the same scope: the
    candidate's project id is set and the lock has the same project id, or
    likewise for the client id. *)
Definition sameScopeAs (newLock : CreateLockParams.t) (lock : TimeLock.t) : Prop :=
  (isSet (CreateLockParams.projectId newLock)
   /\ TimeLock.projectId lock = CreateLockParams.projectId newLock)
  \/
  (isSet (CreateLockParams.clientId newLock)
   /\ TimeLock.clientId lock = CreateLockParams.clientId newLock).

(** A lock matches the scope of an entry: its project id is set and is the
    entry's, or its client id is set and is the entry's. *)
Definition matchesEntry (lock : TimeLock.t) (entry : TimeEntry.t) : Prop :=
  (isSet (TimeLock.projectId lock)
   /\ TimeLock.projectId lock = Some (TimeEntry.projectId entry))
  \/
  (isSet (TimeLock.clientId lock)
   /\ TimeLock.clientId lock = Some (TimeEntry.clientId entry)).

(** An existing lock conflicts with a candidate lock. *)
Definition conflictsWith (newLock : CreateLockParams.t) (lock : TimeLock.t) : Prop :=
  TimeLock.isActive lock = true
  /\ sameScopeAs newLock lock
  /\ overlapsExclusive (newLockSpan newLock) (lockSpan lock).

(** The test [checkEntryLockConflict] applies to each lock. *)
Definition entryConflict (entry : TimeEntry.t) (lock : TimeLock.t) : bool :=
  TimeLock.isActive lock
  && (entryScopeMatch lock entry
      && DateFns.areIntervalsOverlapping (entrySpan entry) (lockSpan lock) true).

(** The test [checkPeriodLockConflict] applies to each lock. *)
Definition periodConflict (periodStart periodEnd : Date)
    (projectId clientId : option string) (lock : TimeLock.t) : bool :=
  TimeLock.isActive lock
  && (periodScopeMatch projectId clientId lock
      && DateFns.areIntervalsOverlapping
           (DateFns.mkInterval periodStart periodEnd) (lockSpan lock) true).

(** The test [validateLockOverlap] applies to each existing lock. *)
Definition lockConflict (newLock : CreateLockParams.t) (lock : TimeLock.t) : bool :=
  TimeLock.isActive lock
  && (sameScope newLock lock
      && DateFns.areIntervalsOverlapping (newLockSpan newLock) (lockSpan lock) false).

(** ** Rate cards *)

(** A card is in force at [atDate]: it is active, effective from a date not
    after [atDate], and has no end date or one not before [atDate]. *)
Definition effectiveAt (atDate : Date) (card : RateCard.t) : Prop :=
  RateCard.isActive card = true
  /\ RateCard.effectiveFrom card <= atDate
  /\ (RateCard.effectiveTo card = None
      \/ exists effectiveTo, RateCard.effectiveTo card = Some effectiveTo
                             /\ effectiveTo >= atDate).

(** The three precedence tiers of rate resolution. *)
Inductive Tier : Type := ProjectTier | ClientTier | DeveloperTier.

(** A card belongs to a tier for an entry: it has the entry's project id;
    it has the entry's client id; it has the entry's developer id and
    neither a project id nor a client id set. *)
Definition inTier (tier : Tier) (entry : TimeEntry.t) (card : RateCard.t) : Prop :=
  match tier with
  | ProjectTier => RateCard.projectId card = Some (TimeEntry.projectId entry)
  | ClientTier => RateCard.clientId card = Some (TimeEntry.clientId entry)
  | DeveloperTier =>
      RateCard.developerId card = Some (TimeEntry.developerId entry)
      /\ ~ isSet (RateCard.projectId card)
      /\ ~ isSet (RateCard.clientId card)
  end.

(** The cards of [rateCards] in force at [atDate] that belong to [tier]. *)
Definition candidate (atDate : Date) (rateCards : list RateCard.t)
    (entry : TimeEntry.t) (tier : Tier) (card : RateCard.t) : Prop :=
  In card rateCards /\ effectiveAt atDate card /\ inTier tier entry card.

(** [card] satisfies [P] and no card that satisfies [P] is effective from a
    later date. *)
Definition latestOf (P : RateCard.t -> Prop) (card : RateCard.t) : Prop :=
  P card /\ forall c, P c -> RateCard.effectiveFrom c <= RateCard.effectiveFrom card.

(** The filter each tier of [resolveEffectiveRate] applies to the cards in
    force. *)
Definition tierFilter (tier : Tier) (entry : TimeEntry.t) (card : RateCard.t) : bool :=
  match tier with
  | ProjectTier => strictEq (RateCard.projectId card) (TimeEntry.projectId entry)
  | ClientTier => strictEq (RateCard.clientId card) (TimeEntry.clientId entry)
  | DeveloperTier =>
      strictEq (RateCard.developerId card) (TimeEntry.developerId entry)
      && negb (truthy (RateCard.projectId card))
      && negb (truthy (RateCard.clientId card))
  end.

(** What one tier of [resolveEffectiveRate] yields: the first of the tier's
    cards in force, sorted by descending [effectiveFrom]. *)
Definition tierPick (atDate : Date) (rateCards : list RateCard.t)
    (entry : TimeEntry.t) (tier : Tier) : option RateCard.t :=
  hd_error (Array_sort byEffectiveFromDesc
    (filter (tierFilter tier entry)
       (filter (fun card =>
          if negb (RateCard.isActive card) then false
          else if RateCard.effectiveFrom card >? atDate then false
          else if expiredAt atDate card then false
          else true) rateCards))).

(** ** Exact money arithmetic *)

(** The rational number a finite binary64 value stands for. *)
Definition exactValue (x : float) : Q :=
  match Prim2SF x with
  | S754_finite s m e =>
      ((if s then - 1 else 1) * inject_Z (Z.pos m) * Qpower 2 e)%Q
  | _ => 0%Q
  end.

(** A rational amount in cents, rounded half up to a whole cent. *)
Definition roundHalfUpCents (amount : Q) : Z :=
  Qfloor (amount * 100 + (1 # 2))%Q.

(** The cost the design document describes: the exact product of the hours
    ([roundedMinutes] / 60) and the hourly rate, rounded half up to two
    decimals, as the nearest binary64 value. *)
Definition exactCost (roundedMinutes hourlyRate : float) : float :=
  (integerToNumber
     (roundHalfUpCents (exactValue roundedMinutes / 60 * exactValue hourlyRate)%Q)
   / 100)%float.

(** Whether an entry gets a cost record. *)
Definition costed (now : Date) (rateCards : list RateCard.t) (atDate : option Date)
    (entry : TimeEntry.t) : bool :=
  TimeEntry.billable entry
  && match resolveEffectiveRate now entry rateCards (Some (orNow now atDate)) with
     | Some _ => true
     | None => false
     end.

(** ** Sample data *)

(** 2024-01-15T09:00:00Z and 2024-01-15T10:00:00Z. *)
Definition t_09_00 : Date := 1705309200000.
Definition t_10_00 : Date := 1705312800000.

(** 2024-01-15T09:00:30Z. *)
Definition t_09_00_30 : Date := 1705309230000.

(** A manager acting at 2024-03-15T10:00:00Z. *)
Definition sampleContext : WorkflowContext :=
  mkContext "user-123" "manager" 1710496800000.

(** A draft entry of eight hours on 2024-03-10, 09:00 to 17:00 UTC. *)
Definition sampleEntry : TimeEntry.t :=
  TimeEntry.mk "entry-1" "project-1" (Some "task-1"%string) "dev-1" "client-1"
    1710061200000 1710090000000 480%float true CAT_BILLABLE ["frontend"%string]
    DRAFT (Some "Working on feature"%string) None None None None None None
    None None 1710090000000 1710090000000.

Definition sampleSubmitted : TimeEntry.t := Spread.with_status SUBMITTED sampleEntry.
Definition sampleApproved : TimeEntry.t := Spread.with_status APPROVED sampleEntry.

(** An active lock on project-1 for March 2024 (2024-03-01 to 2024-03-31). *)
Definition sampleLock : TimeLock.t :=
  TimeLock.mk "lock-1" (Some "project-1"%string) None
    1709251200000 1711843200000 "Monthly closing" "admin-1" 1711929600000
    None None true.

(** A candidate lock on project-1 from 2024-03-15 to 2024-04-15, which
    overlaps [sampleLock], and one from 2024-03-31 to 2024-04-30, which
    starts at the instant [sampleLock] ends. *)
Definition overlappingLockParams : CreateLockParams.t :=
  CreateLockParams.mk (Some "project-1"%string) None
    1710460800000 1713139200000 "Test" "admin-1".

Definition touchingLockParams : CreateLockParams.t :=
  CreateLockParams.mk (Some "project-1"%string) None
    1711843200000 1714435200000 "April closing" "admin-1".

(** An approved entry on project-1 that starts at the instant [sampleLock]
    ends (2024-03-31T00:00:00Z) and lasts eight hours. *)
Definition boundaryEntry : TimeEntry.t :=
  TimeEntry.mk "entry-9" "project-1" None "dev-1" "client-1"
    1711843200000 1711872000000 480%float true CAT_BILLABLE []
    APPROVED None None None None None None None None None
    1711872000000 1711872000000.

(** 2024-01-15 09:00-11:00, 11:00-12:00 and 10:00-12:00 UTC. *)
Definition period_09_11 : EntryPeriod := mkEntryPeriod 1705309200000 1705316400000.
Definition period_11_12 : EntryPeriod := mkEntryPeriod 1705316400000 1705320000000.
Definition period_10_12 : EntryPeriod := mkEntryPeriod 1705312800000 1705320000000.

(** An active lock for March 2024 on another project. *)
Definition otherProjectLock : TimeLock.t :=
  TimeLock.mk "lock-2" (Some "project-9"%string) None
    1709251200000 1711843200000 "Monthly closing" "admin-1" 1711929600000
    None None true.

(** The rate cards of a developer default (100 from 2024-01-01), a project
    rate for project-1 (150 from 2024-02-01) and a client rate for client-1
    (130 from 2024-01-15). *)
Definition sampleRateCards : list RateCard.t :=
  [ RateCard.mk "rate-1" (Some "dev-1"%string) None None 100%float "USD"
      1704067200000 None true 1704067200000 1704067200000;
    RateCard.mk "rate-3" None (Some "project-1"%string) None 150%float "USD"
      1706745600000 None true 1706745600000 1706745600000;
    RateCard.mk "rate-4" (Some "dev-3"%string) None (Some "client-1"%string)
      130%float "USD" 1705276800000 None true 1705276800000 1705276800000 ].

(** A billable entry of 120 minutes on project-1, 2024-03-10 09:00-11:00. *)
Definition twoHourEntry : TimeEntry.t :=
  TimeEntry.mk "entry-1" "project-1" (Some "task-1"%string) "dev-1" "client-1"
    1710061200000 1710068400000 120%float true CAT_BILLABLE []
    APPROVED None None None None None None None None None
    1710068400000 1710068400000.

(** A billable entry of 9 minutes and a non-billable entry of 60 minutes on
    project-1, and a billable entry on a project without any rate. *)
Definition nineMinuteEntry : TimeEntry.t :=
  TimeEntry.mk "entry-5" "project-1" None "dev-5" "client-5"
    1710061200000 1710061740000 9%float true CAT_BILLABLE []
    APPROVED None None None None None None None None None
    1710061740000 1710061740000.

Definition meetingEntry : TimeEntry.t :=
  TimeEntry.mk "entry-3" "project-1" None "dev-1" "client-1"
    1710061200000 1710064800000 60%float false CAT_MEETING []
    APPROVED None None None None None None None None None
    1710064800000 1710064800000.

Definition unratedEntry : TimeEntry.t :=
  TimeEntry.mk "entry-7" "project-7" None "dev-7" "client-7"
    1710061200000 1710064800000 60%float true CAT_BILLABLE []
    APPROVED None None None None None None None None None
    1710064800000 1710064800000.

(** A project rate of 1.5 per hour for project-1 from 2024-01-01. *)
Definition lowRateCard : RateCard.t :=
  RateCard.mk "rate-9" None (Some "project-1"%string) None 1.5%float "USD"
    1704067200000 None true 1704067200000 1704067200000.

(** 2024-03-15T10:00:00Z. *)
Definition mid_march : Date := 1710496800000.

(* ================================================================= *)
(** * Further functions of the core *)

(* ================================================================= *)
(** ** More JavaScript: ISO date strings and maps *)

(** The decimal digits of a natural number below [10 ^ width], padded with
    zeros on the left to [width] characters. *)
Fixpoint padDigits (width : nat) (n : Z) : string :=
  match width with
  | O => EmptyString
  | S w =>
      (padDigits w (n / 10)
       ++ String (Ascii.ascii_of_nat (48 + Z.to_nat (n mod 10))) EmptyString)%string
  end.

(** Year, month and day of the proleptic Gregorian calendar for a number of
    days since 1970-01-01. *)
Definition civilFromDays (days : Z) : Z * Z * Z :=
  let z := days + 719468 in
  let era := z / 146097 in
  let doe := z - era * 146097 in
  let yoe := (doe - doe / 1460 + doe / 36524 - doe / 146096) / 365 in
  let doy := doe - (365 * yoe + yoe / 4 - yoe / 100) in
  let mp := (5 * doy + 2) / 153 in
  let d := doy - (153 * mp + 2) / 5 + 1 in
  let m := if mp <? 10 then mp + 3 else mp - 9 in
  let y := yoe + era * 400 + (if m <=? 2 then 1 else 0) in
  (y, m, d).

(** [Date.prototype.toISOString]: [YYYY-MM-DDTHH:mm:ss.sssZ] in UTC, the
    year with six digits and a sign when it is outside 0..9999. *)
Definition toISOString (t : Date) : string :=
  let days := t / 86400000 in
  let ms := t mod 86400000 in
  let '(y, m, d) := civilFromDays days in
  let year :=
    if (0 <=? y) && (y <=? 9999) then padDigits 4 y
    else if y <? 0 then ("-" ++ padDigits 6 (- y))%string
    else ("+" ++ padDigits 6 y)%string in
  (year ++ "-" ++ padDigits 2 m ++ "-" ++ padDigits 2 d ++ "T"
     ++ padDigits 2 (ms / 3600000) ++ ":" ++ padDigits 2 (ms / 60000 mod 60)
     ++ ":" ++ padDigits 2 (ms / 1000 mod 60) ++ "." ++ padDigits 3 (ms mod 1000)
     ++ "Z")%string.

(** [s.split(c)[0]]: the part of [s] before the first [c]. *)
Fixpoint beforeFirst (c : Ascii.ascii) (s : string) : string :=
  match s with
  | EmptyString => EmptyString
  | String a rest =>
      if Ascii.eqb a c then EmptyString else String a (beforeFirst c rest)
  end.

(** [date.toISOString().split('T')[0]]. *)
Definition isoDate (t : Date) : string :=
  beforeFirst "T"%char (toISOString t).

(** A JavaScript [Map] with string keys: the entries in insertion order.
    [set] on a key already present replaces its value in place. *)
Module JsMap.

Definition t (V : Type) : Type := list (string * V).

Definition empty {V : Type} : t V := [].

Fixpoint get {V : Type} (m : t V) (key : string) : option V :=
  match m with
  | [] => None
  | (k, v) :: rest => if String.eqb k key then Some v else get rest key
  end.

Fixpoint set {V : Type} (m : t V) (key : string) (value : V) : t V :=
  match m with
  | [] => [(key, value)]
  | (k, v) :: rest =>
      if String.eqb k key then (k, value) :: rest
      else (k, v) :: set rest key value
  end.

Fixpoint delete {V : Type} (m : t V) (key : string) : t V :=
  match m with
  | [] => []
  | (k, v) :: rest =>
      if String.eqb k key then rest else (k, v) :: delete rest key
  end.

Definition keys {V : Type} (m : t V) : list string := map fst m.

Definition values {V : Type} (m : t V) : list V := map snd m.

End JsMap.

(* ================================================================= *)
(** ** core/policies.ts, continued *)

(** [Pick<TimeEntry, 'id' | 'startAt' | 'endAt'>]; every [TimeEntry] has
    that shape. *)
Module EntrySlot.
Record t : Type := mk {
  id : string;
  startAt : Date;
  endAt : Date
}.
End EntrySlot.

Definition asEntrySlot (e : TimeEntry.t) : EntrySlot.t :=
  EntrySlot.mk (TimeEntry.id e) (TimeEntry.startAt e) (TimeEntry.endAt e).

(** An [EntrySlot] passed where a [Pick<TimeEntry, 'startAt' | 'endAt'>] is
    expected. *)
Definition slotPeriod (e : EntrySlot.t) : EntryPeriod :=
  mkEntryPeriod (EntrySlot.startAt e) (EntrySlot.endAt e).

(** The inner loop of [findOverlaps], [for (j = i + 1; ...)], over the
    entries after [entries[i]]. *)
Fixpoint findOverlapsFrom (entry_i : EntrySlot.t) (after : list EntrySlot.t)
    (overlaps : list (string * string)) : list (string * string) :=
  match after with
  | [] => overlaps
  | entry_j :: rest =>
      if detectOverlap (slotPeriod entry_i) (slotPeriod entry_j)
      then findOverlapsFrom entry_i rest
             (overlaps ++ [(EntrySlot.id entry_i, EntrySlot.id entry_j)])
      else findOverlapsFrom entry_i rest overlaps
  end.

(** The outer loop, [for (i = 0; ...)]. *)
Fixpoint findOverlapsLoop (entries : list EntrySlot.t)
    (overlaps : list (string * string)) : list (string * string) :=
  match entries with
  | [] => overlaps
  | entry_i :: after =>
      findOverlapsLoop after (findOverlapsFrom entry_i after overlaps)
  end.

Definition findOverlaps (entries : list EntrySlot.t) : list (string * string) :=
  findOverlapsLoop entries [].

(** [groupEntriesByDate]: [entries.forEach] over a [Map] from the UTC date
    of [startAt] to the entries of that date. *)
Definition groupEntriesByDate (entries : list TimeEntry.t)
    : JsMap.t (list TimeEntry.t) :=
  fold_left (fun grouped entry =>
    let dateKey := isoDate (TimeEntry.startAt entry) in
    let existing :=
      match JsMap.get grouped dateKey with
      | Some l => l
      | None => []
      end in
    JsMap.set grouped dateKey (existing ++ [entry]))
    entries JsMap.empty.

(* ================================================================= *)
(** ** core/locks.ts, continued *)

(** [Omit<TimeLock, 'id'>]. *)
Module NewTimeLock.
Record t : Type := mk {
  projectId : option string;
  clientId : option string;
  periodStart : Date;
  periodEnd : Date;
  reason : string;
  lockedBy : string;
  lockedAt : Date;
  unlockedBy : option string;
  unlockedAt : option Date;
  isActive : bool
}.
End NewTimeLock.

Record CreateLockResult : Type := mkCreateLockResult {
  createdLock : NewTimeLock.t;
  createdLog : AuditLog.t
}.

(** [createTimeLock]; [now] is the clock read by [new Date()]. *)
Definition createTimeLock (now : Date) (params : CreateLockParams.t)
    : Result CreateLockResult :=
  let projectId := CreateLockParams.projectId params in
  let clientId := CreateLockParams.clientId params in
  let periodStart := CreateLockParams.periodStart params in
  let periodEnd := CreateLockParams.periodEnd params in
  let reason := CreateLockParams.reason params in
  let lockedBy := CreateLockParams.lockedBy params in
  if negb (truthy projectId) && negb (truthy clientId) then
    throw (ValidationError "Either projectId or clientId must be provided")
  else if periodEnd <=? periodStart then
    throw (ValidationError "Period end must be after period start")
  else
    let lock :=
      NewTimeLock.mk projectId clientId periodStart periodEnd reason lockedBy
                     now None None true in
    let auditLog :=
      AuditLog.mk "TimeLock" EmptyString "CREATE" lockedBy
        [("projectId"%string, ofOptString projectId);
         ("clientId"%string, ofOptString clientId);
         ("periodStart"%string, JsString (toISOString periodStart));
         ("periodEnd"%string, JsString (toISOString periodEnd));
         ("reason"%string, JsString reason)] in
    ok (mkCreateLockResult lock auditLog).

Record UnlockResult : Type := mkUnlockResult {
  unlockedLock : TimeLock.t;
  unlockLog : AuditLog.t
}.

(** [unlockTimeLock]; [now] is the clock read by [new Date()]. *)
Definition unlockTimeLock (now : Date) (lock : TimeLock.t) (unlockedBy : string)
    (reason : option string) : Result UnlockResult :=
  if negb (TimeLock.isActive lock) then
    throw (ValidationError "Lock is already inactive")
  else
    let unlockedLock :=
      TimeLock.mk (TimeLock.id lock) (TimeLock.projectId lock)
        (TimeLock.clientId lock) (TimeLock.periodStart lock)
        (TimeLock.periodEnd lock) (TimeLock.reason lock) (TimeLock.lockedBy lock)
        (TimeLock.lockedAt lock) (Some unlockedBy) (Some now) false in
    let auditLog :=
      AuditLog.mk "TimeLock" (TimeLock.id lock) "UNLOCK" unlockedBy
        [("reason"%string, ofOptString reason);
         ("projectId"%string, ofOptString (TimeLock.projectId lock));
         ("clientId"%string, ofOptString (TimeLock.clientId lock))] in
    ok (mkUnlockResult unlockedLock auditLog).

Definition getAffectedEntries (lock : TimeLock.t) (entries : list TimeEntry.t)
    : list TimeEntry.t :=
  filter (fun entry =>
    let scopeMatch := entryScopeMatch lock entry in
    if negb scopeMatch then false
    else
      DateFns.areIntervalsOverlapping
        (DateFns.mkInterval (TimeEntry.startAt entry) (TimeEntry.endAt entry))
        (DateFns.mkInterval (TimeLock.periodStart lock) (TimeLock.periodEnd lock))
        true) entries.

(** The class [LockManager]: its state is the private map [locks] from lock
    id to lock.  Each method takes the state; the two that update it return
    the new state. *)
Module LockManager.

Definition t : Type := JsMap.t TimeLock.t.

Definition constructor (locks : option (list TimeLock.t)) : t :=
  fold_left (fun this lock => JsMap.set this (TimeLock.id lock) lock)
            (orEmpty locks) JsMap.empty.

Definition addLock (this : t) (lock : TimeLock.t) : t :=
  JsMap.set this (TimeLock.id lock) lock.

Definition removeLock (this : t) (lockId : string) : t :=
  JsMap.delete this lockId.

Definition getActiveLocks (this : t) : list TimeLock.t :=
  filter TimeLock.isActive (JsMap.values this).

Definition isEntryLocked (this : t) (entry : TimeEntry.t) : bool :=
  match checkEntryLockConflict entry (getActiveLocks this) with
  | Some _ => true
  | None => false
  end.

Definition isPeriodLocked (this : t) (periodStart periodEnd : Date)
    (projectId clientId : option string) : bool :=
  match checkPeriodLockConflict periodStart periodEnd projectId clientId
          (Some (getActiveLocks this)) with
  | Some _ => true
  | None => false
  end.

Definition getProjectLocks (this : t) (projectId : string) : list TimeLock.t :=
  filter (fun lock => strictEq (TimeLock.projectId lock) projectId)
         (getActiveLocks this).

Definition getClientLocks (this : t) (clientId : string) : list TimeLock.t :=
  filter (fun lock => strictEq (TimeLock.clientId lock) clientId)
         (getActiveLocks this).

Definition getLocksInRange (this : t) (startDate endDate : Date) : list TimeLock.t :=
  filter (fun lock =>
    DateFns.areIntervalsOverlapping
      (DateFns.mkInterval startDate endDate)
      (DateFns.mkInterval (TimeLock.periodStart lock) (TimeLock.periodEnd lock))
      true) (getActiveLocks this).

End LockManager.

(** ** Helpers for the statements about the further functions *)

(** The overlapping pairs of a list, those of the first entry first. *)
Fixpoint overlapPairs (entries : list EntrySlot.t) : list (string * string) :=
  match entries with
  | [] => []
  | entry_i :: after =>
      map (fun entry_j => (EntrySlot.id entry_i, EntrySlot.id entry_j))
          (filter (fun entry_j =>
                     detectOverlap (slotPeriod entry_i) (slotPeriod entry_j))
                  after)
      ++ overlapPairs after
  end.

(** One valid transition, and any number of them in a row. *)
Definition transition (a b : TimeEntryStatus) : Prop :=
  valid (validateStatusTransition a b) = true.

Inductive reachable (a : TimeEntryStatus) : TimeEntryStatus -> Prop :=
| reach_here : reachable a a
| reach_next (b c : TimeEntryStatus) :
    reachable a b -> transition b c -> reachable a c.

(** The minutes of a rounding interval, as an integer. *)
Definition intervalMinutes (i : RoundingInterval) : Z :=
  match i with
  | NONE => 0
  | ONE_MINUTE => 1
  | FIVE_MINUTES => 5
  | SIX_MINUTES => 6
  | FIFTEEN_MINUTES => 15
  end.

(** The multiple of [interval] nearest to [minutes], the upper one when two
    are equally near; [minutes] itself when [interval] is 0. *)
Definition nearestMultiple (minutes interval : Z) : Z :=
  if interval =? 0 then minutes
  else (2 * minutes + interval) / (2 * interval) * interval.

(** Equality test on the specification values of binary64 numbers. *)
Definition spec_float_eqb (a b : SpecFloat.spec_float) : bool :=
  match a, b with
  | SpecFloat.S754_zero s, SpecFloat.S754_zero s' => Bool.eqb s s'
  | SpecFloat.S754_infinity s, SpecFloat.S754_infinity s' => Bool.eqb s s'
  | SpecFloat.S754_nan, SpecFloat.S754_nan => true
  | SpecFloat.S754_finite s m e, SpecFloat.S754_finite s' m' e' =>
      Bool.eqb s s' && Pos.eqb m m' && Z.eqb e e'
  | _, _ => false
  end.

(** Whether two binary64 numbers are the same value (same sign of zero
    included). *)
Definition sameNumber (x y : float) : bool :=
  spec_float_eqb (Prim2SF x) (Prim2SF y).

(** [differenceInMinutes] computed on primitive binary64 numbers, for epoch
    times that are binary64 numbers themselves, as those of valid dates
    are; a zero result is given as +0. *)
Definition differenceInMinutesNumber (dateLeft dateRight : Date) : float :=
  let diff :=
    ((integerToNumber dateLeft - integerToNumber dateRight) / 60000)%float in
  let result := Math_trunc diff in
  if (result =? 0)%float then 0%float else result.

(** The epoch times of valid dates. *)
Definition validTime (t : Z) : bool := Z.abs t <=? 8640000000000000.

(** A sequence of pairs of instants: a linear congruential generator gives
    dates over the whole valid range, pairs less than two days apart, pairs
    up to 2^52 ms apart, pairs around 2^53 ms apart, and pairs more than
    2^53 ms apart whose difference is just below a multiple of 60000. *)
Definition nextRandom (x : Z) : Z :=
  (6364136223846793005 * x + 1442695040888963407) mod 2 ^ 64.

Definition randomTime (x : Z) : Z :=
  (x / 2 ^ 7) mod 17280000000000001 - 8640000000000000.

Fixpoint instantPairs (count : nat) (x : Z) : list (Z * Z) :=
  match count with
  | O => []
  | S k =>
      let a := nextRandom x in
      let b := nextRandom a in
      let c := nextRandom b in
      let late := 8640000000000000 - (c / 2 ^ 50) mod 1000 in
      (randomTime a, randomTime b)
      :: (randomTime a, randomTime a - (c / 2 ^ 11) mod 200000000 + 100000000)
      :: (randomTime a, randomTime a - (c / 2 ^ 9) mod 2 ^ 52)
      :: (randomTime a / 3, randomTime a / 3 - (c / 2 ^ 9) mod 2 ^ 54 + 2 ^ 53)
      :: (late, late - 60000 * (150200000000 + (c / 2 ^ 5) mod 137000000000)
                + (c / 2 ^ 3) mod 4)
      :: instantPairs k c
  end.

Definition validPairs (count : nat) : list (Z * Z) :=
  filter (fun p => validTime (fst p) && validTime (snd p))
         (instantPairs count 1).

Definition differenceInMinutesChecked (count : nat) : bool :=
  forallb (fun p =>
             sameNumber
               (integerToNumber (DateFns.differenceInMinutes (fst p) (snd p)))
               (differenceInMinutesNumber (fst p) (snd p)))
          (validPairs count).

Definition allIntervals : list RoundingInterval :=
  [NONE; ONE_MINUTE; FIVE_MINUTES; SIX_MINUTES; FIFTEEN_MINUTES].

(** The whole minutes of a day, 0 to 1440. *)
Definition minutesOfDay : list Z := map Z.of_nat (seq 0 1441).

Definition roundDurationChecked : bool :=
  forallb (fun m =>
    forallb (fun i =>
      sameNumber (roundDuration (integerToNumber m) i)
                 (integerToNumber (nearestMultiple m (intervalMinutes i))))
      allIntervals) minutesOfDay.

(** A lock is in conflict with an entry: it is active, matches the scope of
    the entry and overlaps its interval under inclusive bounds. *)
Definition conflictsWithEntry (entry : TimeEntry.t) (lock : TimeLock.t) : Prop :=
  TimeLock.isActive lock = true
  /\ matchesEntry lock entry
  /\ overlapsInclusive (entrySpan entry) (lockSpan lock).

(** A stored lock under the id the manager gives it on creation. *)
Definition withId (id : string) (lock : NewTimeLock.t) : TimeLock.t :=
  TimeLock.mk id (NewTimeLock.projectId lock) (NewTimeLock.clientId lock)
    (NewTimeLock.periodStart lock) (NewTimeLock.periodEnd lock)
    (NewTimeLock.reason lock) (NewTimeLock.lockedBy lock)
    (NewTimeLock.lockedAt lock) (NewTimeLock.unlockedBy lock)
    (NewTimeLock.unlockedAt lock) (NewTimeLock.isActive lock).

(** The state of a lock manager is well formed: every lock is stored under
    its own id and no id is stored twice. *)
Definition wellFormed (this : LockManager.t) : Prop :=
  NoDup (JsMap.keys this)
  /\ Forall (fun kv => fst kv = TimeLock.id (snd kv)) this.

(* ================================================================= *)
(** ** core/workflows.ts, continued *)

Module Timesheet.
Record t : Type := mk {
  id : string;
  developerId : string;
  clientId : string;
  periodStart : Date;
  periodEnd : Date;
  totalMinutes : float;
  billableMinutes : float;
  status : TimeEntryStatus;
  submittedAt : option Date;
  approvedAt : option Date;
  approvedBy : option string;
  entries : list TimeEntry.t
}.
End Timesheet.

(** The metadata of the timesheet record holds a number beside strings. *)
Inductive MetaValue : Type :=
| MetaJs (v : JsValue)
| MetaNumber (n : Z).

(** An audit record whose metadata may hold numbers; the audit records of
    the entries are of this shape too. *)
Module SheetLog.
Record t : Type := mk {
  entityType : string;
  entityId : string;
  action : string;
  userId : string;
  metadata : list (string * MetaValue)
}.
End SheetLog.

Definition asSheetLog (log : AuditLog.t) : SheetLog.t :=
  SheetLog.mk (AuditLog.entityType log) (AuditLog.entityId log)
    (AuditLog.action log) (AuditLog.userId log)
    (map (fun kv => (fst kv, MetaJs (snd kv))) (AuditLog.metadata log)).

Record SubmitTimesheetResult : Type := mkSubmitTimesheetResult {
  sheet : Timesheet.t;
  sheetEntries : list TimeEntry.t;
  sheetLogs : list SheetLog.t
}.

Definition isDraft (e : TimeEntry.t) : bool :=
  status_eqb (TimeEntry.status e) DRAFT.

Definition submitTimesheet (timesheet : Timesheet.t) (entries : list TimeEntry.t)
    (context : WorkflowContext) (locks : option (list PeriodLock))
    : Result SubmitTimesheetResult :=
  let locks := orEmpty locks in
  if isPeriodLocked (Timesheet.periodStart timesheet)
                    (Timesheet.periodEnd timesheet) locks then
    throw (PeriodLockedError (Timesheet.periodStart timesheet)
                             (Timesheet.periodEnd timesheet))
  else
    let draftEntries := filter isDraft entries in
    '(mkEntriesResult submittedEntries entryLogs) <-
      submitTimeEntries draftEntries context (Some locks) ;;
    let updatedTimesheet :=
      Timesheet.mk (Timesheet.id timesheet) (Timesheet.developerId timesheet)
        (Timesheet.clientId timesheet) (Timesheet.periodStart timesheet)
        (Timesheet.periodEnd timesheet) (Timesheet.totalMinutes timesheet)
        (Timesheet.billableMinutes timesheet) SUBMITTED
        (Some (timestamp context)) (Timesheet.approvedAt timesheet)
        (Timesheet.approvedBy timesheet)
        (filter (fun e => negb (isDraft e)) entries ++ submittedEntries) in
    let timesheetLog :=
      SheetLog.mk "Timesheet" (Timesheet.id timesheet) "SUBMIT" (userId context)
        [("userRole"%string, MetaJs (JsString (userRole context)));
         ("entriesSubmitted"%string,
          MetaNumber (Z.of_nat (List.length submittedEntries)));
         ("weekStart"%string,
          MetaJs (JsString (toISOString (Timesheet.periodStart timesheet))));
         ("weekEnd"%string,
          MetaJs (JsString (toISOString (Timesheet.periodEnd timesheet))))] in
    ok (mkSubmitTimesheetResult updatedTimesheet
          (Timesheet.entries updatedTimesheet)
          (map asSheetLog entryLogs ++ [timesheetLog])).

(** The entry [submitTimeEntries] returns for a draft entry. *)
Definition submittedAt (context : WorkflowContext) (entry : TimeEntry.t)
    : TimeEntry.t :=
  Spread.with_updatedAt (timestamp context) (Spread.with_status SUBMITTED entry).

Definition periodLocked (locks : option (list PeriodLock)) (entry : TimeEntry.t)
    : Prop :=
  isPeriodLocked (TimeEntry.startAt entry) (TimeEntry.endAt entry)
                 (orEmpty locks) = true.

(** A timesheet for the week of 2024-03-04 to 2024-03-10. *)
Definition sampleTimesheet : Timesheet.t :=
  Timesheet.mk "timesheet-1" "dev-1" "client-1" 1709510400000 1710028800000
    2400%float 2000%float DRAFT None None None [].

Definition sampleRejected : TimeEntry.t := Spread.with_status REJECTED sampleEntry.

(** An active lock over March 2024, as the workflow functions take it. *)
Definition marchPeriodLock : PeriodLock :=
  mkPeriodLock 1709251200000 1711843200000 true.

(** The entries of a list that start on the UTC date [dateKey]. *)
Definition startingOn (dateKey : string) (entries : list TimeEntry.t)
    : list TimeEntry.t :=
  filter (fun e => String.eqb (isoDate (TimeEntry.startAt e)) dateKey) entries.

(** [Some l] for a non-empty list, [None] for the empty one. *)
Definition nonEmpty {A : Type} (l : list A) : option (list A) :=
  match l with
  | [] => None
  | _ => Some l
  end.

(** Two project rates for project-1 that are both effective from
    2024-02-01. *)
Definition tiedCardA : RateCard.t :=
  RateCard.mk "rate-a" None (Some "project-1"%string) None 150%float "USD"
    1706745600000 None true 1706745600000 1706745600000.

Definition tiedCardB : RateCard.t :=
  RateCard.mk "rate-b" None (Some "project-1"%string) None 175%float "USD"
    1706745600000 None true 1706745600000 1706745600000.

(* ================================================================= *)
(** ** core/finance.ts, continued *)

(** Counters ([entryCount]) are integers; they stay far below 2^53, where
    binary64 counts exactly. *)
Module ProjectSummary.
Record t : Type := mk {
  projectId : string;
  totalMinutes : float;
  billableMinutes : float;
  nonBillableMinutes : float;
  totalCost : float;
  currency : string;
  entryCount : Z
}.
End ProjectSummary.

(** [cost?.currency || 'USD']. *)
Definition currencyOrUSD (cost : option EntryCost.t) : string :=
  match cost with
  | Some c =>
      if String.eqb (EntryCost.currency c) EmptyString then "USD"%string
      else EntryCost.currency c
  | None => "USD"%string
  end.

(** [costs.forEach(cost => costMap.set(cost.entryId, cost))] on a new map. *)
Definition costLookup (costs : list EntryCost.t) : JsMap.t EntryCost.t :=
  fold_left (fun costMap cost => JsMap.set costMap (EntryCost.entryId cost) cost)
            costs JsMap.empty.

(** The summary a project gets when its first entry is met. *)
Definition newProjectSummary (cost : option EntryCost.t) (entry : TimeEntry.t)
    : ProjectSummary.t :=
  ProjectSummary.mk (TimeEntry.projectId entry) 0 0 0 0 (currencyOrUSD cost) 0.

(** The updates the loop body makes to the summary of the entry's project. *)
Definition addToProjectSummary (cost : option EntryCost.t) (entry : TimeEntry.t)
    (summary : ProjectSummary.t) : ProjectSummary.t :=
  let d := TimeEntry.durationMinutes entry in
  ProjectSummary.mk
    (ProjectSummary.projectId summary)
    (ProjectSummary.totalMinutes summary + d)%float
    (if TimeEntry.billable entry
     then (ProjectSummary.billableMinutes summary + d)%float
     else ProjectSummary.billableMinutes summary)
    (if TimeEntry.billable entry
     then ProjectSummary.nonBillableMinutes summary
     else (ProjectSummary.nonBillableMinutes summary + d)%float)
    (match cost with
     | Some c =>
         if TimeEntry.billable entry
         then (ProjectSummary.totalCost summary + EntryCost.cost c)%float
         else ProjectSummary.totalCost summary
     | None => ProjectSummary.totalCost summary
     end)
    (ProjectSummary.currency summary)
    (ProjectSummary.entryCount summary + 1).

(** One turn of the loop of [aggregateByProject].  The summary object is
    held by the map and updated in place, which is a [set] under the same
    key. *)
Definition aggregateProjectStep (costMap : JsMap.t EntryCost.t)
    (projectMap : JsMap.t ProjectSummary.t) (entry : TimeEntry.t)
    : JsMap.t ProjectSummary.t :=
  let cost := JsMap.get costMap (TimeEntry.id entry) in
  let '(summary, projectMap) :=
    match JsMap.get projectMap (TimeEntry.projectId entry) with
    | Some summary => (summary, projectMap)
    | None =>
        let summary := newProjectSummary cost entry in
        (summary, JsMap.set projectMap (TimeEntry.projectId entry) summary)
    end in
  JsMap.set projectMap (TimeEntry.projectId entry)
            (addToProjectSummary cost entry summary).

Definition aggregateByProject (entries : list TimeEntry.t)
    (costs : list EntryCost.t) : list ProjectSummary.t :=
  let costMap := costLookup costs in
  JsMap.values (fold_left (aggregateProjectStep costMap) entries JsMap.empty).

(** The entries of a list that belong to a project. *)
Definition inProject (projectId : string) (entries : list TimeEntry.t)
    : list TimeEntry.t :=
  filter (fun e => String.eqb (TimeEntry.projectId e) projectId) entries.

(** The summary of a list of entries of one project, taken alone: that of
    its first entry, updated with each entry in order. *)
Definition summaryAlone (costMap : JsMap.t EntryCost.t)
    (entries : list TimeEntry.t) : option ProjectSummary.t :=
  match entries with
  | [] => None
  | first :: _ =>
      Some (fold_left (fun summary entry =>
              addToProjectSummary (JsMap.get costMap (TimeEntry.id entry))
                                  entry summary)
              entries
              (newProjectSummary (JsMap.get costMap (TimeEntry.id first)) first))
  end.

(** The total of the entry counts of a list of summaries. *)
Definition totalEntryCount (summaries : list ProjectSummary.t) : Z :=
  fold_right (fun s n => ProjectSummary.entryCount s + n) 0 summaries.

(** Three entries: project-1, project-7, project-1 again. *)
Definition mixedEntries : list TimeEntry.t :=
  [meetingEntry; unratedEntry; twoHourEntry].

(** [Math.min(...xs)] and [Math.max(...xs)] on epoch times.  Without
    arguments they are [Infinity] and [-Infinity], from which [new Date]
    builds an Invalid Date; that is the [None] here. *)
Definition Math_min (xs : list Z) : option Z :=
  match xs with
  | [] => None
  | x :: rest => Some (fold_left Z.min rest x)
  end.

Definition Math_max (xs : list Z) : option Z :=
  match xs with
  | [] => None
  | x :: rest => Some (fold_left Z.max rest x)
  end.

(** [Array.from(new Set(xs))]: the distinct strings of [xs] in the order of
    their first occurrence. *)
Definition Set_add (s : list string) (x : string) : list string :=
  if existsb (String.eqb x) s then s else s ++ [x].

Definition distinct (xs : list string) : list string :=
  fold_left Set_add xs [].

(** [cost?.cost || 0]: zero, minus zero and NaN are falsy. *)
Definition costOrZero (cost : option EntryCost.t) : float :=
  match cost with
  | Some c =>
      if ((EntryCost.cost c =? 0) || negb (EntryCost.cost c =? EntryCost.cost c))%float
      then 0%float
      else EntryCost.cost c
  | None => 0%float
  end.

(** A date range whose ends may be an Invalid Date ([None]). *)
Module DateRange.
Record t : Type := mk {
  from : option Date;
  to : option Date
}.
End DateRange.

Module InvoiceMapping.
Record t : Type := mk {
  invoiceId : string;
  clientId : string;
  projectIds : list string;
  dateRange : DateRange.t;
  entries : list TimeEntry.t;
  totalAmount : float;
  currency : string
}.
End InvoiceMapping.

Definition mapToInvoice (entries : list TimeEntry.t) (costs : list EntryCost.t)
    (invoiceId clientId : string) : InvoiceMapping.t :=
  let costMap := costLookup costs in
  let projectIds := distinct (map TimeEntry.projectId entries) in
  let dates := map TimeEntry.startAt entries in
  let totalAmount :=
    fold_left (fun sum e =>
                 (sum + costOrZero (JsMap.get costMap (TimeEntry.id e)))%float)
              (filter TimeEntry.billable entries) 0%float in
  InvoiceMapping.mk invoiceId clientId projectIds
    (DateRange.mk (Math_min dates) (Math_max dates))
    entries
    (Math_round (totalAmount * 100) / 100)%float
    (currencyOrUSD (hd_error costs)).
(* ================================================================= *)
(** * Properties *)

(* ================================================================= *)
(** ** Status transition policy *)

Lemma status_eqb_eq (a b : TimeEntryStatus) : status_eqb a b = true <-> a = b.
Proof. destruct a, b; simpl; split; intro H; congruence. Qed.

Lemma status_eqb_refl (a : TimeEntryStatus) : status_eqb a a = true.
Proof. now apply status_eqb_eq. Qed.

Lemma status_eqb_neq (a b : TimeEntryStatus) : status_eqb a b = false <-> a <> b.
Proof.
  split.
  - intros H E. apply status_eqb_eq in E. congruence.
  - intro N. destruct (status_eqb a b) eqn:E; [|reflexivity].
    apply status_eqb_eq in E. contradiction.
Qed.




(* ================================================================= *)
(** ** Binary64 arithmetic on epoch times *)

Lemma pow2Up_nonpos k : k <= 0 -> Binary64.pow2Up k = 1.
Proof. intro H. unfold Binary64.pow2Up. now rewrite Z.max_l by lia. Qed.

Lemma pow2Up_nonneg k : 0 <= k -> Binary64.pow2Up k = 2 ^ k.
Proof. intro H. unfold Binary64.pow2Up. now rewrite Z.max_r by lia. Qed.

Lemma pow2Down_nonneg k : 0 <= k -> Binary64.pow2Down k = 1.
Proof. intro H. unfold Binary64.pow2Down. now rewrite Z.max_l by lia. Qed.

Lemma pow2Down_nonpos k : k <= 0 -> Binary64.pow2Down k = 2 ^ (- k).
Proof. intro H. unfold Binary64.pow2Down. now rewrite Z.max_r by lia. Qed.

Lemma pow2Down_pos k : 0 < Binary64.pow2Down k.
Proof. unfold Binary64.pow2Down. apply Z.pow_pos_nonneg; lia. Qed.

Lemma pow2Up_pos k : 0 < Binary64.pow2Up k.
Proof. unfold Binary64.pow2Up. apply Z.pow_pos_nonneg; lia. Qed.

Lemma floorLog2_le n m : Binary64.floorLog2 n m <= Z.log2 n - Z.log2 m.
Proof. unfold Binary64.floorLog2. destruct (_ <=? _); lia. Qed.

Lemma floorLog2_ge n m : Z.log2 n - Z.log2 m - 1 <= Binary64.floorLog2 n m.
Proof. unfold Binary64.floorLog2. destruct (_ <=? _); lia. Qed.

(** [n / m] is at least 2 to the power [Binary64.floorLog2 n m]. *)
Lemma floorLog2_lower n m :
  0 < n -> 0 < m ->
  m * Binary64.pow2Up (Binary64.floorLog2 n m) <= n * Binary64.pow2Down (Binary64.floorLog2 n m).
Proof.
  intros Hn Hm. unfold Binary64.floorLog2.
  set (k := Z.log2 n - Z.log2 m).
  destruct (Z.leb_spec (m * Binary64.pow2Up k) (n * Binary64.pow2Down k)) as [H | H]; [exact H |].
  pose proof (Z.log2_spec n Hn) as [Hn1 _].
  pose proof (Z.log2_spec m Hm) as [_ Hm2].
  pose proof (Z.log2_nonneg n) as Hln. pose proof (Z.log2_nonneg m) as Hlm.
  destruct (Z.le_gt_cases 0 (k - 1)) as [Hk | Hk].
  - rewrite pow2Up_nonneg, pow2Down_nonneg by lia.
    assert (E : 2 ^ Z.succ (Z.log2 m) * 2 ^ (k - 1) = 2 ^ Z.log2 n).
    { rewrite <- Z.pow_add_r by lia. f_equal. unfold k. lia. }
    assert (0 < 2 ^ (k - 1)) by (apply Z.pow_pos_nonneg; lia).
    nia.
  - rewrite pow2Up_nonpos, pow2Down_nonpos by lia.
    assert (E : 2 ^ Z.log2 n * 2 ^ (- (k - 1)) = 2 ^ Z.succ (Z.log2 m)).
    { rewrite <- Z.pow_add_r by lia. f_equal. unfold k. lia. }
    assert (0 < 2 ^ (- (k - 1))) by (apply Z.pow_pos_nonneg; lia).
    nia.
Qed.

Lemma roundHalfEven_spec n m :
  0 < m ->
  n / m <= Binary64.roundHalfEven n m
  /\ 2 * n - m <= 2 * (Binary64.roundHalfEven n m * m) <= 2 * n + m.
Proof.
  intro Hm. unfold Binary64.roundHalfEven.
  pose proof (Z.div_mod n m ltac:(lia)) as Hdm.
  pose proof (Z.mod_pos_bound n m Hm) as Hr.
  destruct (Z.ltb_spec (2 * (n mod m)) m) as [H1 | H1]; [nia |].
  destruct (Z.ltb_spec m (2 * (n mod m))) as [H2 | H2]; [nia |].
  destruct (Z.even (n / m)); nia.
Qed.

(** An integer below 2^53 is a binary64 number. *)
Lemma trunc_nearest_integer n :
  0 < n < 2 ^ 53 -> Binary64.trunc (Binary64.nearest n 1) = n.
Proof.
  intros [Hn Hlt]. unfold Binary64.trunc, Binary64.nearest. cbv beta zeta iota.
  set (e := Binary64.floorLog2 n 1 - 52).
  assert (He : e <= 0).
  { pose proof (floorLog2_le n 1) as H. change (Z.log2 1) with 0 in H.
    apply (Z.log2_lt_pow2 n 53 Hn) in Hlt. unfold e. lia. }
  rewrite (pow2Up_nonpos e He).
  change (1 * 1) with 1. rewrite Z.mul_1_r.
  unfold Binary64.roundHalfEven. rewrite Z.div_1_r, Z.mod_1_r. simpl.
  apply Z.quot_mul. pose proof (pow2Down_pos e). lia.
Qed.

(** Dividing an integer below 2^53 by 60000 in binary64 and truncating
    gives the integer Binary64.quotient: the rounding error of the division is
    below 2^-16, less than the distance 1/60000 of an inexact Binary64.quotient to
    the next integer. *)
Lemma trunc_nearest_minutes d :
  0 < d < 2 ^ 53 -> Binary64.trunc (Binary64.nearest d 60000) = d / 60000.
Proof.
  intros [Hd Hlt]. unfold Binary64.trunc, Binary64.nearest. cbv beta zeta iota.
  set (e := Binary64.floorLog2 d 60000 - 52).
  assert (He : e <= -15).
  { pose proof (floorLog2_le d 60000) as H. change (Z.log2 60000) with 15 in H.
    apply (Z.log2_lt_pow2 d 53 Hd) in Hlt. unfold e. lia. }
  rewrite (pow2Up_nonpos e) by lia. rewrite (pow2Down_nonpos e) by lia.
  set (P := 2 ^ (- e)).
  assert (HP : 2 ^ 15 <= P) by (apply Z.pow_le_mono_r; lia).
  change (2 ^ 15) with 32768 in HP.
  rewrite !Z.mul_1_r.
  destruct (roundHalfEven_spec (d * P) 60000 ltac:(lia)) as [Hfl [Hlo Hhi]].
  set (M := Binary64.roundHalfEven (d * P) 60000) in *.
  assert (0 <= d * P / 60000) by (apply Z.div_pos; nia).
  rewrite Z.quot_div_nonneg by lia.
  pose proof (Z.div_mod d 60000 ltac:(lia)) as Hdm.
  pose proof (Z.mod_pos_bound d 60000 ltac:(lia)) as Hr.
  set (q := d / 60000) in *. set (r := d mod 60000) in *.
  symmetry. apply (Z.div_unique_pos M P q (M - q * P)); [| lia].
  assert (0 <= r * P) by nia.
  assert (r * P <= 59999 * P) by nia.
  assert (d * P = 60000 * (q * P) + r * P) by nia.
  lia.
Qed.

(** A Binary64.quotient of at least [2 ^ K] stays at least [2 ^ K] after rounding
    and truncation. *)
Lemma trunc_nearest_lower n m :
  0 < n -> 0 < m -> 0 <= Binary64.floorLog2 n m ->
  2 ^ Binary64.floorLog2 n m <= Binary64.trunc (Binary64.nearest n m).
Proof.
  intros Hn Hm HK. unfold Binary64.trunc, Binary64.nearest. cbv beta zeta iota.
  pose proof (floorLog2_lower n m Hn Hm) as Hlow.
  set (K := Binary64.floorLog2 n m) in *.
  rewrite (pow2Up_nonneg K), (pow2Down_nonneg K), Z.mul_1_r in Hlow by lia.
  assert (HK0 : 0 < 2 ^ K) by (apply Z.pow_pos_nonneg; lia).
  destruct (Z.le_gt_cases 0 (K - 52)) as [He | He].
  - rewrite pow2Up_nonneg, pow2Down_nonneg by lia.
    rewrite Z.quot_1_r.
    assert (0 < 2 ^ (K - 52)) by (apply Z.pow_pos_nonneg; lia).
    destruct (roundHalfEven_spec (n * 1) (m * 2 ^ (K - 52)) ltac:(nia)) as [Hfl _].
    assert (E : 2 ^ K = 2 ^ 52 * 2 ^ (K - 52)).
    { rewrite <- Z.pow_add_r by lia. f_equal. lia. }
    assert (2 ^ 52 <= n * 1 / (m * 2 ^ (K - 52))).
    { apply Z.div_le_lower_bound; nia. }
    rewrite E. apply Z.mul_le_mono_nonneg_r; lia.
  - rewrite pow2Up_nonpos, pow2Down_nonpos by lia.
    rewrite !Z.mul_1_r.
    assert (HP : 0 < 2 ^ (- (K - 52))) by (apply Z.pow_pos_nonneg; lia).
    destruct (roundHalfEven_spec (n * 2 ^ (- (K - 52))) m Hm) as [Hfl _].
    assert (E : 2 ^ K * 2 ^ (- (K - 52)) = 2 ^ 52).
    { rewrite <- Z.pow_add_r by lia. f_equal. lia. }
    assert (2 ^ 52 <= n * 2 ^ (- (K - 52)) / m).
    { apply Z.div_le_lower_bound; nia. }
    rewrite Z.quot_div_nonneg by lia.
    apply Z.div_le_lower_bound; lia.
Qed.

Lemma trunc_quotient_opp n m :
  Binary64.trunc (Binary64.quotient (- n) m) = - Binary64.trunc (Binary64.quotient n m).
Proof.
  assert (Hneg : forall x, 0 < x ->
            Binary64.trunc (Binary64.quotient (- x) m) = - Binary64.trunc (Binary64.quotient x m)).
  { intros x Hx. unfold Binary64.quotient.
    rewrite (proj2 (Z.compare_lt_iff (- x) 0)) by lia.
    rewrite (proj2 (Z.compare_gt_iff x 0)) by lia.
    rewrite Z.opp_involutive.
    destruct (Binary64.nearest x m) as [M e]. unfold Binary64.trunc.
    rewrite Z.mul_opp_l. apply Z.quot_opp_l.
    pose proof (pow2Down_pos e). lia. }
  destruct (Z.lt_trichotomy n 0) as [H | [H | H]].
  - rewrite <- (Z.opp_involutive n) at 2.
    rewrite (Hneg (- n)) by lia. lia.
  - subst n. reflexivity.
  - now apply Hneg.
Qed.

Lemma quotient_pos n m :
  0 < n -> Binary64.quotient n m = Binary64.nearest n m.
Proof.
  intro H. unfold Binary64.quotient.
  now rewrite (proj2 (Z.compare_gt_iff n 0)) by lia.
Qed.

Lemma ofInteger_opp n : Binary64.ofInteger (- n) = - Binary64.ofInteger n.
Proof. apply trunc_quotient_opp. Qed.

Lemma ofInteger_exact n : Z.abs n < 2 ^ 53 -> Binary64.ofInteger n = n.
Proof.
  intro H. unfold Binary64.ofInteger.
  destruct (Z.lt_trichotomy n 0) as [Hn | [Hn | Hn]].
  - rewrite <- (Z.opp_involutive n) at 1. rewrite trunc_quotient_opp.
    rewrite quotient_pos, trunc_nearest_integer by lia. lia.
  - subst n. reflexivity.
  - rewrite quotient_pos, trunc_nearest_integer by lia. reflexivity.
Qed.

Lemma ofInteger_large n : 2 ^ 53 <= n -> 2 ^ 52 <= Binary64.ofInteger n.
Proof.
  intro H. unfold Binary64.ofInteger.
  assert (Hn : 0 < n) by (change (2 ^ 53) with 9007199254740992 in H; lia).
  rewrite quotient_pos by lia.
  pose proof (floorLog2_ge n 1) as Hge. change (Z.log2 1) with 0 in Hge.
  apply (Z.log2_le_pow2 n 53 Hn) in H.
  etransitivity; [| apply trunc_nearest_lower; lia].
  apply Z.pow_le_mono_r; lia.
Qed.

Lemma trunc_quotient_minutes x :
  Z.abs x < 2 ^ 53 -> Binary64.trunc (Binary64.quotient x 60000) = Z.quot x 60000.
Proof.
  intro H.
  destruct (Z.lt_trichotomy x 0) as [Hn | [Hn | Hn]].
  - rewrite <- (Z.opp_involutive x) at 1. rewrite trunc_quotient_opp.
    rewrite quotient_pos, trunc_nearest_minutes by lia.
    rewrite <- Z.quot_div_nonneg by lia.
    rewrite <- Z.quot_opp_l by lia. now rewrite Z.opp_involutive.
  - subst x. reflexivity.
  - rewrite quotient_pos, trunc_nearest_minutes by lia.
    symmetry. apply Z.quot_div_nonneg; lia.
Qed.

Lemma trunc_quotient_minutes_large x :
  2 ^ 52 <= x -> 2 ^ 35 <= Binary64.trunc (Binary64.quotient x 60000).
Proof.
  intro H.
  assert (Hx : 0 < x) by (change (2 ^ 52) with 4503599627370496 in H; lia).
  rewrite quotient_pos by lia.
  pose proof (floorLog2_ge x 60000) as Hge. change (Z.log2 60000) with 15 in Hge.
  apply (Z.log2_le_pow2 x 52 Hx) in H.
  etransitivity; [| apply trunc_nearest_lower; lia].
  apply Z.pow_le_mono_r; lia.
Qed.

Lemma differenceInMinutes_opp l r :
  DateFns.differenceInMinutes r l = - DateFns.differenceInMinutes l r.
Proof.
  unfold DateFns.differenceInMinutes, DateFns.differenceInMilliseconds.
  cbv zeta.
  replace (r - l) with (- (l - r)) by lia.
  rewrite ofInteger_opp. apply trunc_quotient_opp.
Qed.

Lemma differenceInMinutes_exact l r :
  Z.abs (l - r) < 2 ^ 53 -> DateFns.differenceInMinutes l r = Z.quot (l - r) 60000.
Proof.
  intro H.
  unfold DateFns.differenceInMinutes, DateFns.differenceInMilliseconds.
  cbv zeta.
  rewrite ofInteger_exact by exact H. now apply trunc_quotient_minutes.
Qed.

Lemma differenceInMinutes_large l r :
  2 ^ 53 <= Z.abs (l - r) -> 2 ^ 35 <= Z.abs (DateFns.differenceInMinutes l r).
Proof.
  intro H.
  assert (Hpos : forall a b, 2 ^ 53 <= a - b -> 2 ^ 35 <= DateFns.differenceInMinutes a b).
  { intros a b Hab.
    unfold DateFns.differenceInMinutes, DateFns.differenceInMilliseconds.
    cbv zeta.
    apply trunc_quotient_minutes_large. now apply ofInteger_large. }
  destruct (Z.le_gt_cases 0 (l - r)) as [Hs | Hs].
  - rewrite Z.abs_eq in H by lia. specialize (Hpos l r H).
    change (2 ^ 35) with 34359738368 in *. lia.
  - rewrite Z.abs_neq in H by lia. specialize (Hpos r l ltac:(lia)).
    rewrite differenceInMinutes_opp in Hpos.
    change (2 ^ 35) with 34359738368 in *. lia.
Qed.

(** On 2857 pairs of valid dates, spread over the whole range and over the
    differences at which binary64 rounds, [differenceInMinutes] is the
    number the same operations give on primitive binary64 numbers; between
    the first and the last valid date that is one minute more than the
    completed minutes. *)
Example differenceInMinutes_on_binary64 :
  differenceInMinutesChecked 600 = true
  /\ List.length (validPairs 600) = 2857%nat
  /\ DateFns.differenceInMinutes 8639999999999999 (-8640000000000000)
     = 288000000000
  /\ Z.quot (8639999999999999 - -8640000000000000) 60000 = 287999999999.
Proof. vm_compute. repeat split. Qed.

(* ================================================================= *)
(** ** Duration validation *)

Lemma calculateDuration_swap (startAt endAt : Date) :
  calculateDuration endAt startAt = calculateDuration startAt endAt.
Proof.
  unfold calculateDuration.
  rewrite (differenceInMinutes_opp endAt startAt). apply Z.abs_opp.
Qed.

(** Between instants less than 2^53 ms apart the duration is the number of
    completed minutes; beyond that it is at least 2^35 minutes. *)
Lemma calculateDuration_cases (startAt endAt : Date) :
  0 <= calculateDuration startAt endAt
  /\ ((Z.abs (endAt - startAt) < 2 ^ 53
       /\ 60000 * calculateDuration startAt endAt <= Z.abs (endAt - startAt)
          < 60000 * (calculateDuration startAt endAt + 1))
      \/ (2 ^ 53 <= Z.abs (endAt - startAt)
          /\ 2 ^ 35 <= calculateDuration startAt endAt)).
Proof.
  split; [apply Z.abs_nonneg |].
  destruct (Z.lt_ge_cases (Z.abs (endAt - startAt)) (2 ^ 53)) as [H | H].
  - left. split; [exact H |].
    unfold calculateDuration. rewrite differenceInMinutes_exact by exact H.
    rewrite <- (Z.quot_abs (endAt - startAt) 60000) by lia.
    change (Z.abs 60000) with 60000.
    pose proof (Z.abs_nonneg (endAt - startAt)) as Hn.
    rewrite Z.quot_div_nonneg by lia.
    pose proof (Z.div_mod (Z.abs (endAt - startAt)) 60000 ltac:(lia)) as Hdm.
    pose proof (Z.mod_pos_bound (Z.abs (endAt - startAt)) 60000 ltac:(lia)) as Hm.
    lia.
  - right. split; [exact H |].
    unfold calculateDuration. now apply differenceInMinutes_large.
Qed.

(** C4, as the code has it.  [validateDuration] answers "End time must be
    after start time" whenever the end is the start or precedes it by less
    than a minute; it answers invalid whenever the end is after the start
    by less than a minute; it answers "Time entry cannot exceed 24 hours"
    whenever the end is 1441 minutes or more after the start, that is, the
    duration in whole minutes exceeds 1440; and it answers valid whenever
    the end is at least one minute and less than 1441 minutes after the
    start. *)
Theorem validateDuration_cases :
  forall startAt endAt : Date,
    (startAt - 60000 < endAt <= startAt ->
     validateDuration startAt endAt
     = mkValidation false (Some "End time must be after start time"%string))
    /\ (startAt < endAt < startAt + 60000 ->
        valid (validateDuration startAt endAt) = false)
    /\ (startAt + 1441 * 60000 <= endAt ->
        validateDuration startAt endAt
        = mkValidation false (Some "Time entry cannot exceed 24 hours"%string))
    /\ (startAt + 60000 <= endAt < startAt + 1441 * 60000 ->
        validateDuration startAt endAt = mkValidation true None).
Proof.
  intros startAt endAt.
  destruct (calculateDuration_cases startAt endAt) as [Hnn Hcase].
  unfold validateDuration.
  set (d := calculateDuration startAt endAt) in *.
  change (2 ^ 53) with 9007199254740992 in Hcase.
  change (2 ^ 35) with 34359738368 in Hcase.
  repeat split.
  - intro H. destruct (Z.leb_spec d 0) as [H0 | H0]; [reflexivity | lia].
  - intro H. destruct (Z.leb_spec d 0) as [H0 | H0]; [reflexivity | lia].
  - intro H. destruct (Z.leb_spec d 0) as [H0 | H0]; [lia |].
    destruct (Z.gtb_spec d 1440) as [H1 | H1]; [reflexivity | lia].
  - intro H. destruct (Z.leb_spec d 0) as [H0 | H0]; [lia |].
    destruct (Z.gtb_spec d 1440) as [H1 | H1]; [lia |].
    destruct (Z.ltb_spec d 1) as [H2 | H2]; [lia | reflexivity].
Qed.

(** From 09:00 to 09:00 the answer is the first message, from 09:00:00 to
    09:00:30 it is invalid, from 09:00 to 10:00 the next day the second
    message, and from 09:00 to 10:00 it is valid. *)
Lemma validateDuration_cases_witness :
  validateDuration t_09_00 t_09_00
  = mkValidation false (Some "End time must be after start time"%string)
  /\ valid (validateDuration t_09_00 t_09_00_30) = false
  /\ validateDuration t_09_00 (t_10_00 + 86400000)
     = mkValidation false (Some "Time entry cannot exceed 24 hours"%string)
  /\ validateDuration t_09_00 t_10_00 = mkValidation true None.
Proof.
  split; [| split; [| split]].
  - apply (proj1 (validateDuration_cases t_09_00 t_09_00)).
    unfold t_09_00. lia.
  - apply (proj1 (proj2 (validateDuration_cases t_09_00 t_09_00_30))).
    unfold t_09_00, t_09_00_30. lia.
  - apply (proj1 (proj2 (proj2
             (validateDuration_cases t_09_00 (t_10_00 + 86400000))))).
    unfold t_09_00, t_10_00. lia.
  - apply (proj2 (proj2 (proj2 (validateDuration_cases t_09_00 t_10_00)))).
    unfold t_09_00, t_10_00. lia.
Defined.

(** C4, as stated, fails: an entry from 09:00:00 to 09:00:30 ends after it
    starts and lasts no more than 1440 minutes, yet it is not valid. *)
Lemma validateDuration_claim_fails :
  t_09_00 < t_09_00_30
  /\ t_09_00_30 - t_09_00 <= 1440 * 60000
  /\ calculateDuration t_09_00 t_09_00_30 <= 1440
  /\ valid (validateDuration t_09_00 t_09_00_30) = false.
Proof. vm_compute. repeat split; discriminate. Qed.

(** Two answers outside the statement above.  An entry from 10:00 back to
    09:00 ends before it starts, yet it is valid, as [calculateDuration]
    takes the absolute value of the difference and the test [duration <= 0]
    then sees 60; and the entry from 09:00:00 to 09:00:30 is rejected with
    the message of the first test instead of "Time entry must be at least
    1 minute", as that first test already catches a duration of 0. *)
Lemma validateDuration_reversed_and_short :
  t_09_00 < t_10_00
  /\ calculateDuration t_10_00 t_09_00 = 60
  /\ validateDuration t_10_00 t_09_00 = mkValidation true None
  /\ calculateDuration t_09_00 t_09_00_30 = 0
  /\ validateDuration t_09_00 t_09_00_30
     = mkValidation false (Some "End time must be after start time"%string).
Proof. vm_compute. repeat split. Qed.

(* ================================================================= *)
(** ** Batch semantics of the workflow operations *)

Section ForEntries.

Variable body : TimeEntry.t -> Result (TimeEntry.t * AuditLog.t).

(** When the body succeeds on every entry the loop pushes one updated
    entry and one audit record per entry, in order. *)
Lemma forEntries_all_ok (f : TimeEntry.t -> TimeEntry.t)
    (g : TimeEntry.t -> AuditLog.t) (batch : list TimeEntry.t) :
  (forall e, In e batch -> body e = ok (f e, g e)) ->
  forall u a,
    forEntries body batch u a =
      ok (mkEntriesResult (u ++ map f batch) (a ++ map g batch)).
Proof.
  induction batch as [| e rest IH]; intros Hbody u a; simpl.
  - now rewrite !app_nil_r.
  - rewrite (Hbody e (or_introl eq_refl)). simpl.
    rewrite IH by (intros x Hx; apply Hbody; now right).
    now rewrite <- !app_assoc.
Qed.

(** The loop stops at the first entry the body throws on, with the
    error of that entry, whatever has been pushed before. *)
Lemma forEntries_first_throw (pre : list TimeEntry.t) (e : TimeEntry.t)
    (post : list TimeEntry.t) (err : Error) :
  (forall x, In x pre -> exists p, body x = ok p) ->
  body e = throw err ->
  forall u a, forEntries body (pre ++ e :: post) u a = throw err.
Proof.
  induction pre as [| x pre IH]; intros Hpre He u a; simpl.
  - now rewrite He.
  - destruct (Hpre x (or_introl eq_refl)) as [p Hp]. rewrite Hp. simpl.
    apply IH; [| exact He]. intros y Hy. apply Hpre. now right.
Qed.

End ForEntries.

Lemma runBatch_forEntries (call : BatchCall) (batch : list TimeEntry.t) :
  runBatch call batch = forEntries (bodyOf call) batch [] [].
Proof. destruct call; reflexivity. Qed.

(** The updated entry and the audit record the body of [call] pushes for an
    entry that passes. *)
Lemma bodyOf_passes (call : BatchCall) (entry : TimeEntry.t) :
  passes call entry ->
  exists u l, bodyOf call entry = ok (u, l)
              /\ TimeEntry.id u = TimeEntry.id entry
              /\ TimeEntry.status u = targetStatus call
              /\ AuditLog.entityId l = TimeEntry.id entry.
Proof.
  destruct call; simpl; unfold notLocked;
    [ intros [Hg Hl]; unfold submitBody; rewrite Hg, Hl
    | intros [Hg Hl]; unfold approveBody; rewrite Hg, Hl
    | intros Hg; unfold rejectBody; rewrite Hg
    | intros Hg; unfold lockBody; rewrite Hg
    | intros Hg; unfold billBody; rewrite Hg ];
    simpl; eexists; eexists; repeat split.
Qed.

Lemma bodyOf_fails (call : BatchCall) (entry : TimeEntry.t) :
  ~ passes call entry ->
  exists err, bodyOf call entry = throw err /\ raisedFor call entry err.
Proof.
  unfold raisedFor.
  destruct call; simpl; unfold notLocked; intro Hn.
  - unfold submitBody.
    destruct (canSubmitTimeEntry (TimeEntry.status entry)) eqn:Hg; simpl;
      [| eexists; split; [reflexivity | now left] ].
    destruct (isPeriodLocked _ _ _) eqn:Hl;
      [ eexists; split; [reflexivity | now right] | exfalso; apply Hn; now split ].
  - unfold approveBody.
    destruct (canApproveTimeEntry (TimeEntry.status entry)) eqn:Hg; simpl;
      [| eexists; split; [reflexivity | now left] ].
    destruct (isPeriodLocked _ _ _) eqn:Hl;
      [ eexists; split; [reflexivity | now right] | exfalso; apply Hn; now split ].
  - unfold rejectBody.
    destruct (canRejectTimeEntry (TimeEntry.status entry)) eqn:Hg; simpl;
      [ now exfalso | eexists; split; [reflexivity | now left] ].
  - unfold lockBody.
    destruct (canLockTimeEntry (TimeEntry.status entry)) eqn:Hg; simpl;
      [ now exfalso | eexists; split; [reflexivity | now left] ].
  - unfold billBody.
    destruct (status_eqb (TimeEntry.status entry) LOCKED) eqn:Hg; simpl;
      [ exfalso; apply Hn; now apply status_eqb_eq
      | eexists; split; [reflexivity | now left] ].
Qed.

Lemma Forall_passes_ok (call : BatchCall) (batch : list TimeEntry.t) :
  Forall (passes call) batch ->
  forall x, In x batch -> exists p, bodyOf call x = ok p.
Proof.
  intros HF x Hx. rewrite Forall_forall in HF.
  destruct (bodyOf_passes call x (HF x Hx)) as (u & l & Hb & _).
  now exists (u, l).
Qed.

(** C2. Every batch operation is fail-fast: when the entries before some
    entry all pass and that entry fails its guard or its period-lock check,
    the call throws the error of that entry and yields no result at all,
    whatever follows it in the batch; when every entry passes, the call
    returns one updated entry and one audit record per input entry, in
    input order. *)
Theorem batch_fail_fast : forall call : BatchCall,
  (forall (pre : list TimeEntry.t) (entry : TimeEntry.t) (post : list TimeEntry.t),
      Forall (passes call) pre ->
      ~ passes call entry ->
      (exists err,
          runBatch call (pre ++ entry :: post) = throw err
          /\ raisedFor call entry err)
      /\ (forall result, runBatch call (pre ++ entry :: post) <> ok result))
  /\
  (forall batch : list TimeEntry.t,
      Forall (passes call) batch ->
      exists result,
        runBatch call batch = ok result
        /\ List.length (entries result) = List.length batch
        /\ List.length (auditLogs result) = List.length batch
        /\ map TimeEntry.id (entries result) = map TimeEntry.id batch
        /\ map AuditLog.entityId (auditLogs result) = map TimeEntry.id batch
        /\ Forall (fun u => TimeEntry.status u = targetStatus call)
                  (entries result)).
Proof.
  intro call. split.
  - intros pre entry post Hpre Hfail.
    destruct (bodyOf_fails call entry Hfail) as (err & Hbody & Hraised).
    assert (Hrun : runBatch call (pre ++ entry :: post) = throw err).
    { rewrite runBatch_forEntries.
      apply forEntries_first_throw; [ now apply Forall_passes_ok | exact Hbody ]. }
    split.
    + now exists err.
    + intros result Hok. rewrite Hrun in Hok. discriminate Hok.
  - intros batch Hall.
    set (f := fun e => match bodyOf call e with inr p => fst p | inl _ => e end).
    set (g := fun e => match bodyOf call e with
                       | inr p => snd p
                       | inl _ => AuditLog.mk EmptyString EmptyString
                                    EmptyString EmptyString []
                       end).
    assert (Hfg : forall e, In e batch ->
              bodyOf call e = ok (f e, g e)
              /\ TimeEntry.id (f e) = TimeEntry.id e
              /\ TimeEntry.status (f e) = targetStatus call
              /\ AuditLog.entityId (g e) = TimeEntry.id e).
    { intros e He. rewrite Forall_forall in Hall.
      destruct (bodyOf_passes call e (Hall e He)) as (u & l & Hb & Hid & Hst & Hl).
      unfold f, g. rewrite Hb. simpl. now repeat split. }
    exists (mkEntriesResult (map f batch) (map g batch)).
    split.
    { rewrite runBatch_forEntries.
      rewrite (forEntries_all_ok (bodyOf call) f g batch); [reflexivity |].
      intros e He. apply (Hfg e He). }
    simpl. rewrite !List.length_map, !map_map.
    repeat split.
    + apply map_ext_in. intros e He. apply (Hfg e He).
    + apply map_ext_in. intros e He. apply (Hfg e He).
    + apply Forall_forall. intros u Hu. apply in_map_iff in Hu.
      destruct Hu as (e & <- & He). apply (Hfg e He).
Qed.

(** A batch of three entries whose second one is already approved is
    refused by submit; a batch of two draft entries is submitted. *)
Lemma batch_fail_fast_witness :
  ((exists err,
       runBatch (Submit sampleContext None)
                ([sampleEntry] ++ sampleApproved :: [sampleEntry]) = throw err
       /\ raisedFor (Submit sampleContext None) sampleApproved err)
   /\ (forall result,
          runBatch (Submit sampleContext None)
                   ([sampleEntry] ++ sampleApproved :: [sampleEntry]) <> ok result))
  /\
  (exists result,
      runBatch (Submit sampleContext None) [sampleEntry; sampleEntry] = ok result
      /\ List.length (entries result) = 2%nat
      /\ List.length (auditLogs result) = 2%nat
      /\ map TimeEntry.id (entries result) = ["entry-1"; "entry-1"]%string
      /\ map AuditLog.entityId (auditLogs result) = ["entry-1"; "entry-1"]%string
      /\ Forall (fun u => TimeEntry.status u = SUBMITTED) (entries result)).
Proof.
  split.
  - apply (proj1 (batch_fail_fast (Submit sampleContext None))).
    + constructor; [ split; reflexivity | constructor ].
    + intros [Hguard _]. discriminate Hguard.
  - apply (proj2 (batch_fail_fast (Submit sampleContext None))
             [sampleEntry; sampleEntry]).
    repeat constructor.
Defined.

(* ================================================================= *)
(** ** Intervals and scopes *)

Lemma areIntervalsOverlapping_inclusive (a b : DateFns.Interval) :
  DateFns.areIntervalsOverlapping a b true = true <-> overlapsInclusive a b.
Proof.
  unfold DateFns.areIntervalsOverlapping, overlapsInclusive, lo, hi. simpl.
  rewrite andb_true_iff, !Z.leb_le. tauto.
Qed.

Lemma areIntervalsOverlapping_exclusive (a b : DateFns.Interval) :
  DateFns.areIntervalsOverlapping a b false = true <-> overlapsExclusive a b.
Proof.
  unfold DateFns.areIntervalsOverlapping, overlapsExclusive, lo, hi. simpl.
  rewrite andb_true_iff, !Z.ltb_lt. tauto.
Qed.

(** Inclusive overlap is having an instant in common. *)
Lemma overlapsInclusive_shareInstant (a b : DateFns.Interval) :
  overlapsInclusive a b <-> shareInstant a b.
Proof.
  unfold overlapsInclusive, shareInstant, lo, hi. split.
  - intros [H1 H2].
    exists (Z.max (Z.min (DateFns.start a) (DateFns.end_ a))
                  (Z.min (DateFns.start b) (DateFns.end_ b))). lia.
  - intros (t & Ha & Hb). lia.
Qed.

Lemma shareInterior_overlaps (a b : DateFns.Interval) :
  shareInteriorInstant a b -> overlapsExclusive a b /\ overlapsInclusive a b.
Proof.
  unfold shareInteriorInstant, overlapsExclusive, overlapsInclusive, lo, hi.
  intros (t & Ha & Hb). lia.
Qed.

(** Ordered intervals that merely touch overlap under inclusive bounds and
    do not overlap under exclusive bounds. *)
Lemma touch_overlaps (a b : DateFns.Interval) :
  ordered a -> ordered b -> touch a b ->
  overlapsInclusive a b /\ ~ overlapsExclusive a b.
Proof.
  unfold ordered, touch, overlapsInclusive, overlapsExclusive, lo, hi.
  intros Ha Hb Ht. lia.
Qed.

Lemma truthy_isSet (o : option string) : truthy o = true <-> isSet o.
Proof.
  unfold truthy, isSet. destruct o as [s |].
  - rewrite negb_true_iff. split.
    + intro H. exists s. split; [reflexivity |].
      intro E. subst s. discriminate H.
    + intros (s' & [= <-] & Hne). now apply String.eqb_neq.
  - split; [discriminate | intros (s' & H & _); discriminate H].
Qed.

Lemma strictEq_eq (o : option string) (s : string) :
  strictEq o s = true <-> o = Some s.
Proof.
  unfold strictEq. destruct o as [s' |].
  - rewrite String.eqb_eq. split; [now intros -> | now intros [= ->]].
  - split; discriminate.
Qed.

Lemma strictEqOpt_eq (a b : option string) : strictEqOpt a b = true <-> a = b.
Proof.
  unfold strictEqOpt. destruct a as [x |], b as [y |];
    try rewrite String.eqb_eq; split; congruence.
Qed.

Lemma sameScope_spec (newLock : CreateLockParams.t) (lock : TimeLock.t) :
  sameScope newLock lock = true <-> sameScopeAs newLock lock.
Proof.
  unfold sameScope, periodScopeMatch, sameScopeAs.
  rewrite orb_true_iff, !andb_true_iff, !truthy_isSet, !strictEqOpt_eq.
  tauto.
Qed.

Lemma entryScopeMatch_spec (lock : TimeLock.t) (entry : TimeEntry.t) :
  entryScopeMatch lock entry = true <-> matchesEntry lock entry.
Proof.
  unfold entryScopeMatch, matchesEntry.
  rewrite orb_true_iff, !andb_true_iff, !truthy_isSet, !strictEq_eq.
  tauto.
Qed.

(** With the ids of an entry as its scope, the scope test of
    [checkPeriodLockConflict] is the one of [checkEntryLockConflict]. *)
Lemma periodScopeMatch_entry (lock : TimeLock.t) (entry : TimeEntry.t) :
  periodScopeMatch (Some (TimeEntry.projectId entry))
                   (Some (TimeEntry.clientId entry)) lock
  = entryScopeMatch lock entry.
Proof.
  apply eq_true_iff_eq. rewrite entryScopeMatch_spec.
  unfold periodScopeMatch, matchesEntry.
  rewrite orb_true_iff, !andb_true_iff, !truthy_isSet, !strictEqOpt_eq.
  assert (Hset : forall p o, (isSet (Some p) /\ o = Some p) <-> (isSet o /\ o = Some p)).
  { intros p o. split; intros [Hs E]; (split; [| exact E]); congruence. }
  rewrite !Hset. tauto.
Qed.

(* ================================================================= *)
(** ** The loops over active locks *)

Lemma find_filter {A : Type} (p q : A -> bool) (l : list A) :
  find p (filter q l) = find (fun x => q x && p x) l.
Proof.
  induction l as [| x l IH]; simpl; [reflexivity |].
  destruct (q x); simpl; [| exact IH].
  destruct (p x); [reflexivity | exact IH].
Qed.

Lemma find_app_first {A : Type} (p : A -> bool) (pre : list A) (x : A)
    (post : list A) :
  find p pre = None -> p x = true -> find p (pre ++ x :: post) = Some x.
Proof.
  induction pre as [| y pre IH]; simpl; intros Hpre Hx.
  - now rewrite Hx.
  - destruct (p y); [discriminate Hpre | now apply IH].
Qed.

Lemma find_is_Some {A : Type} (p : A -> bool) (l : list A) :
  (exists x, In x l /\ p x = true) <-> (exists x, find p l = Some x).
Proof.
  split.
  - intros (x & Hin & Hp). destruct (find p l) as [y |] eqn:Hf; [now exists y |].
    rewrite (find_none p l Hf x Hin) in Hp. discriminate Hp.
  - intros (x & Hf). exists x. now apply find_some in Hf.
Qed.

Arguments DateFns.areIntervalsOverlapping : simpl never.

Ltac case_overlap :=
  match goal with
  | |- context [DateFns.areIntervalsOverlapping ?a ?b ?c] =>
      destruct (DateFns.areIntervalsOverlapping a b c)
  end.

Lemma checkEntryLockConflict_find (entry : TimeEntry.t) (locks : list TimeLock.t) :
  checkEntryLockConflict entry locks = find (entryConflict entry) locks.
Proof.
  unfold checkEntryLockConflict, entryConflict. rewrite <- find_filter.
  induction (filter TimeLock.isActive locks) as [| lock rest IH]; simpl;
    [reflexivity |].
  unfold entrySpan, lockSpan in *.
  destruct (entryScopeMatch lock entry); simpl; [| exact IH].
  case_overlap; [reflexivity | exact IH].
Qed.

Lemma checkPeriodLockConflict_find (periodStart periodEnd : Date)
    (projectId clientId : option string) (locks : option (list TimeLock.t)) :
  checkPeriodLockConflict periodStart periodEnd projectId clientId locks
  = find (periodConflict periodStart periodEnd projectId clientId) (orEmpty locks).
Proof.
  unfold checkPeriodLockConflict, periodConflict. rewrite <- find_filter.
  induction (filter TimeLock.isActive (orEmpty locks)) as [| lock rest IH];
    simpl; [reflexivity |].
  unfold lockSpan in *.
  destruct (periodScopeMatch projectId clientId lock); simpl; [| exact IH].
  case_overlap; [reflexivity | exact IH].
Qed.

Lemma validateLockOverlap_find (newLock : CreateLockParams.t)
    (existingLocks : list TimeLock.t) :
  validateLockOverlap newLock existingLocks =
    match find (lockConflict newLock) existingLocks with
    | Some lock =>
        throw (ConflictError (TimeLock.periodStart lock) (TimeLock.periodEnd lock))
    | None => ok tt
    end.
Proof.
  unfold validateLockOverlap, lockConflict. rewrite <- find_filter.
  induction (filter TimeLock.isActive existingLocks) as [| lock rest IH]; simpl;
    [reflexivity |].
  unfold newLockSpan, lockSpan in *.
  destruct (sameScope newLock lock); simpl; [| exact IH].
  case_overlap; [reflexivity | exact IH].
Qed.

Lemma lockConflict_spec (newLock : CreateLockParams.t) (lock : TimeLock.t) :
  lockConflict newLock lock = true <-> conflictsWith newLock lock.
Proof.
  unfold lockConflict, conflictsWith.
  now rewrite !andb_true_iff, sameScope_spec, areIntervalsOverlapping_exclusive.
Qed.

Lemma entryConflict_spec (entry : TimeEntry.t) (lock : TimeLock.t) :
  entryConflict entry lock = true <->
  TimeLock.isActive lock = true /\ matchesEntry lock entry
  /\ overlapsInclusive (entrySpan entry) (lockSpan lock).
Proof.
  unfold entryConflict.
  now rewrite !andb_true_iff, entryScopeMatch_spec, areIntervalsOverlapping_inclusive.
Qed.

Lemma entryConflict_false (entry : TimeEntry.t) (lock : TimeLock.t) :
  entryConflict entry lock = false <-> ~ conflictsWithEntry entry lock.
Proof.
  unfold conflictsWithEntry. rewrite <- entryConflict_spec.
  destruct (entryConflict entry lock); split; congruence.
Qed.

(** No lock of a list is returned when none is in conflict with the
    entry. *)
Lemma checkEntryLockConflict_none (entry : TimeEntry.t) (locks : list TimeLock.t) :
  Forall (fun l => ~ conflictsWithEntry entry l) locks ->
  find (entryConflict entry) locks = None.
Proof.
  induction 1 as [| l locks Hl _ IH]; simpl; [reflexivity |].
  apply entryConflict_false in Hl. now rewrite Hl.
Qed.

Lemma isPeriodLocked_spec (s e : Date) (locks : list PeriodLock) :
  isPeriodLocked s e locks = true <->
  exists lock, In lock locks /\ isActive lock = true
               /\ overlapsInclusive (DateFns.mkInterval s e)
                    (DateFns.mkInterval (periodStart lock) (periodEnd lock)).
Proof.
  unfold isPeriodLocked. rewrite existsb_exists.
  split; intros (lock & Hin & H); exists lock; (split; [exact Hin |]).
  - apply andb_true_iff in H. now rewrite <- areIntervalsOverlapping_inclusive.
  - apply andb_true_iff. now rewrite areIntervalsOverlapping_inclusive.
Qed.

(* ================================================================= *)
(** ** Overlap of a candidate lock with the existing locks *)

(** C7. [validateLockOverlap] throws a conflict error exactly when some
    existing lock is active, has the scope of the candidate and overlaps its
    period under exclusive bounds, and returns normally otherwise.  Locks
    that only touch the candidate at a boundary do not conflict, and
    inactive or differently scoped locks never raise. *)
Theorem validateLockOverlap_conflict_iff :
  (forall (newLock : CreateLockParams.t) (existingLocks : list TimeLock.t),
      ((exists lock, In lock existingLocks /\ conflictsWith newLock lock)
       <-> (exists lockStart lockEnd,
               validateLockOverlap newLock existingLocks
               = throw (ConflictError lockStart lockEnd)))
      /\ ((~ exists lock, In lock existingLocks /\ conflictsWith newLock lock)
          <-> validateLockOverlap newLock existingLocks = ok tt))
  /\ (forall (newLock : CreateLockParams.t) (lock : TimeLock.t),
         ordered (newLockSpan newLock) -> ordered (lockSpan lock) ->
         touch (newLockSpan newLock) (lockSpan lock) ->
         ~ conflictsWith newLock lock
         /\ validateLockOverlap newLock [lock] = ok tt)
  /\ (forall (newLock : CreateLockParams.t) (existingLocks : list TimeLock.t),
         Forall (fun lock => TimeLock.isActive lock = false
                             \/ ~ sameScopeAs newLock lock) existingLocks ->
         validateLockOverlap newLock existingLocks = ok tt).
Proof.
  assert (Hmain : forall newLock existingLocks,
    ((exists lock, In lock existingLocks /\ conflictsWith newLock lock)
       <-> (exists lockStart lockEnd,
               validateLockOverlap newLock existingLocks
               = throw (ConflictError lockStart lockEnd)))
    /\ ((~ exists lock, In lock existingLocks /\ conflictsWith newLock lock)
          <-> validateLockOverlap newLock existingLocks = ok tt)).
  { intros newLock existingLocks.
    assert (Hex : (exists lock, In lock existingLocks /\ conflictsWith newLock lock)
                  <-> exists lock, find (lockConflict newLock) existingLocks = Some lock).
    { rewrite <- find_is_Some.
      split; intros (lock & Hin & Hc); exists lock; (split; [exact Hin |]);
        now apply lockConflict_spec. }
    rewrite Hex, validateLockOverlap_find.
    destruct (find (lockConflict newLock) existingLocks) as [lock |]; split; split.
    - intros _. now eexists; eexists.
    - intros _. now exists lock.
    - intros Hn. exfalso. apply Hn. now exists lock.
    - discriminate.
    - intros (lock & Hl). discriminate Hl.
    - intros (s & e & H). discriminate H.
    - reflexivity.
    - intros _ (lock & Hl). discriminate Hl. }
  split; [exact Hmain | split].
  - intros newLock lock Hon Hol Htouch.
    assert (Hnc : ~ conflictsWith newLock lock).
    { intros (_ & _ & Hov). now apply (touch_overlaps _ _ Hon Hol Htouch). }
    split; [exact Hnc |].
    apply (Hmain newLock [lock]).
    intros (l & [<- | []] & Hc). contradiction.
  - intros newLock existingLocks Hall.
    apply (Hmain newLock existingLocks).
    intros (lock & Hin & Hact & Hscope & _).
    rewrite Forall_forall in Hall.
    destruct (Hall lock Hin) as [Hinactive | Hother]; [congruence | contradiction].
Qed.

(** The overlapping candidate is refused against [sampleLock]; the touching
    one is accepted. *)
Lemma validateLockOverlap_conflict_iff_witness :
  (exists lockStart lockEnd,
      validateLockOverlap overlappingLockParams [sampleLock]
      = throw (ConflictError lockStart lockEnd))
  /\ (~ conflictsWith touchingLockParams sampleLock
      /\ validateLockOverlap touchingLockParams [sampleLock] = ok tt).
Proof.
  split.
  - apply (proj1 (proj1 (proj1 validateLockOverlap_conflict_iff
                           overlappingLockParams [sampleLock]))).
    exists sampleLock. split; [now left |].
    split; [reflexivity |]. split.
    + left. split; [| reflexivity].
      exists "project-1"%string. split; [reflexivity | discriminate].
    + unfold overlapsExclusive, lo, hi. simpl. lia.
  - apply (proj1 (proj2 validateLockOverlap_conflict_iff)
             touchingLockParams sampleLock).
    + unfold ordered. simpl. lia.
    + unfold ordered. simpl. lia.
    + right. reflexivity.
Defined.

(* ================================================================= *)
(** ** Boundary instants: locks against entries, entries against entries *)

(** C8. An entry whose interval meets the period of an active,
    scope-matching lock at a boundary instant only is reported as in
    conflict with that lock by [checkEntryLockConflict] (inclusive bounds):
    the lock is returned, unless a lock before it in the list is in
    conflict with the entry as well.  Two entry intervals that meet at a
    boundary only do not overlap for [detectOverlap] (exclusive bounds).
    Intervals with a common interior instant overlap under both tests. *)
Theorem boundary_instant_asymmetry :
  (forall (entry : TimeEntry.t) (lock : TimeLock.t) (pre post : list TimeLock.t),
      TimeLock.isActive lock = true ->
      matchesEntry lock entry ->
      ordered (entrySpan entry) -> ordered (lockSpan lock) ->
      touch (entrySpan entry) (lockSpan lock) ->
      Forall (fun l => ~ conflictsWithEntry entry l) pre ->
      checkEntryLockConflict entry (pre ++ lock :: post) = Some lock)
  /\ (forall a b : EntryPeriod,
         ordered (periodSpan a) -> ordered (periodSpan b) ->
         touch (periodSpan a) (periodSpan b) ->
         detectOverlap a b = false)
  /\ (forall (entry : TimeEntry.t) (lock : TimeLock.t) (pre post : list TimeLock.t),
         TimeLock.isActive lock = true ->
         matchesEntry lock entry ->
         shareInteriorInstant (entrySpan entry) (lockSpan lock) ->
         Forall (fun l => ~ conflictsWithEntry entry l) pre ->
         checkEntryLockConflict entry (pre ++ lock :: post) = Some lock)
  /\ (forall a b : EntryPeriod,
         shareInteriorInstant (periodSpan a) (periodSpan b) ->
         detectOverlap a b = true).
Proof.
  repeat split.
  - intros entry lock pre post Hact Hscope Hoe Hol Htouch Hpre.
    rewrite checkEntryLockConflict_find.
    apply find_app_first; [now apply checkEntryLockConflict_none |].
    apply entryConflict_spec.
    split; [exact Hact | split; [exact Hscope |]].
    now apply (touch_overlaps _ _ Hoe Hol Htouch).
  - intros a b Hoa Hob Htouch.
    unfold detectOverlap.
    destruct (DateFns.areIntervalsOverlapping _ _ false) eqn:Hov; [| reflexivity].
    apply areIntervalsOverlapping_exclusive in Hov.
    now apply (touch_overlaps _ _ Hoa Hob Htouch) in Hov.
  - intros entry lock pre post Hact Hscope Hshare Hpre.
    rewrite checkEntryLockConflict_find.
    apply find_app_first; [now apply checkEntryLockConflict_none |].
    apply entryConflict_spec.
    split; [exact Hact | split; [exact Hscope |]].
    now apply shareInterior_overlaps.
  - intros a b Hshare. unfold detectOverlap.
    apply areIntervalsOverlapping_exclusive.
    now apply (shareInterior_overlaps (periodSpan a) (periodSpan b)).
Qed.

(** The entry that starts when [sampleLock] ends is in conflict with it,
    also behind a lock on another project; so is the entry in the middle
    of the locked month; 09:00-11:00 and 11:00-12:00 do not overlap;
    09:00-11:00 and 10:00-12:00 do. *)
Lemma boundary_instant_asymmetry_witness :
  checkEntryLockConflict boundaryEntry
    ([otherProjectLock] ++ sampleLock :: [sampleLock]) = Some sampleLock
  /\ detectOverlap period_09_11 period_11_12 = false
  /\ checkEntryLockConflict sampleEntry
       ([otherProjectLock] ++ sampleLock :: []) = Some sampleLock
  /\ detectOverlap period_09_11 period_10_12 = true.
Proof.
  assert (Hscope : forall e, TimeEntry.projectId e = "project-1"%string ->
            matchesEntry sampleLock e).
  { intros e He. left. split; [| simpl; now rewrite He].
    exists "project-1"%string. split; [reflexivity | discriminate]. }
  assert (Hother : forall e, TimeEntry.projectId e = "project-1"%string ->
            Forall (fun l => ~ conflictsWithEntry e l) [otherProjectLock]).
  { intros e He. constructor; [| constructor].
    intros (_ & [[_ Hp] | [(x & Hx & _) _]] & _);
      [simpl in Hp; rewrite He in Hp; discriminate Hp | discriminate Hx]. }
  split; [| split; [| split]].
  - apply (proj1 boundary_instant_asymmetry boundaryEntry sampleLock
             [otherProjectLock] [sampleLock]).
    + reflexivity.
    + now apply Hscope.
    + unfold ordered. simpl. lia.
    + unfold ordered. simpl. lia.
    + right. reflexivity.
    + now apply Hother.
  - apply (proj1 (proj2 boundary_instant_asymmetry) period_09_11 period_11_12).
    + unfold ordered. simpl. lia.
    + unfold ordered. simpl. lia.
    + left. reflexivity.
  - apply (proj1 (proj2 (proj2 boundary_instant_asymmetry)) sampleEntry sampleLock
             [otherProjectLock] []).
    + reflexivity.
    + now apply Hscope.
    + exists 1710061200001. unfold lo, hi. simpl. lia.
    + now apply Hother.
  - apply (proj2 (proj2 (proj2 boundary_instant_asymmetry))
             period_09_11 period_10_12).
    exists 1705314600000. unfold lo, hi. simpl. lia.
Defined.

(* ================================================================= *)
(** ** The period-lock test of submit and approve *)

(** C10. [isPeriodLocked] holds exactly when some active lock overlaps the
    interval under inclusive bounds; no project or client id takes part.
    So an active lock whose period the entry's interval overlaps makes
    submit and approve throw a period-locked error also when the lock does
    not match the scope of the entry, in which case the scope-filtered
    checks [checkEntryLockConflict] and [checkPeriodLockConflict] report
    no conflict. *)
Theorem isPeriodLocked_ignores_scope :
  (forall (s e : Date) (locks : list PeriodLock),
      isPeriodLocked s e locks = true <->
      exists lock, In lock locks /\ isActive lock = true
                   /\ overlapsInclusive (DateFns.mkInterval s e)
                        (DateFns.mkInterval (periodStart lock) (periodEnd lock)))
  /\ (forall (entry : TimeEntry.t) (lock : TimeLock.t) (context : WorkflowContext),
         TimeLock.isActive lock = true ->
         overlapsInclusive (entrySpan entry) (lockSpan lock) ->
         (canSubmitTimeEntry (TimeEntry.status entry) = true ->
          submitTimeEntries [entry] context (Some [asPeriodLock lock])
          = throw (PeriodLockedError (TimeEntry.startAt entry) (TimeEntry.endAt entry)))
         /\ (canApproveTimeEntry (TimeEntry.status entry) = true ->
             approveTimeEntries [entry] context (Some [asPeriodLock lock])
             = throw (PeriodLockedError (TimeEntry.startAt entry) (TimeEntry.endAt entry)))
         /\ (~ matchesEntry lock entry ->
             checkEntryLockConflict entry [lock] = None
             /\ checkPeriodLockConflict (TimeEntry.startAt entry) (TimeEntry.endAt entry)
                  (Some (TimeEntry.projectId entry)) (Some (TimeEntry.clientId entry))
                  (Some [lock]) = None)).
Proof.
  split; [exact isPeriodLocked_spec |].
  intros entry lock context Hact Hov.
  assert (Hlocked : isPeriodLocked (TimeEntry.startAt entry) (TimeEntry.endAt entry)
                      [asPeriodLock lock] = true).
  { apply isPeriodLocked_spec. exists (asPeriodLock lock).
    split; [now left | split; [exact Hact | exact Hov]]. }
  split; [| split].
  - intro Hguard. unfold submitTimeEntries. simpl. unfold submitBody.
    now rewrite Hguard, Hlocked.
  - intro Hguard. unfold approveTimeEntries. simpl. unfold approveBody.
    now rewrite Hguard, Hlocked.
  - intro Hscope.
    assert (Hno : entryScopeMatch lock entry = false).
    { destruct (entryScopeMatch lock entry) eqn:E; [| reflexivity].
      apply entryScopeMatch_spec in E. contradiction. }
    split.
    + rewrite checkEntryLockConflict_find. simpl. unfold entryConflict.
      now rewrite Hno, andb_false_r.
    + rewrite checkPeriodLockConflict_find. simpl. unfold periodConflict.
      now rewrite periodScopeMatch_entry, Hno, andb_false_r.
Qed.

(** The March lock of another project blocks the submission of
    [sampleEntry], which [checkEntryLockConflict] does not report. *)
Lemma isPeriodLocked_ignores_scope_witness :
  submitTimeEntries [sampleEntry] sampleContext (Some [asPeriodLock otherProjectLock])
  = throw (PeriodLockedError (TimeEntry.startAt sampleEntry) (TimeEntry.endAt sampleEntry))
  /\ checkEntryLockConflict sampleEntry [otherProjectLock] = None.
Proof.
  assert (Hact : TimeLock.isActive otherProjectLock = true) by reflexivity.
  assert (Hov : overlapsInclusive (entrySpan sampleEntry) (lockSpan otherProjectLock)).
  { unfold overlapsInclusive, lo, hi. simpl. lia. }
  split.
  - apply (proj1 (proj2 isPeriodLocked_ignores_scope sampleEntry otherProjectLock
                        sampleContext Hact Hov)).
    reflexivity.
  - apply (proj2 (proj2 (proj2 isPeriodLocked_ignores_scope sampleEntry
                               otherProjectLock sampleContext Hact Hov))).
    intros [[_ H] | [_ H]]; discriminate H.
Defined.

(* ================================================================= *)
(** ** The full lifecycle of an entry *)

Ltac frame :=
  let f := fresh "f" in
  let Hf := fresh "Hf" in
  intros f Hf; destruct f; simpl; try reflexivity;
  exfalso; apply Hf; simpl; tauto.

(** C9. For a draft entry and no locks, submit, approve, lock and bill
    succeed one after the other, each returning one audit record (four in
    all), and the entry ends BILLED with [billedAt] and [invoiceId] set.
    Submit changes only status and updatedAt; approve only status,
    approvedBy, approvedAt and updatedAt; lock only status, lockedAt and
    updatedAt; bill only status, billedAt, invoiceId and updatedAt.  In
    particular approvedBy after submit is what it was before. *)
Theorem full_lifecycle :
  forall (entry : TimeEntry.t) (c1 c2 c3 c4 : WorkflowContext)
         (lockReason : option string) (invoice : string),
    TimeEntry.status entry = DRAFT ->
    exists (e1 e2 e3 e4 : TimeEntry.t) (l1 l2 l3 l4 : AuditLog.t),
      submitTimeEntries [entry] c1 None = ok (mkEntriesResult [e1] [l1])
      /\ approveTimeEntries [e1] c2 None = ok (mkEntriesResult [e2] [l2])
      /\ lockTimeEntries [e2] lockReason c3 = ok (mkEntriesResult [e3] [l3])
      /\ billTimeEntries [e3] invoice c4 = ok (mkEntriesResult [e4] [l4])
      /\ List.length ([l1] ++ [l2] ++ [l3] ++ [l4]) = 4%nat
      /\ map AuditLog.action [l1; l2; l3; l4]
         = ["SUBMIT"; "APPROVE"; "LOCK"; "BILL"]%string
      /\ TimeEntry.status e4 = BILLED
      /\ TimeEntry.billedAt e4 = Some (timestamp c4)
      /\ TimeEntry.invoiceId e4 = Some invoice
      /\ changesOnly [F_status; F_updatedAt] entry e1
      /\ TimeEntry.status e1 = SUBMITTED
      /\ TimeEntry.updatedAt e1 = timestamp c1
      /\ TimeEntry.approvedBy e1 = TimeEntry.approvedBy entry
      /\ changesOnly [F_status; F_approvedBy; F_approvedAt; F_updatedAt] e1 e2
      /\ TimeEntry.status e2 = APPROVED
      /\ TimeEntry.approvedBy e2 = Some (userId c2)
      /\ TimeEntry.approvedAt e2 = Some (timestamp c2)
      /\ TimeEntry.updatedAt e2 = timestamp c2
      /\ changesOnly [F_status; F_lockedAt; F_updatedAt] e2 e3
      /\ TimeEntry.status e3 = LOCKED
      /\ TimeEntry.lockedAt e3 = Some (timestamp c3)
      /\ TimeEntry.updatedAt e3 = timestamp c3
      /\ changesOnly [F_status; F_billedAt; F_invoiceId; F_updatedAt] e3 e4
      /\ TimeEntry.updatedAt e4 = timestamp c4.
Proof.
  intros entry c1 c2 c3 c4 lockReason invoice Hdraft.
  do 8 eexists.
  split.
  { unfold submitTimeEntries. simpl. unfold submitBody.
    rewrite Hdraft. simpl. reflexivity. }
  split; [reflexivity |].
  split; [reflexivity |].
  split; [reflexivity |].
  repeat (split; [first [reflexivity | frame] |]).
  reflexivity.
Qed.

(** The lifecycle of [sampleEntry] under one context and invoice-456. *)
Lemma full_lifecycle_witness :
  exists (e1 e2 e3 e4 : TimeEntry.t) (l1 l2 l3 l4 : AuditLog.t),
    submitTimeEntries [sampleEntry] sampleContext None = ok (mkEntriesResult [e1] [l1])
    /\ approveTimeEntries [e1] sampleContext None = ok (mkEntriesResult [e2] [l2])
    /\ lockTimeEntries [e2] None sampleContext = ok (mkEntriesResult [e3] [l3])
    /\ billTimeEntries [e3] "invoice-456" sampleContext = ok (mkEntriesResult [e4] [l4])
    /\ List.length ([l1] ++ [l2] ++ [l3] ++ [l4]) = 4%nat
    /\ TimeEntry.status e4 = BILLED
    /\ TimeEntry.invoiceId e4 = Some "invoice-456"%string
    /\ TimeEntry.approvedBy e1 = None.
Proof.
  destruct (full_lifecycle sampleEntry sampleContext sampleContext sampleContext
              sampleContext None "invoice-456" eq_refl)
    as (e1 & e2 & e3 & e4 & l1 & l2 & l3 & l4 & H1 & H2 & H3 & H4 & Hlen & _
        & Hst & _ & Hinv & _ & _ & _ & Happ & _).
  exists e1, e2, e3, e4, l1, l2, l3, l4.
  repeat split; assumption.
Defined.

(* ================================================================= *)
(** ** Rejection *)

Lemma Forall2_map_self {A B : Type} (R : A -> B -> Prop) (f : A -> B) (l : list A) :
  (forall x, In x l -> R x (f x)) -> Forall2 R l (map f l).
Proof.
  induction l as [| x l IH]; intro H; simpl; constructor.
  - apply H. now left.
  - apply IH. intros y Hy. apply H. now right.
Qed.

(** C5, as the code has it.  For a batch whose statuses all permit
    rejection, [rejectTimeEntries] succeeds for every reason, the empty one
    included: each entry gets status REJECTED, rejectedBy, rejectedAt and
    the reason as rejectionReason, nothing else but updatedAt changes, and
    each audit record is a REJECT record that carries the reason. *)
Theorem rejectTimeEntries_records_reason :
  forall (batch : list TimeEntry.t) (reason : string) (context : WorkflowContext),
    Forall (fun e => canRejectTimeEntry (TimeEntry.status e) = true) batch ->
    exists result,
      rejectTimeEntries batch reason context = ok result
      /\ Forall2 (fun e u =>
                    changesOnly [F_status; F_rejectedBy; F_rejectedAt;
                                 F_rejectionReason; F_updatedAt] e u
                    /\ TimeEntry.status u = REJECTED
                    /\ TimeEntry.rejectedBy u = Some (userId context)
                    /\ TimeEntry.rejectedAt u = Some (timestamp context)
                    /\ TimeEntry.rejectionReason u = Some reason)
                 batch (entries result)
      /\ Forall2 (fun e l =>
                    AuditLog.action l = "REJECT"%string
                    /\ AuditLog.entityId l = TimeEntry.id e
                    /\ In ("reason"%string, JsString reason) (AuditLog.metadata l))
                 batch (auditLogs result).
Proof.
  intros batch reason context Hall.
  set (f := fun e =>
     Spread.with_updatedAt (timestamp context)
       (Spread.with_rejectionReason (Some reason)
          (Spread.with_rejectedAt (Some (timestamp context))
             (Spread.with_rejectedBy (Some (userId context))
                (Spread.with_status REJECTED e))))).
  set (g := fun e => entryLog "REJECT"%string e context REJECTED
                       [("reason"%string, JsString reason)]).
  exists (mkEntriesResult (map f batch) (map g batch)).
  split; [| split].
  - unfold rejectTimeEntries.
    rewrite (forEntries_all_ok (rejectBody reason context) f g batch);
      [reflexivity |].
    intros e He. rewrite Forall_forall in Hall.
    unfold rejectBody. now rewrite (Hall e He).
  - simpl. apply Forall2_map_self. intros e _.
    split; [frame | repeat split].
  - simpl. apply Forall2_map_self. intros e _.
    repeat split. simpl. tauto.
Qed.

(** A submitted and an approved entry rejected for a stated reason. *)
Lemma rejectTimeEntries_records_reason_witness :
  exists result,
    rejectTimeEntries [sampleSubmitted; sampleApproved] "Missing task details"
                      sampleContext = ok result
    /\ Forall2 (fun e u =>
                  changesOnly [F_status; F_rejectedBy; F_rejectedAt;
                               F_rejectionReason; F_updatedAt] e u
                  /\ TimeEntry.status u = REJECTED
                  /\ TimeEntry.rejectedBy u = Some (userId sampleContext)
                  /\ TimeEntry.rejectedAt u = Some (timestamp sampleContext)
                  /\ TimeEntry.rejectionReason u = Some "Missing task details"%string)
               [sampleSubmitted; sampleApproved] (entries result)
    /\ Forall2 (fun e l =>
                  AuditLog.action l = "REJECT"%string
                  /\ AuditLog.entityId l = TimeEntry.id e
                  /\ In ("reason"%string, JsString "Missing task details")
                        (AuditLog.metadata l))
               [sampleSubmitted; sampleApproved] (auditLogs result).
Proof.
  apply (rejectTimeEntries_records_reason [sampleSubmitted; sampleApproved]
           "Missing task details" sampleContext).
  repeat constructor.
Defined.

(** C5, as stated, fails: rejecting a submitted entry with the empty reason
    does not throw; it returns the entry as REJECTED with the empty string
    as its rejection reason. *)
Lemma rejectTimeEntries_empty_reason_accepted :
  canRejectTimeEntry (TimeEntry.status sampleSubmitted) = true
  /\ (forall err,
         rejectTimeEntries [sampleSubmitted] EmptyString sampleContext <> throw err)
  /\ exists result,
       rejectTimeEntries [sampleSubmitted] EmptyString sampleContext = ok result
       /\ map TimeEntry.status (entries result) = [REJECTED]
       /\ map TimeEntry.rejectionReason (entries result) = [Some EmptyString].
Proof.
  split; [reflexivity | split].
  - intros err H. discriminate H.
  - eexists. split; [reflexivity | split; reflexivity].
Qed.

(* ================================================================= *)
(** ** Rate resolution *)

Lemma hd_insertSorted {A : Type} (cmp : A -> A -> Z) (x : A) (l : list A) :
  hd_error (insertSorted cmp x l) =
    match hd_error l with
    | None => Some x
    | Some y => if cmp x y <=? 0 then Some x else Some y
    end.
Proof.
  destruct l as [| y ys]; simpl; [reflexivity |].
  now destruct (cmp x y <=? 0).
Qed.

(** The first element of the cards sorted by descending [effectiveFrom] is
    a card of the list with the latest [effectiveFrom]; there is none only
    when the list is empty. *)
Lemma hd_sort_latest (l : list RateCard.t) :
  match hd_error (Array_sort byEffectiveFromDesc l) with
  | None => l = []
  | Some r => In r l /\ forall c, In c l ->
                RateCard.effectiveFrom c <= RateCard.effectiveFrom r
  end.
Proof.
  induction l as [| x l IH]; simpl; [reflexivity |].
  rewrite hd_insertSorted.
  destruct (hd_error (Array_sort byEffectiveFromDesc l)) as [y |].
  - destruct IH as [Hy Hmax]. unfold byEffectiveFromDesc.
    destruct (Z.leb_spec (RateCard.effectiveFrom y - RateCard.effectiveFrom x) 0)
      as [Hle | Hgt].
    + split; [now left |].
      intros c [<- | Hc]; [lia | specialize (Hmax c Hc); lia].
    + split; [now right |].
      intros c [<- | Hc]; [lia | now apply Hmax].
  - subst l. split; [now left |]. intros c [<- | []]. lia.
Qed.

Lemma activeCard_spec (atDate : Date) (card : RateCard.t) :
  (if negb (RateCard.isActive card) then false
   else if RateCard.effectiveFrom card >? atDate then false
   else if expiredAt atDate card then false
   else true) = true
  <-> effectiveAt atDate card.
Proof.
  unfold effectiveAt, expiredAt.
  destruct (RateCard.isActive card); simpl;
    [| split; [discriminate | intros [H _]; discriminate H] ].
  destruct (Z.gtb_spec (RateCard.effectiveFrom card) atDate) as [Hgt | Hle];
    [ split; [discriminate | intros (_ & Hf & _); lia] |].
  destruct (RateCard.effectiveTo card) as [t |].
  - destruct (Z.ltb_spec t atDate) as [Hlt | Hge].
    + split; [discriminate |].
      intros (_ & _ & [Hn | (t' & Ht & Hn)]); [discriminate Hn |].
      injection Ht as <-. lia.
    + split; [| reflexivity]. intros _.
      split; [reflexivity | split; [exact Hle |]].
      right. exists t. split; [reflexivity | lia].
  - split; [| reflexivity]. intros _.
    split; [reflexivity | split; [exact Hle | now left]].
Qed.

Lemma tierFilter_spec (tier : Tier) (entry : TimeEntry.t) (card : RateCard.t) :
  tierFilter tier entry card = true <-> inTier tier entry card.
Proof.
  destruct tier; simpl.
  - apply strictEq_eq.
  - apply strictEq_eq.
  - rewrite !andb_true_iff, !negb_true_iff, strictEq_eq.
    rewrite <- !truthy_isSet, !not_true_iff_false. tauto.
Qed.

Lemma resolveEffectiveRate_tiers (now : Date) (entry : TimeEntry.t)
    (rateCards : list RateCard.t) (atDate : option Date) :
  resolveEffectiveRate now entry rateCards atDate =
    match tierPick (orNow now atDate) rateCards entry ProjectTier with
    | Some projectRate => Some projectRate
    | None =>
        match tierPick (orNow now atDate) rateCards entry ClientTier with
        | Some clientRate => Some clientRate
        | None => tierPick (orNow now atDate) rateCards entry DeveloperTier
        end
    end.
Proof. reflexivity. Qed.

(** A tier yields a latest candidate of the tier, and nothing only when the
    tier has no candidate. *)
Lemma tierPick_spec (atDate : Date) (rateCards : list RateCard.t)
    (entry : TimeEntry.t) (tier : Tier) :
  match tierPick atDate rateCards entry tier with
  | Some r => latestOf (candidate atDate rateCards entry tier) r
  | None => ~ exists c, candidate atDate rateCards entry tier c
  end.
Proof.
  unfold tierPick.
  assert (Hin : forall c,
    In c (filter (tierFilter tier entry)
            (filter (fun card =>
               if negb (RateCard.isActive card) then false
               else if RateCard.effectiveFrom card >? atDate then false
               else if expiredAt atDate card then false
               else true) rateCards))
    <-> candidate atDate rateCards entry tier c).
  { intro c. unfold candidate.
    rewrite !filter_In, activeCard_spec, tierFilter_spec. tauto. }
  match goal with
  | |- context [Array_sort byEffectiveFromDesc ?l] =>
      pose proof (hd_sort_latest l) as Hhd;
      destruct (hd_error (Array_sort byEffectiveFromDesc l)) as [r |]
  end.
  - destruct Hhd as [Hr Hmax]. split.
    + now apply Hin.
    + intros c Hc. apply Hmax. now apply Hin.
  - intros (c & Hc). apply Hin in Hc. rewrite Hhd in Hc. exact Hc.
Qed.

(** C3. For every date [atDate], [resolveEffectiveRate] at that date looks
    only at the cards in force at it (active, effective from a date not
    after it, not ended before it).  If some of them carry the entry's
    project id it returns one of those with the latest [effectiveFrom],
    whatever the client and developer cards are; otherwise, if some carry
    the entry's client id, one of those with the latest [effectiveFrom];
    otherwise, if some carry the entry's developer id and neither a project
    nor a client id, one of those with the latest [effectiveFrom];
    otherwise null.  Called without a date it resolves at the current
    time. *)
Theorem resolveEffectiveRate_precedence :
  forall (now : Date) (entry : TimeEntry.t) (rateCards : list RateCard.t)
         (atDate : Date),
    let tier := candidate atDate rateCards entry in
    let resolved := resolveEffectiveRate now entry rateCards (Some atDate) in
    ((exists c, tier ProjectTier c) ->
     exists r, resolved = Some r /\ latestOf (tier ProjectTier) r)
    /\ ((~ exists c, tier ProjectTier c) -> (exists c, tier ClientTier c) ->
        exists r, resolved = Some r /\ latestOf (tier ClientTier) r)
    /\ ((~ exists c, tier ProjectTier c) -> (~ exists c, tier ClientTier c) ->
        (exists c, tier DeveloperTier c) ->
        exists r, resolved = Some r /\ latestOf (tier DeveloperTier) r)
    /\ ((~ exists c, tier ProjectTier c) -> (~ exists c, tier ClientTier c) ->
        (~ exists c, tier DeveloperTier c) ->
        resolved = None)
    /\ resolveEffectiveRate now entry rateCards None
       = resolveEffectiveRate now entry rateCards (Some now).
Proof.
  intros now entry rateCards atDate tier resolved.
  subst resolved. rewrite resolveEffectiveRate_tiers.
  change (orNow now (Some atDate)) with atDate.
  pose proof (tierPick_spec atDate rateCards entry ProjectTier) as HP.
  pose proof (tierPick_spec atDate rateCards entry ClientTier) as HC.
  pose proof (tierPick_spec atDate rateCards entry DeveloperTier) as HD.
  fold tier in HP, HC, HD.
  destruct (tierPick _ _ _ ProjectTier) as [p |].
  { repeat split.
    - intros _. now exists p.
    - intros Hn. exfalso. apply Hn. exists p. apply HP.
    - intros Hn. exfalso. apply Hn. exists p. apply HP.
    - intros Hn. exfalso. apply Hn. exists p. apply HP. }
  destruct (tierPick _ _ _ ClientTier) as [c |].
  { repeat split.
    - intros H. contradiction.
    - intros _ _. now exists c.
    - intros _ Hn. exfalso. apply Hn. exists c. apply HC.
    - intros _ Hn. exfalso. apply Hn. exists c. apply HC. }
  destruct (tierPick _ _ _ DeveloperTier) as [d |].
  { repeat split.
    - intros H. contradiction.
    - intros _ H. contradiction.
    - intros _ _ _. now exists d.
    - intros _ _ Hn. exfalso. apply Hn. exists d. apply HD. }
  repeat split.
  - intros H. contradiction.
  - intros _ H. contradiction.
  - intros _ _ H. contradiction.
Qed.

(** Asked on 2024-01-15 for the rate at mid-March 2024, the entry on
    project-1 resolves to the project card, in force since February,
    although a developer card and a client card match it too; asked for the
    rate on 2024-01-15 itself it resolves to the client card. *)
Lemma resolveEffectiveRate_precedence_witness :
  (exists r,
      resolveEffectiveRate t_09_00 twoHourEntry sampleRateCards (Some mid_march)
      = Some r
      /\ latestOf (candidate mid_march sampleRateCards twoHourEntry ProjectTier) r)
  /\ (exists r,
         resolveEffectiveRate mid_march twoHourEntry sampleRateCards (Some t_09_00)
         = Some r
         /\ latestOf (candidate t_09_00 sampleRateCards twoHourEntry ClientTier) r).
Proof.
  split.
  - apply (proj1 (resolveEffectiveRate_precedence t_09_00 twoHourEntry
                    sampleRateCards mid_march)).
    exists (RateCard.mk "rate-3" None (Some "project-1"%string) None 150%float "USD"
              1706745600000 None true 1706745600000 1706745600000).
    split; [simpl; tauto | split].
    + split; [reflexivity | split; [vm_compute; discriminate | now left]].
    + reflexivity.
  - apply (proj1 (proj2 (resolveEffectiveRate_precedence mid_march twoHourEntry
                           sampleRateCards t_09_00))).
    + intros (c & Hin & Hat & Htier).
      destruct Hin as [<- | [<- | [<- | []]]].
      * discriminate Htier.
      * destruct Hat as (_ & Hfrom & _). simpl in Hfrom.
        unfold t_09_00 in Hfrom. lia.
      * discriminate Htier.
    + exists (RateCard.mk "rate-4" (Some "dev-3"%string) None
                (Some "client-1"%string) 130%float "USD"
                1705276800000 None true 1705276800000 1705276800000).
      split; [simpl; tauto | split].
      * split; [reflexivity | split; [vm_compute; discriminate | now left]].
      * reflexivity.
Defined.

(* ================================================================= *)
(** ** Entry costs *)

Lemma costLoop_flat_map (now : Date) (rateCards : list RateCard.t)
    (interval : RoundingInterval) (atDate : Date) (batch : list TimeEntry.t) :
  forall costs,
    costLoop now rateCards interval atDate batch costs =
      costs ++ flat_map (fun entry =>
                 if TimeEntry.billable entry then
                   match resolveEffectiveRate now entry rateCards (Some atDate) with
                   | Some rate => [entryCost entry rate interval]
                   | None => []
                   end
                 else []) batch.
Proof.
  induction batch as [| entry rest IH]; intro costs; simpl.
  - now rewrite app_nil_r.
  - destruct (TimeEntry.billable entry); simpl; [| apply IH].
    destruct (resolveEffectiveRate now entry rateCards (Some atDate)) as [rate |];
      simpl; [| apply IH].
    rewrite IH. now rewrite <- app_assoc.
Qed.

(** C6, as the code computes it.  [calculateEntryCosts] returns, in input
    order, one record for each entry that is billable and has a resolvable
    rate, and nothing for the others.  The record holds the duration rounded
    by [roundDuration] to the interval (FIFTEEN_MINUTES when none is given)
    and the cost [Math.round(roundedMinutes / 60 * hourlyRate * 100) / 100]
    evaluated in binary64 arithmetic.  At 120 minutes and 150 per hour with
    FIFTEEN_MINUTES the rounded duration is 120 and the cost 300. *)
Theorem calculateEntryCosts_records :
  forall (now : Date) (batch : list TimeEntry.t) (rateCards : list RateCard.t)
         (roundingInterval : option RoundingInterval) (atDate : option Date),
    Forall2
      (fun entry c =>
         exists rate,
           resolveEffectiveRate now entry rateCards (Some (orNow now atDate))
           = Some rate
           /\ EntryCost.entryId c = TimeEntry.id entry
           /\ EntryCost.originalMinutes c = TimeEntry.durationMinutes entry
           /\ EntryCost.roundedMinutes c
              = roundDuration (TimeEntry.durationMinutes entry)
                              (orFifteen roundingInterval)
           /\ EntryCost.hourlyRate c = RateCard.hourlyRate rate
           /\ EntryCost.currency c = RateCard.currency rate
           /\ EntryCost.cost c
              = (Math_round (EntryCost.roundedMinutes c / 60
                             * RateCard.hourlyRate rate * 100) / 100)%float)
      (filter (costed now rateCards atDate) batch)
      (calculateEntryCosts now batch rateCards roundingInterval atDate)
    /\ orFifteen None = FIFTEEN_MINUTES
    /\ roundDuration 120 FIFTEEN_MINUTES = 120%float
    /\ (Math_round (120 / 60 * 150 * 100) / 100)%float = 300%float.
Proof.
  intros now batch rateCards roundingInterval atDate.
  split; [| repeat split].
  unfold calculateEntryCosts. rewrite costLoop_flat_map. simpl.
  induction batch as [| entry rest IH]; simpl; [constructor |].
  unfold costed at 1.
  destruct (TimeEntry.billable entry); simpl; [| exact IH].
  destruct (resolveEffectiveRate now entry rateCards (Some (orNow now atDate)))
    as [rate |] eqn:Hrate; simpl; [| exact IH].
  constructor; [| exact IH].
  exists rate. rewrite Hrate. repeat split.
Qed.

(** At mid-March 2024 the 120-minute entry is costed at the project rate of
    150 per hour: one record, 120 rounded minutes, cost 300.  The
    non-billable entry and the entry without a rate get no record. *)
Lemma calculateEntryCosts_sample :
  map (fun c => (EntryCost.entryId c, EntryCost.roundedMinutes c,
                 EntryCost.hourlyRate c, EntryCost.cost c))
      (calculateEntryCosts mid_march [meetingEntry; twoHourEntry; unratedEntry]
                           sampleRateCards None None)
  = [("entry-1"%string, 120%float, 150%float, 300%float)].
Proof. vm_compute. reflexivity. Qed.

(** C6, as stated, fails: 9 minutes at 1.5 per hour without rounding of the
    duration is 0.225 exactly, which rounds half up to 0.23, but the cost
    computed is 0.22, because 9 / 60 * 1.5 * 100 evaluates to
    22.499999999999996 in binary64. *)
Lemma calculateEntryCosts_not_exact_half_up :
  map EntryCost.cost
      (calculateEntryCosts mid_march [nineMinuteEntry] [lowRateCard]
                           (Some NONE) None)
  = [(22 / 100)%float]
  /\ (9 / 60 * 1.5 * 100 <? 22.5)%float = true
  /\ exactCost (roundDuration 9 NONE) 1.5 = (23 / 100)%float
  /\ (22 / 100 =? 23 / 100)%float = false.
Proof. vm_compute. repeat split. Qed.

Example toISOString_samples :
  toISOString 1710061200000 = "2024-03-10T09:00:00.000Z"%string
  /\ toISOString 0 = "1970-01-01T00:00:00.000Z"%string
  /\ toISOString (-1) = "1969-12-31T23:59:59.999Z"%string
  /\ toISOString 1709164800000 = "2024-02-29T00:00:00.000Z"%string
  /\ toISOString 8640000000000000 = "+275760-09-13T00:00:00.000Z"%string
  /\ toISOString (-8640000000000000) = "-271821-04-20T00:00:00.000Z"%string
  /\ toISOString (-62198755200000) = "-000001-01-01T00:00:00.000Z"%string
  /\ isoDate 1710061200000 = "2024-03-10"%string.
Proof. vm_compute. repeat split. Qed.

(* ================================================================= *)
(** * Further properties *)

(* ================================================================= *)
(** ** Durations *)

(** X1. [calculateDuration] is never negative and does not change when its
    arguments are swapped.  Between instants less than 2^53 ms apart it is
    the number of completed minutes between them, whichever comes first.
    Beyond that the difference of the two epoch times is rounded: between
    the first and the last valid date the result is one minute more than
    the completed minutes. *)
Theorem calculateDuration_whole_minutes :
  forall startAt endAt : Date,
    0 <= calculateDuration startAt endAt
    /\ calculateDuration endAt startAt = calculateDuration startAt endAt
    /\ (Z.abs (endAt - startAt) < 2 ^ 53 ->
        60000 * calculateDuration startAt endAt <= Z.abs (endAt - startAt)
        /\ Z.abs (endAt - startAt)
           < 60000 * (calculateDuration startAt endAt + 1))
    /\ calculateDuration (-8640000000000000) 8639999999999999 = 288000000000.
Proof.
  intros startAt endAt.
  destruct (calculateDuration_cases startAt endAt) as [Hnn Hcase].
  split; [exact Hnn | split; [apply calculateDuration_swap | split]].
  - intro H. destruct Hcase as [[_ Hb] | [Hbig _]]; lia.
  - vm_compute. reflexivity.
Qed.

(** From 09:00 to 10:00 and back there are 60 minutes. *)
Lemma calculateDuration_whole_minutes_witness :
  60000 * calculateDuration t_09_00 t_10_00 <= Z.abs (t_10_00 - t_09_00)
  /\ Z.abs (t_10_00 - t_09_00) < 60000 * (calculateDuration t_09_00 t_10_00 + 1).
Proof.
  apply (proj1 (proj2 (proj2 (calculateDuration_whole_minutes t_09_00 t_10_00)))).
  vm_compute. reflexivity.
Defined.

(** X2. [validateDuration] accepts exactly the pairs of instants that are at
    least one and at most 1440 whole minutes apart, in either order; and
    whatever the instants, its answer is never the message "Time entry must
    be at least 1 minute". *)
Theorem validateDuration_exact :
  forall startAt endAt : Date,
    (valid (validateDuration startAt endAt) = true
     <-> 60000 <= Z.abs (endAt - startAt) < 1441 * 60000)
    /\ validateDuration startAt endAt = validateDuration endAt startAt
    /\ error (validateDuration startAt endAt)
       <> Some "Time entry must be at least 1 minute"%string.
Proof.
  intros startAt endAt.
  destruct (calculateDuration_cases startAt endAt) as [Hnn Hcase].
  pose proof (calculateDuration_swap startAt endAt) as Hsym.
  unfold validateDuration. rewrite Hsym.
  set (d := calculateDuration startAt endAt) in *.
  change (2 ^ 53) with 9007199254740992 in Hcase.
  change (2 ^ 35) with 34359738368 in Hcase.
  destruct (Z.leb_spec d 0) as [H0 | H0]; simpl.
  - repeat split; try discriminate. lia.
  - destruct (Z.gtb_spec d 1440) as [H1 | H1]; simpl.
    + repeat split; try discriminate. lia.
    + destruct (Z.ltb_spec d 1) as [H2 | H2]; [lia |]. simpl.
      repeat split; try discriminate; lia.
Qed.

(* ================================================================= *)
(** ** Overlaps between entries *)

(** X3. [detectOverlap] does not depend on the order of its arguments.  On
    entries that do not end before they start it holds exactly when each
    starts before the other ends; so an entry of positive length overlaps
    itself and an entry of length zero does not. *)
Theorem detectOverlap_symmetric :
  forall a b : EntryPeriod,
    detectOverlap a b = detectOverlap b a
    /\ (startAt a <= endAt a -> startAt b <= endAt b ->
        (detectOverlap a b = true <-> startAt a < endAt b /\ startAt b < endAt a))
    /\ (startAt a <= endAt a ->
        (detectOverlap a a = true <-> startAt a < endAt a)).
Proof.
  intros a b.
  assert (Hord : forall x y : EntryPeriod,
    startAt x <= endAt x -> startAt y <= endAt y ->
    (detectOverlap x y = true <-> startAt x < endAt y /\ startAt y < endAt x)).
  { intros x y Hx Hy. unfold detectOverlap.
    rewrite areIntervalsOverlapping_exclusive.
    unfold overlapsExclusive, lo, hi. simpl. lia. }
  split; [| split].
  - unfold detectOverlap, DateFns.areIntervalsOverlapping. simpl.
    apply andb_comm.
  - apply Hord.
  - intro Ha. rewrite (Hord a a Ha Ha). lia.
Qed.

Lemma detectOverlap_symmetric_witness :
  (detectOverlap period_09_11 period_10_12 = true
   <-> startAt period_09_11 < endAt period_10_12
       /\ startAt period_10_12 < endAt period_09_11)
  /\ (detectOverlap period_09_11 period_09_11 = true
      <-> startAt period_09_11 < endAt period_09_11).
Proof.
  split.
  - apply (proj1 (proj2 (detectOverlap_symmetric period_09_11 period_10_12)));
      vm_compute; discriminate.
  - apply (proj2 (proj2 (detectOverlap_symmetric period_09_11 period_09_11)));
      vm_compute; discriminate.
Defined.

Lemma findOverlapsFrom_spec (entry_i : EntrySlot.t) (after : list EntrySlot.t) :
  forall overlaps,
    findOverlapsFrom entry_i after overlaps =
      overlaps
      ++ map (fun entry_j => (EntrySlot.id entry_i, EntrySlot.id entry_j))
             (filter (fun entry_j =>
                        detectOverlap (slotPeriod entry_i) (slotPeriod entry_j))
                     after).
Proof.
  induction after as [| entry_j rest IH]; intro overlaps; simpl.
  - now rewrite app_nil_r.
  - destruct (detectOverlap (slotPeriod entry_i) (slotPeriod entry_j)); simpl.
    + rewrite IH. now rewrite <- app_assoc.
    + apply IH.
Qed.

Lemma findOverlapsLoop_spec (entries : list EntrySlot.t) :
  forall overlaps,
    findOverlapsLoop entries overlaps = overlaps ++ overlapPairs entries.
Proof.
  induction entries as [| entry_i after IH]; intro overlaps; simpl.
  - now rewrite app_nil_r.
  - rewrite IH, findOverlapsFrom_spec. now rewrite <- app_assoc.
Qed.

(** X4. The pairs [findOverlaps] reports are exactly the id pairs of two
    entries at positions [i < j] of the input that overlap: no overlapping
    pair is missed, nothing else is reported, and the entry earlier in the
    input comes first in its pair. *)
Theorem findOverlaps_sound_complete :
  forall (entries : list EntrySlot.t) (x y : string),
    In (x, y) (findOverlaps entries) <->
    exists (i j : nat) (entry_i entry_j : EntrySlot.t),
      (i < j)%nat
      /\ nth_error entries i = Some entry_i
      /\ nth_error entries j = Some entry_j
      /\ detectOverlap (slotPeriod entry_i) (slotPeriod entry_j) = true
      /\ x = EntrySlot.id entry_i /\ y = EntrySlot.id entry_j.
Proof.
  intros entries x y. unfold findOverlaps.
  rewrite findOverlapsLoop_spec. simpl.
  induction entries as [| e after IH]; simpl.
  - split; [intros [] |].
    intros (i & j & ei & ej & _ & Hi & _). destruct i; discriminate Hi.
  - rewrite in_app_iff, IH, in_map_iff. split.
    + intros [(ej & Hpair & Hin) | (i & j & ei & ej & Hlt & Hi & Hj & Hov & Hx & Hy)].
      * apply filter_In in Hin. destruct Hin as [Hin Hov].
        apply In_nth_error in Hin. destruct Hin as [k Hk].
        injection Hpair as <- <-.
        exists 0%nat, (S k), e, ej. repeat split; [lia | exact Hk | exact Hov].
      * exists (S i), (S j), ei, ej. repeat split; try assumption. lia.
    + intros (i & j & ei & ej & Hlt & Hi & Hj & Hov & Hx & Hy).
      destruct j as [| j]; [lia |]. simpl in Hj.
      destruct i as [| i]; simpl in Hi.
      * injection Hi as <-. left. exists ej. split; [now subst |].
        apply filter_In. split; [now apply nth_error_In in Hj | exact Hov].
      * right. exists i, j, ei, ej. repeat split; try assumption. lia.
Qed.

Lemma filter_none {A : Type} (p : A -> bool) (l : list A) :
  (forall x, In x l -> p x = false) -> filter p l = [].
Proof.
  induction l as [| x l IH]; intro H; simpl; [reflexivity |].
  rewrite (H x (or_introl eq_refl)). apply IH.
  intros y Hy. apply H. now right.
Qed.

(** X5. [findOverlaps] returns the empty list exactly when no entry of the
    input overlaps an entry after it; in particular for the empty list and
    for a single entry. *)
Theorem findOverlaps_empty_iff :
  forall entries : list EntrySlot.t,
    findOverlaps entries = []
    <-> ForallOrdPairs
          (fun a b => detectOverlap (slotPeriod a) (slotPeriod b) = false)
          entries.
Proof.
  intro entries. unfold findOverlaps. rewrite findOverlapsLoop_spec. simpl.
  induction entries as [| e after IH]; simpl.
  - split; [constructor | reflexivity].
  - split.
    + intro H. apply app_eq_nil in H. destruct H as [Hhere Hafter].
      constructor; [| now apply IH].
      apply map_eq_nil in Hhere.
      apply Forall_forall. intros b Hb.
      destruct (detectOverlap (slotPeriod e) (slotPeriod b)) eqn:Hov;
        [| reflexivity].
      assert (Hin : In b (filter (fun entry_j =>
                detectOverlap (slotPeriod e) (slotPeriod entry_j)) after))
        by (apply filter_In; now split).
      rewrite Hhere in Hin. destruct Hin.
    + intro H. inversion H as [| ? ? Hhere Hafter]; subst.
      apply IH in Hafter. rewrite Hafter, app_nil_r.
      rewrite Forall_forall in Hhere.
      rewrite filter_none; [reflexivity | exact Hhere].
Qed.

(* ================================================================= *)
(** ** Guards, transitions and the workflow operations *)

(** X6. Each guard of the workflow agrees with the transition table: an
    entry may be submitted, approved, rejected, locked or billed exactly
    when [validateStatusTransition] allows the move from its status to
    SUBMITTED, APPROVED, REJECTED, LOCKED or BILLED; and an entry may be
    edited exactly when it may be submitted. *)
Theorem guards_agree_with_table :
  forall s : TimeEntryStatus,
    canSubmitTimeEntry s = valid (validateStatusTransition s SUBMITTED)
    /\ canApproveTimeEntry s = valid (validateStatusTransition s APPROVED)
    /\ canRejectTimeEntry s = valid (validateStatusTransition s REJECTED)
    /\ canLockTimeEntry s = valid (validateStatusTransition s LOCKED)
    /\ canBillTimeEntry s = valid (validateStatusTransition s BILLED)
    /\ canEditTimeEntry s = canSubmitTimeEntry s.
Proof. intro s. destruct s; repeat split. Qed.

Lemma forEntries_ok_inv (body : TimeEntry.t -> Result (TimeEntry.t * AuditLog.t))
    (batch : list TimeEntry.t) :
  forall u a result,
    forEntries body batch u a = ok result ->
    exists pushed,
      Forall2 (fun e p => body e = ok p) batch pushed
      /\ entries result = u ++ map fst pushed
      /\ auditLogs result = a ++ map snd pushed.
Proof.
  induction batch as [| e rest IH]; intros u a result H; simpl in H.
  - injection H as <-. exists []. simpl. now rewrite !app_nil_r.
  - destruct (body e) as [err | p] eqn:Hb; simpl in H; [discriminate H |].
    destruct (IH _ _ _ H) as (pushed & HF & He & Hl).
    exists (p :: pushed). split; [now constructor |].
    simpl. rewrite He, Hl, <- !app_assoc. now split.
Qed.

Lemma bodyOf_ok_inv (call : BatchCall) (entry u : TimeEntry.t) (l : AuditLog.t) :
  bodyOf call entry = ok (u, l) ->
  passes call entry
  /\ TimeEntry.id u = TimeEntry.id entry
  /\ TimeEntry.status u = targetStatus call
  /\ AuditLog.entityId l = TimeEntry.id entry.
Proof.
  intro H.
  assert (Hp : passes call entry).
  { destruct call; simpl in *; unfold notLocked.
    - unfold submitBody in H.
      destruct (canSubmitTimeEntry _); simpl in H; [| discriminate H].
      destruct (isPeriodLocked _ _ _); [discriminate H | now split].
    - unfold approveBody in H.
      destruct (canApproveTimeEntry _); simpl in H; [| discriminate H].
      destruct (isPeriodLocked _ _ _); [discriminate H | now split].
    - unfold rejectBody in H.
      destruct (canRejectTimeEntry _); [reflexivity | discriminate H].
    - unfold lockBody in H.
      destruct (canLockTimeEntry _); [reflexivity | discriminate H].
    - unfold billBody in H.
      destruct (status_eqb _ LOCKED) eqn:E; [| discriminate H].
      now apply status_eqb_eq. }
  split; [exact Hp |].
  destruct (bodyOf_passes call entry Hp) as (u' & l' & Hb & Hid & Hst & Hl).
  rewrite Hb in H. injection H as <- <-. now repeat split.
Qed.

Lemma passes_transition (call : BatchCall) (entry : TimeEntry.t) :
  passes call entry ->
  transition (TimeEntry.status entry) (targetStatus call).
Proof.
  unfold transition.
  destruct call; simpl; try intros [Hg _]; try intros Hg;
    try (rewrite Hg; reflexivity);
    destruct (TimeEntry.status entry); try discriminate Hg; reflexivity.
Qed.

(** X7. A batch operation that succeeds has moved every entry along a
    transition of the table: the updated entries are the input entries in
    order, each with its id kept and with a status that
    [validateStatusTransition] allows after the one it had. *)
Theorem batch_moves_along_table :
  forall (call : BatchCall) (batch : list TimeEntry.t) (result : EntriesResult),
    runBatch call batch = ok result ->
    Forall2 (fun e u =>
               TimeEntry.id u = TimeEntry.id e
               /\ valid (validateStatusTransition (TimeEntry.status e)
                                                  (TimeEntry.status u)) = true)
            batch (entries result).
Proof.
  intros call batch result H. rewrite runBatch_forEntries in H.
  destruct (forEntries_ok_inv _ _ _ _ _ H) as (pushed & HF & He & _).
  rewrite He. simpl. clear H He.
  induction HF as [| e p batch pushed Hb HF IH]; simpl; constructor; [| exact IH].
  destruct p as [u l]. apply bodyOf_ok_inv in Hb.
  destruct Hb as (Hp & Hid & Hst & _). split; [exact Hid |].
  simpl. rewrite Hst. now apply passes_transition.
Qed.

Lemma batch_moves_along_table_witness :
  Forall2 (fun e u =>
             TimeEntry.id u = TimeEntry.id e
             /\ valid (validateStatusTransition (TimeEntry.status e)
                                                (TimeEntry.status u)) = true)
          [sampleSubmitted; sampleApproved]
          [Spread.with_updatedAt (timestamp sampleContext)
             (Spread.with_rejectionReason (Some "Incorrect project"%string)
                (Spread.with_rejectedAt (Some (timestamp sampleContext))
                   (Spread.with_rejectedBy (Some (userId sampleContext))
                      (Spread.with_status REJECTED sampleSubmitted))));
           Spread.with_updatedAt (timestamp sampleContext)
             (Spread.with_rejectionReason (Some "Incorrect project"%string)
                (Spread.with_rejectedAt (Some (timestamp sampleContext))
                   (Spread.with_rejectedBy (Some (userId sampleContext))
                      (Spread.with_status REJECTED sampleApproved))))].
Proof.
  eapply (batch_moves_along_table (Reject "Incorrect project" sampleContext)
            [sampleSubmitted; sampleApproved]
            (mkEntriesResult _ _)).
  reflexivity.
Defined.

(** X8. Whatever valid transitions follow one another: from LOCKED only
    LOCKED and BILLED can be reached and from BILLED only BILLED, so an
    entry that has been locked can never again be edited, submitted,
    approved or rejected; and every status can be reached from DRAFT. *)
Theorem locked_is_final :
  (forall s, reachable LOCKED s -> s = LOCKED \/ s = BILLED)
  /\ (forall s, reachable BILLED s -> s = BILLED)
  /\ (forall s, reachable LOCKED s ->
        canEditTimeEntry s = false /\ canSubmitTimeEntry s = false
        /\ canApproveTimeEntry s = false /\ canRejectTimeEntry s = false)
  /\ (forall s, reachable DRAFT s).
Proof.
  assert (HL : forall s, reachable LOCKED s -> s = LOCKED \/ s = BILLED).
  { intros s H. induction H as [| b c _ IH Hstep]; [now left |].
    unfold transition in Hstep.
    destruct IH as [-> | ->]; destruct c; try discriminate Hstep; auto. }
  split; [exact HL | split; [| split]].
  - intros s H. induction H as [| b c _ IH Hstep]; [reflexivity |].
    unfold transition in Hstep. subst b. destruct c; discriminate Hstep.
  - intros s H. destruct (HL s H) as [-> | ->]; repeat split.
  - assert (H1 : reachable DRAFT SUBMITTED)
      by (apply (reach_next _ DRAFT); [constructor | reflexivity]).
    assert (H2 : reachable DRAFT APPROVED)
      by (apply (reach_next _ SUBMITTED); [exact H1 | reflexivity]).
    assert (H3 : reachable DRAFT LOCKED)
      by (apply (reach_next _ APPROVED); [exact H2 | reflexivity]).
    intro s. destruct s.
    + constructor.
    + exact H1.
    + exact H2.
    + apply (reach_next _ SUBMITTED); [exact H1 | reflexivity].
    + exact H3.
    + apply (reach_next _ LOCKED); [exact H3 | reflexivity].
Qed.

Lemma locked_is_final_witness :
  BILLED = LOCKED \/ BILLED = BILLED.
Proof.
  apply (proj1 locked_is_final BILLED).
  apply (reach_next _ LOCKED); [constructor | reflexivity].
Defined.

(* ================================================================= *)
(** ** Rounding of durations *)

Lemma sameNumber_eq (x y : float) : sameNumber x y = true -> x = y.
Proof.
  unfold sameNumber. intro H. apply Prim2SF_inj.
  destruct (Prim2SF x) as [s | s | | s m e], (Prim2SF y) as [s' | s' | | s' m' e'];
    simpl in H; try discriminate H; try reflexivity.
  - apply Bool.eqb_prop in H. now subst.
  - apply Bool.eqb_prop in H. now subst.
  - apply andb_true_iff in H. destruct H as [H He].
    apply andb_true_iff in H. destruct H as [Hs Hm].
    apply Bool.eqb_prop in Hs. apply Pos.eqb_eq in Hm. apply Z.eqb_eq in He.
    now subst.
Qed.

Lemma nearestMultiple_nearest (minutes interval : Z) :
  0 < interval ->
  (nearestMultiple minutes interval) mod interval = 0
  /\ 2 * Z.abs (nearestMultiple minutes interval - minutes) <= interval
  /\ 2 * (minutes - nearestMultiple minutes interval) < interval.
Proof.
  intro Hi. unfold nearestMultiple.
  destruct (Z.eqb_spec interval 0) as [E | _]; [lia |].
  pose proof (Z.div_mod (2 * minutes + interval) (2 * interval) ltac:(lia)) as Hdm.
  pose proof (Z.mod_pos_bound (2 * minutes + interval) (2 * interval) ltac:(lia)) as Hm.
  set (q := (2 * minutes + interval) / (2 * interval)) in *.
  split; [apply Z.mod_mul; lia | nia].
Qed.

(** X9. For every whole number of minutes from 0 to 1440 and every rounding
    interval, [roundDuration] returns exactly the multiple of the interval
    nearest to the duration, the upper one when the duration is halfway
    between two multiples, and the duration itself for NONE: binary64
    arithmetic introduces no error on these inputs. *)
Theorem roundDuration_exact_on_minutes :
  forall (minutes : Z) (interval : RoundingInterval),
    0 <= minutes <= 1440 ->
    roundDuration (integerToNumber minutes) interval
    = integerToNumber (nearestMultiple minutes (intervalMinutes interval))
    /\ (interval <> NONE ->
        (nearestMultiple minutes (intervalMinutes interval))
          mod (intervalMinutes interval) = 0
        /\ 2 * Z.abs (nearestMultiple minutes (intervalMinutes interval) - minutes)
           <= intervalMinutes interval
        /\ 2 * (minutes - nearestMultiple minutes (intervalMinutes interval))
           < intervalMinutes interval).
Proof.
  intros minutes interval Hrange. split.
  - assert (Hall : roundDurationChecked = true) by (vm_compute; reflexivity).
    unfold roundDurationChecked in Hall. rewrite forallb_forall in Hall.
    assert (Hin : In minutes minutesOfDay).
    { unfold minutesOfDay. apply in_map_iff. exists (Z.to_nat minutes).
      split; [lia | apply in_seq; lia]. }
    specialize (Hall minutes Hin). rewrite forallb_forall in Hall.
    apply sameNumber_eq. apply Hall.
    unfold allIntervals. destruct interval; simpl; tauto.
  - intro Hn. apply nearestMultiple_nearest.
    destruct interval; simpl; try lia. contradiction.
Qed.

Lemma roundDuration_exact_on_minutes_witness :
  roundDuration (integerToNumber 23) FIFTEEN_MINUTES
  = integerToNumber (nearestMultiple 23 (intervalMinutes FIFTEEN_MINUTES)).
Proof.
  apply (proj1 (roundDuration_exact_on_minutes 23 FIFTEEN_MINUTES ltac:(lia))).
Defined.

(* ================================================================= *)
(** ** Locks: inactive locks, creation and release *)

Lemma forEntries_ext (body body' : TimeEntry.t -> Result (TimeEntry.t * AuditLog.t))
    (batch : list TimeEntry.t) :
  (forall e, In e batch -> body e = body' e) ->
  forall u a, forEntries body batch u a = forEntries body' batch u a.
Proof.
  induction batch as [| e rest IH]; intros Hext u a; simpl; [reflexivity |].
  rewrite <- (Hext e (or_introl eq_refl)).
  destruct (body e) as [err | p]; simpl; [reflexivity |].
  apply IH. intros x Hx. apply Hext. now right.
Qed.

Lemma isPeriodLocked_active_only (s e : Date) (locks : list PeriodLock) :
  isPeriodLocked s e locks = isPeriodLocked s e (filter isActive locks).
Proof.
  unfold isPeriodLocked.
  induction locks as [| lock rest IH]; simpl; [reflexivity |].
  destruct (isActive lock) eqn:Hact; simpl.
  - rewrite Hact. simpl. now rewrite IH.
  - exact IH.
Qed.

(** X10. Inactive locks never block: [submitTimeEntries] and
    [approveTimeEntries] give the same result, error or not, with a list of
    locks as with the active locks of that list; with only inactive locks
    they behave as with no locks at all. *)
Theorem inactive_locks_never_block :
  forall (batch : list TimeEntry.t) (context : WorkflowContext)
         (locks : list PeriodLock),
    submitTimeEntries batch context (Some locks)
    = submitTimeEntries batch context (Some (filter isActive locks))
    /\ approveTimeEntries batch context (Some locks)
       = approveTimeEntries batch context (Some (filter isActive locks))
    /\ (Forall (fun lock => isActive lock = false) locks ->
        submitTimeEntries batch context (Some locks)
        = submitTimeEntries batch context None
        /\ approveTimeEntries batch context (Some locks)
           = approveTimeEntries batch context None).
Proof.
  intros batch context locks.
  assert (Hs : submitTimeEntries batch context (Some locks)
               = submitTimeEntries batch context (Some (filter isActive locks))).
  { unfold submitTimeEntries. apply forEntries_ext. intros e _. simpl.
    unfold submitBody. now rewrite isPeriodLocked_active_only. }
  assert (Ha : approveTimeEntries batch context (Some locks)
               = approveTimeEntries batch context (Some (filter isActive locks))).
  { unfold approveTimeEntries. apply forEntries_ext. intros e _. simpl.
    unfold approveBody. now rewrite isPeriodLocked_active_only. }
  split; [exact Hs | split; [exact Ha |]].
  intro Hall. rewrite Hs, Ha.
  rewrite filter_none; [now split |].
  rewrite Forall_forall in Hall. exact Hall.
Qed.

Lemma inactive_locks_never_block_witness :
  submitTimeEntries [sampleEntry] sampleContext
    (Some [mkPeriodLock 1709251200000 1711843200000 false])
  = submitTimeEntries [sampleEntry] sampleContext None.
Proof.
  apply (proj2 (proj2 (inactive_locks_never_block [sampleEntry] sampleContext
                         [mkPeriodLock 1709251200000 1711843200000 false]))).
  repeat constructor.
Defined.

(** X11. [createTimeLock] fails with "Either projectId or clientId must be
    provided" when neither id is set, whatever the period; fails with
    "Period end must be after period start" when an id is set and the
    period does not end after it starts; and otherwise returns an active
    lock that carries the parameters unchanged, is dated at the clock, has
    no unlock data, and comes with a CREATE audit record of the locking
    user whose entity id is still empty. *)
Theorem createTimeLock_cases :
  forall (now : Date) (params : CreateLockParams.t),
    let scoped := isSet (CreateLockParams.projectId params)
                  \/ isSet (CreateLockParams.clientId params) in
    (~ scoped ->
     createTimeLock now params
     = throw (ValidationError "Either projectId or clientId must be provided"))
    /\ (scoped ->
        CreateLockParams.periodEnd params <= CreateLockParams.periodStart params ->
        createTimeLock now params
        = throw (ValidationError "Period end must be after period start"))
    /\ (scoped ->
        CreateLockParams.periodStart params < CreateLockParams.periodEnd params ->
        exists result,
          createTimeLock now params = ok result
          /\ createdLock result
             = NewTimeLock.mk (CreateLockParams.projectId params)
                 (CreateLockParams.clientId params)
                 (CreateLockParams.periodStart params)
                 (CreateLockParams.periodEnd params)
                 (CreateLockParams.reason params)
                 (CreateLockParams.lockedBy params) now None None true
          /\ AuditLog.action (createdLog result) = "CREATE"%string
          /\ AuditLog.entityType (createdLog result) = "TimeLock"%string
          /\ AuditLog.entityId (createdLog result) = EmptyString
          /\ AuditLog.userId (createdLog result) = CreateLockParams.lockedBy params).
Proof.
  intros now params scoped. subst scoped.
  unfold createTimeLock.
  rewrite <- !truthy_isSet.
  destruct (truthy (CreateLockParams.projectId params)),
           (truthy (CreateLockParams.clientId params)); simpl.
  all: repeat split.
  all: try (intro H; exfalso; apply H; auto; fail).
  all: try (intros [H | H]; discriminate H).
  all: intros _ Hp.
  all: try (destruct (Z.leb_spec (CreateLockParams.periodEnd params)
                                 (CreateLockParams.periodStart params));
            [reflexivity | lia]).
  all: destruct (Z.leb_spec (CreateLockParams.periodEnd params)
                            (CreateLockParams.periodStart params)); [lia |].
  all: eexists; repeat split.
Qed.

Lemma createTimeLock_cases_witness :
  exists result,
    createTimeLock mid_march touchingLockParams = ok result
    /\ createdLock result
       = NewTimeLock.mk (CreateLockParams.projectId touchingLockParams)
           (CreateLockParams.clientId touchingLockParams)
           (CreateLockParams.periodStart touchingLockParams)
           (CreateLockParams.periodEnd touchingLockParams)
           (CreateLockParams.reason touchingLockParams)
           (CreateLockParams.lockedBy touchingLockParams) mid_march None None true
    /\ AuditLog.action (createdLog result) = "CREATE"%string
    /\ AuditLog.entityType (createdLog result) = "TimeLock"%string
    /\ AuditLog.entityId (createdLog result) = EmptyString
    /\ AuditLog.userId (createdLog result)
       = CreateLockParams.lockedBy touchingLockParams.
Proof.
  apply (proj2 (proj2 (createTimeLock_cases mid_march touchingLockParams))).
  - left. exists "project-1"%string. split; [reflexivity | discriminate].
  - vm_compute. reflexivity.
Defined.

(** X12. [unlockTimeLock] refuses a lock that is already inactive.  On an
    active lock it returns the lock deactivated, with the unlocking user and
    the clock recorded and every other field kept, and an UNLOCK audit
    record for the lock's id.  The returned lock cannot be unlocked again,
    is in conflict with no entry, and locks no period. *)
Theorem unlockTimeLock_releases :
  forall (now : Date) (lock : TimeLock.t) (unlockedBy : string)
         (reason : option string),
    (TimeLock.isActive lock = false ->
     unlockTimeLock now lock unlockedBy reason
     = throw (ValidationError "Lock is already inactive"))
    /\ (TimeLock.isActive lock = true ->
        exists result,
          unlockTimeLock now lock unlockedBy reason = ok result
          /\ unlockedLock result
             = TimeLock.mk (TimeLock.id lock) (TimeLock.projectId lock)
                 (TimeLock.clientId lock) (TimeLock.periodStart lock)
                 (TimeLock.periodEnd lock) (TimeLock.reason lock)
                 (TimeLock.lockedBy lock) (TimeLock.lockedAt lock)
                 (Some unlockedBy) (Some now) false
          /\ AuditLog.action (unlockLog result) = "UNLOCK"%string
          /\ AuditLog.entityId (unlockLog result) = TimeLock.id lock
          /\ (forall now' by' reason',
                 unlockTimeLock now' (unlockedLock result) by' reason'
                 = throw (ValidationError "Lock is already inactive"))
          /\ (forall entry,
                 checkEntryLockConflict entry [unlockedLock result] = None)
          /\ (forall s e,
                 isPeriodLocked s e [asPeriodLock (unlockedLock result)] = false)).
Proof.
  intros now lock unlockedBy reason. unfold unlockTimeLock. split; intro Hact.
  - now rewrite Hact.
  - rewrite Hact. simpl. eexists. split; [reflexivity |].
    simpl. repeat split.
Qed.

Lemma unlockTimeLock_releases_witness :
  exists result,
    unlockTimeLock mid_march sampleLock "admin-2" None = ok result
    /\ unlockedLock result
       = TimeLock.mk (TimeLock.id sampleLock) (TimeLock.projectId sampleLock)
           (TimeLock.clientId sampleLock) (TimeLock.periodStart sampleLock)
           (TimeLock.periodEnd sampleLock) (TimeLock.reason sampleLock)
           (TimeLock.lockedBy sampleLock) (TimeLock.lockedAt sampleLock)
           (Some "admin-2"%string) (Some mid_march) false
    /\ AuditLog.action (unlockLog result) = "UNLOCK"%string
    /\ AuditLog.entityId (unlockLog result) = TimeLock.id sampleLock
    /\ (forall now' by' reason',
           unlockTimeLock now' (unlockedLock result) by' reason'
           = throw (ValidationError "Lock is already inactive"))
    /\ (forall entry,
           checkEntryLockConflict entry [unlockedLock result] = None)
    /\ (forall s e,
           isPeriodLocked s e [asPeriodLock (unlockedLock result)] = false).
Proof.
  apply (proj2 (unlockTimeLock_releases mid_march sampleLock "admin-2" None)).
  reflexivity.
Defined.

(* ================================================================= *)
(** ** Locks: the conflict checks *)

Lemma find_split {A : Type} (p : A -> bool) (l : list A) (x : A) :
  find p l = Some x ->
  exists pre post, l = pre ++ x :: post /\ p x = true
                   /\ Forall (fun y => p y = false) pre.
Proof.
  induction l as [| y l IH]; simpl; [discriminate |].
  destruct (p y) eqn:Hy.
  - intros [= <-]. exists [], l. repeat split; [exact Hy | constructor].
  - intro H. destruct (IH H) as (pre & post & -> & Hx & Hpre).
    exists (y :: pre), post. repeat split; [exact Hx | now constructor].
Qed.

Lemma find_ext {A : Type} (p q : A -> bool) (l : list A) :
  (forall x, In x l -> p x = q x) -> find p l = find q l.
Proof.
  induction l as [| y l IH]; intro H; simpl; [reflexivity |].
  rewrite <- (H y (or_introl eq_refl)).
  destruct (p y); [reflexivity |]. apply IH. intros x Hx. apply H. now right.
Qed.

(** X13. [checkEntryLockConflict] returns the first lock of the list, in
    input order, that is in conflict with the entry (active, scope matching,
    inclusive overlap), and null exactly when no lock of the list is. *)
Theorem checkEntryLockConflict_first :
  forall (entry : TimeEntry.t) (locks : list TimeLock.t),
    match checkEntryLockConflict entry locks with
    | Some lock =>
        exists pre post,
          locks = pre ++ lock :: post
          /\ conflictsWithEntry entry lock
          /\ Forall (fun l => ~ conflictsWithEntry entry l) pre
    | None => Forall (fun l => ~ conflictsWithEntry entry l) locks
    end.
Proof.
  intros entry locks. rewrite checkEntryLockConflict_find.
  destruct (find (entryConflict entry) locks) as [lock |] eqn:Hf.
  - destruct (find_split _ _ _ Hf) as (pre & post & -> & Hx & Hpre).
    exists pre, post. split; [reflexivity | split].
    + now apply entryConflict_spec.
    + eapply Forall_impl; [| exact Hpre].
      intros l Hl. now apply entryConflict_false.
  - apply Forall_forall. intros l Hl.
    apply entryConflict_false. exact (find_none _ _ Hf l Hl).
Qed.

Lemma checkPeriodLockConflict_entry (entry : TimeEntry.t) (locks : list TimeLock.t) :
  checkPeriodLockConflict (TimeEntry.startAt entry) (TimeEntry.endAt entry)
    (Some (TimeEntry.projectId entry)) (Some (TimeEntry.clientId entry))
    (Some locks)
  = checkEntryLockConflict entry locks.
Proof.
  rewrite checkPeriodLockConflict_find, checkEntryLockConflict_find. simpl.
  apply find_ext. intros lock _. unfold periodConflict, entryConflict.
  now rewrite periodScopeMatch_entry.
Qed.

(** X14. Asked about the interval, project id and client id of an entry,
    [checkPeriodLockConflict] answers as [checkEntryLockConflict] does for
    the entry.  Asked without any project or client id, or with an id that
    is the empty string, or without a list of locks, it always answers
    null. *)
Theorem checkPeriodLockConflict_agrees :
  (forall (entry : TimeEntry.t) (locks : list TimeLock.t),
      checkPeriodLockConflict (TimeEntry.startAt entry) (TimeEntry.endAt entry)
        (Some (TimeEntry.projectId entry)) (Some (TimeEntry.clientId entry))
        (Some locks)
      = checkEntryLockConflict entry locks)
  /\ (forall (s e : Date) (projectId clientId : option string)
             (locks : option (list TimeLock.t)),
         ~ isSet projectId -> ~ isSet clientId ->
         checkPeriodLockConflict s e projectId clientId locks = None)
  /\ (forall (s e : Date) (projectId clientId : option string),
         checkPeriodLockConflict s e projectId clientId None = None).
Proof.
  split; [| split].
  - apply checkPeriodLockConflict_entry.
  - intros s e projectId clientId locks Hp Hc.
    rewrite checkPeriodLockConflict_find.
    rewrite <- truthy_isSet in Hp, Hc.
    apply not_true_is_false in Hp. apply not_true_is_false in Hc.
    destruct (find _ (orEmpty locks)) as [lock |] eqn:Hf; [| reflexivity].
    apply find_some in Hf. destruct Hf as [_ Hf].
    unfold periodConflict, periodScopeMatch in Hf.
    rewrite Hp, Hc in Hf. simpl in Hf. rewrite andb_false_r in Hf.
    discriminate Hf.
  - reflexivity.
Qed.

Lemma checkPeriodLockConflict_agrees_witness :
  checkPeriodLockConflict 1709251200000 1711843200000 None (Some EmptyString)
    (Some [sampleLock]) = None.
Proof.
  apply (proj1 (proj2 checkPeriodLockConflict_agrees)).
  - intros (s & H & _). discriminate H.
  - intros (s & H & Hne). injection H as <-. now apply Hne.
Defined.

(** X15. [getAffectedEntries] keeps, in input order, exactly the entries
    whose scope the lock matches and whose interval overlaps its period
    under inclusive bounds.  It does not look at [isActive]: an inactive
    lock affects the same entries as the active one; for an active lock the
    entries kept are those [checkEntryLockConflict] finds in conflict with
    it. *)
Theorem getAffectedEntries_spec :
  forall (lock : TimeLock.t) (batch : list TimeEntry.t),
    getAffectedEntries lock batch
    = filter (fun entry =>
                entryScopeMatch lock entry
                && DateFns.areIntervalsOverlapping (entrySpan entry)
                     (lockSpan lock) true) batch
    /\ (forall entry,
           In entry (getAffectedEntries lock batch) <->
           In entry batch /\ matchesEntry lock entry
           /\ overlapsInclusive (entrySpan entry) (lockSpan lock))
    /\ (forall lock',
           TimeLock.projectId lock' = TimeLock.projectId lock ->
           TimeLock.clientId lock' = TimeLock.clientId lock ->
           TimeLock.periodStart lock' = TimeLock.periodStart lock ->
           TimeLock.periodEnd lock' = TimeLock.periodEnd lock ->
           getAffectedEntries lock' batch = getAffectedEntries lock batch)
    /\ (TimeLock.isActive lock = true ->
        forall entry,
          In entry (getAffectedEntries lock batch) <->
          In entry batch /\ checkEntryLockConflict entry [lock] = Some lock).
Proof.
  intros lock batch.
  assert (Hfilter : getAffectedEntries lock batch
    = filter (fun entry =>
                entryScopeMatch lock entry
                && DateFns.areIntervalsOverlapping (entrySpan entry)
                     (lockSpan lock) true) batch).
  { unfold getAffectedEntries. apply filter_ext. intro entry.
    now destruct (entryScopeMatch lock entry). }
  assert (Hin : forall entry,
    In entry (getAffectedEntries lock batch) <->
    In entry batch /\ matchesEntry lock entry
    /\ overlapsInclusive (entrySpan entry) (lockSpan lock)).
  { intro entry.
    rewrite Hfilter, filter_In, andb_true_iff, entryScopeMatch_spec,
      areIntervalsOverlapping_inclusive. tauto. }
  split; [exact Hfilter | split; [exact Hin | split]].
  - intros lock' Hp Hc Hs He. unfold getAffectedEntries, entryScopeMatch.
    now rewrite Hp, Hc, Hs, He.
  - intros Hact entry. rewrite Hin.
    rewrite checkEntryLockConflict_find. simpl.
    destruct (entryConflict entry lock) eqn:Hc.
    + apply entryConflict_spec in Hc. tauto.
    + apply entryConflict_false in Hc. unfold conflictsWithEntry in Hc.
      split; [tauto | intros [_ H]; discriminate H].
Qed.

Lemma getAffectedEntries_spec_witness :
  In boundaryEntry (getAffectedEntries sampleLock [sampleEntry; boundaryEntry]) <->
  In boundaryEntry [sampleEntry; boundaryEntry]
  /\ checkEntryLockConflict boundaryEntry [sampleLock] = Some sampleLock.
Proof.
  apply (proj2 (proj2 (proj2 (getAffectedEntries_spec sampleLock
                                [sampleEntry; boundaryEntry])))).
  reflexivity.
Defined.

(* ================================================================= *)
(** ** Maps in insertion order *)

Section JsMapFacts.

Context {V : Type}.

Lemma get_set_same (m : JsMap.t V) (k : string) (v : V) :
  JsMap.get (JsMap.set m k v) k = Some v.
Proof.
  induction m as [| [k' v'] m IH]; simpl.
  - now rewrite String.eqb_refl.
  - destruct (String.eqb k' k) eqn:E; simpl; rewrite E; [reflexivity | exact IH].
Qed.

Lemma get_set_other (m : JsMap.t V) (k k' : string) (v : V) :
  k' <> k -> JsMap.get (JsMap.set m k v) k' = JsMap.get m k'.
Proof.
  intro Hne. induction m as [| [k0 v0] m IH]; simpl.
  - destruct (String.eqb_spec k k'); [congruence | reflexivity].
  - destruct (String.eqb_spec k0 k) as [-> | Hk]; simpl.
    + destruct (String.eqb_spec k k'); [congruence | reflexivity].
    + destruct (String.eqb k0 k'); [reflexivity | exact IH].
Qed.

Lemma get_None_keys (m : JsMap.t V) (k : string) :
  JsMap.get m k = None <-> ~ In k (JsMap.keys m).
Proof.
  induction m as [| [k0 v0] m IH]; simpl; [tauto |].
  destruct (String.eqb_spec k0 k) as [-> | Hk].
  - split; [discriminate | intro H; exfalso; apply H; now left].
  - rewrite IH. tauto.
Qed.

Lemma get_In (m : JsMap.t V) (k : string) (v : V) :
  JsMap.get m k = Some v -> In (k, v) m.
Proof.
  induction m as [| [k0 v0] m IH]; simpl; [discriminate |].
  destruct (String.eqb_spec k0 k) as [-> | Hk].
  - intros [= ->]. now left.
  - intro H. right. now apply IH.
Qed.

Lemma In_get (m : JsMap.t V) (k : string) (v : V) :
  NoDup (JsMap.keys m) -> In (k, v) m -> JsMap.get m k = Some v.
Proof.
  induction m as [| [k0 v0] m IH]; simpl; [intros _ [] |].
  intros Hnd [[= -> ->] | Hin].
  - now rewrite String.eqb_refl.
  - inversion Hnd as [| ? ? Hnotin Hnd']; subst.
    destruct (String.eqb_spec k0 k) as [-> | Hk].
    + exfalso. apply Hnotin. apply in_map_iff. now exists (k, v).
    + now apply IH.
Qed.

Lemma keys_set (m : JsMap.t V) (k : string) (v : V) :
  JsMap.keys (JsMap.set m k v)
  = match JsMap.get m k with
    | Some _ => JsMap.keys m
    | None => JsMap.keys m ++ [k]
    end.
Proof.
  induction m as [| [k0 v0] m IH]; simpl; [reflexivity |].
  destruct (String.eqb_spec k0 k) as [-> | Hk]; simpl; [reflexivity |].
  rewrite IH. now destruct (JsMap.get m k).
Qed.

Lemma set_fresh (m : JsMap.t V) (k : string) (v : V) :
  JsMap.get m k = None -> JsMap.set m k v = m ++ [(k, v)].
Proof.
  induction m as [| [k0 v0] m IH]; simpl; [reflexivity |].
  destruct (String.eqb k0 k); [discriminate |].
  intro H. now rewrite IH.
Qed.

Lemma NoDup_keys_set (m : JsMap.t V) (k : string) (v : V) :
  NoDup (JsMap.keys m) -> NoDup (JsMap.keys (JsMap.set m k v)).
Proof.
  intro Hnd. rewrite keys_set.
  destruct (JsMap.get m k) eqn:Hg; [exact Hnd |].
  apply get_None_keys in Hg.
  apply NoDup_app; [exact Hnd | repeat constructor; intros [] |].
  intros x Hx [<- | []]. contradiction.
Qed.

Lemma In_delete (m : JsMap.t V) (k : string) (kv : string * V) :
  In kv (JsMap.delete m k) -> In kv m.
Proof.
  induction m as [| [k0 v0] m IH]; simpl; [tauto |].
  destruct (String.eqb k0 k); [now right |].
  intros [<- | H]; [now left | right; now apply IH].
Qed.

Lemma NoDup_keys_delete (m : JsMap.t V) (k : string) :
  NoDup (JsMap.keys m) -> NoDup (JsMap.keys (JsMap.delete m k)).
Proof.
  induction m as [| [k0 v0] m IH]; simpl; [tauto |].
  intro Hnd. inversion Hnd as [| ? ? Hnotin Hnd']; subst.
  destruct (String.eqb k0 k); [exact Hnd' |].
  simpl. constructor; [| now apply IH].
  intro Hin. apply Hnotin. apply in_map_iff in Hin.
  destruct Hin as ([k1 v1] & <- & Hin). apply In_delete in Hin.
  apply in_map_iff. now exists (k1, v1).
Qed.

Lemma get_delete_same (m : JsMap.t V) (k : string) :
  NoDup (JsMap.keys m) -> JsMap.get (JsMap.delete m k) k = None.
Proof.
  induction m as [| [k0 v0] m IH]; simpl; [reflexivity |].
  intro Hnd. inversion Hnd as [| ? ? Hnotin Hnd']; subst.
  destruct (String.eqb_spec k0 k) as [-> | Hk].
  - now apply get_None_keys.
  - simpl. destruct (String.eqb_spec k0 k); [contradiction | now apply IH].
Qed.

Lemma get_delete_other (m : JsMap.t V) (k k' : string) :
  k' <> k -> JsMap.get (JsMap.delete m k) k' = JsMap.get m k'.
Proof.
  intro Hne. induction m as [| [k0 v0] m IH]; simpl; [reflexivity |].
  destruct (String.eqb_spec k0 k) as [-> | Hk]; simpl.
  - destruct (String.eqb_spec k k'); [congruence | reflexivity].
  - destruct (String.eqb k0 k'); [reflexivity | exact IH].
Qed.

Lemma delete_set_fresh (m : JsMap.t V) (k : string) (v : V) :
  JsMap.get m k = None -> JsMap.delete (JsMap.set m k v) k = m.
Proof.
  induction m as [| [k0 v0] m IH]; simpl.
  - now rewrite String.eqb_refl.
  - destruct (String.eqb k0 k) eqn:E; [discriminate |].
    intro H. simpl. rewrite E. now rewrite IH.
Qed.

End JsMapFacts.

(* ================================================================= *)
(** ** The lock manager *)

Lemma wellFormed_set (this : LockManager.t) (lock : TimeLock.t) :
  wellFormed this -> wellFormed (JsMap.set this (TimeLock.id lock) lock).
Proof.
  intros [Hnd Hid]. split; [now apply NoDup_keys_set |].
  clear Hnd. induction this as [| [k v] this IH]; simpl.
  - repeat constructor.
  - inversion Hid as [| ? ? Hkv Hrest]; subst.
    destruct (String.eqb_spec k (TimeLock.id lock)) as [-> | Hk].
    + constructor; [reflexivity | exact Hrest].
    + constructor; [exact Hkv | now apply IH].
Qed.

Lemma wellFormed_fold (locks : list TimeLock.t) :
  forall this, wellFormed this ->
    wellFormed (fold_left (fun this lock => JsMap.set this (TimeLock.id lock) lock)
                          locks this).
Proof.
  induction locks as [| lock rest IH]; intros this Hwf; simpl; [exact Hwf |].
  apply IH. now apply wellFormed_set.
Qed.

(** X16. A lock manager never holds two locks under the same id, and holds
    every lock under the lock's own id: this is so after construction from
    any list of locks, duplicates of an id included, and it is kept by
    [addLock] and by [removeLock]. *)
Theorem LockManager_wellFormed :
  (forall locks : option (list TimeLock.t),
      wellFormed (LockManager.constructor locks))
  /\ (forall (this : LockManager.t) (lock : TimeLock.t),
         wellFormed this -> wellFormed (LockManager.addLock this lock))
  /\ (forall (this : LockManager.t) (lockId : string),
         wellFormed this -> wellFormed (LockManager.removeLock this lockId)).
Proof.
  split; [| split].
  - intro locks. unfold LockManager.constructor. apply wellFormed_fold.
    split; constructor.
  - intros this lock. apply wellFormed_set.
  - intros this lockId [Hnd Hid]. unfold LockManager.removeLock.
    split; [now apply NoDup_keys_delete |].
    apply Forall_forall. intros kv Hin. apply In_delete in Hin.
    rewrite Forall_forall in Hid. now apply Hid.
Qed.

Lemma LockManager_wellFormed_witness :
  wellFormed (LockManager.addLock (LockManager.constructor (Some [sampleLock]))
                                  otherProjectLock).
Proof.
  apply (proj1 (proj2 LockManager_wellFormed)).
  apply (proj1 LockManager_wellFormed).
Defined.

(** X17. Adding and removing locks.  After [addLock] the manager holds the
    added lock under its id and every other id as before; a lock with a new
    id goes last, a lock with an id already held replaces the old one at
    its place.  After [removeLock] on a well-formed manager the id is no
    longer held and every other id is as before; removing a lock that was
    just added under a new id gives back the manager as it was. *)
Theorem LockManager_add_remove :
  forall (this : LockManager.t) (lock : TimeLock.t),
    JsMap.get (LockManager.addLock this lock) (TimeLock.id lock) = Some lock
    /\ (forall k, k <> TimeLock.id lock ->
          JsMap.get (LockManager.addLock this lock) k = JsMap.get this k)
    /\ (JsMap.get this (TimeLock.id lock) = None ->
        LockManager.addLock this lock = this ++ [(TimeLock.id lock, lock)]
        /\ LockManager.removeLock (LockManager.addLock this lock)
                                  (TimeLock.id lock) = this)
    /\ (JsMap.get this (TimeLock.id lock) <> None ->
        JsMap.keys (LockManager.addLock this lock) = JsMap.keys this)
    /\ (wellFormed this ->
        forall lockId,
          JsMap.get (LockManager.removeLock this lockId) lockId = None
          /\ forall k, k <> lockId ->
               JsMap.get (LockManager.removeLock this lockId) k
               = JsMap.get this k).
Proof.
  intros this lock. unfold LockManager.addLock, LockManager.removeLock.
  split; [apply get_set_same | split; [| split; [| split]]].
  - intros k Hk. now apply get_set_other.
  - intro Hfresh. split; [now apply set_fresh | now apply delete_set_fresh].
  - intro Hheld. rewrite keys_set.
    destruct (JsMap.get this (TimeLock.id lock)); [reflexivity | contradiction].
  - intros [Hnd _] lockId. split; [now apply get_delete_same |].
    intros k Hk. now apply get_delete_other.
Qed.

Lemma LockManager_add_remove_witness :
  LockManager.addLock (LockManager.constructor (Some [sampleLock])) otherProjectLock
  = LockManager.constructor (Some [sampleLock])
    ++ [(TimeLock.id otherProjectLock, otherProjectLock)]
  /\ LockManager.removeLock
       (LockManager.addLock (LockManager.constructor (Some [sampleLock]))
                            otherProjectLock)
       (TimeLock.id otherProjectLock)
     = LockManager.constructor (Some [sampleLock]).
Proof.
  apply (proj1 (proj2 (proj2 (LockManager_add_remove
           (LockManager.constructor (Some [sampleLock])) otherProjectLock)))).
  reflexivity.
Defined.

(** X18. The queries of the manager see the stored locks only through their
    active ones.  [isEntryLocked] holds exactly when a stored lock is in
    conflict with the entry, and equals what the manager's [isPeriodLocked]
    answers for the entry's interval, project id and client id.
    [getProjectLocks], [getClientLocks] and [getLocksInRange] return active
    stored locks only: those with the given project id, with the given
    client id, and those whose period overlaps the range under inclusive
    bounds. *)
Theorem LockManager_queries :
  forall (this : LockManager.t),
    (forall entry,
        LockManager.isEntryLocked this entry = true <->
        exists lock, In lock (JsMap.values this) /\ conflictsWithEntry entry lock)
    /\ (forall entry,
           LockManager.isPeriodLocked this (TimeEntry.startAt entry)
             (TimeEntry.endAt entry) (Some (TimeEntry.projectId entry))
             (Some (TimeEntry.clientId entry))
           = LockManager.isEntryLocked this entry)
    /\ (forall projectId lock,
           In lock (LockManager.getProjectLocks this projectId) <->
           In lock (JsMap.values this) /\ TimeLock.isActive lock = true
           /\ TimeLock.projectId lock = Some projectId)
    /\ (forall clientId lock,
           In lock (LockManager.getClientLocks this clientId) <->
           In lock (JsMap.values this) /\ TimeLock.isActive lock = true
           /\ TimeLock.clientId lock = Some clientId)
    /\ (forall startDate endDate lock,
           In lock (LockManager.getLocksInRange this startDate endDate) <->
           In lock (JsMap.values this) /\ TimeLock.isActive lock = true
           /\ overlapsInclusive (DateFns.mkInterval startDate endDate)
                                (lockSpan lock)).
Proof.
  intro this. split; [| split; [| split; [| split]]].
  - intro entry. unfold LockManager.isEntryLocked, LockManager.getActiveLocks.
    rewrite checkEntryLockConflict_find.
    split.
    + destruct (find _ _) as [lock |] eqn:Hf; [intros _ | discriminate].
      apply find_some in Hf. destruct Hf as [Hin Hc].
      apply filter_In in Hin. exists lock. split; [apply Hin |].
      now apply entryConflict_spec.
    + intros (lock & Hin & Hc).
      destruct (find _ _) as [l |] eqn:Hf; [reflexivity |].
      assert (Hin' : In lock (filter TimeLock.isActive (JsMap.values this)))
        by (apply filter_In; split; [exact Hin | apply Hc]).
      apply entryConflict_spec in Hc.
      rewrite (find_none _ _ Hf lock Hin') in Hc. discriminate Hc.
  - intro entry. unfold LockManager.isPeriodLocked, LockManager.isEntryLocked.
    now rewrite checkPeriodLockConflict_entry.
  - intros projectId lock.
    unfold LockManager.getProjectLocks, LockManager.getActiveLocks.
    rewrite !filter_In, strictEq_eq. tauto.
  - intros clientId lock.
    unfold LockManager.getClientLocks, LockManager.getActiveLocks.
    rewrite !filter_In, strictEq_eq. tauto.
  - intros startDate endDate lock.
    unfold LockManager.getLocksInRange, LockManager.getActiveLocks.
    rewrite !filter_In, areIntervalsOverlapping_inclusive. tauto.
Qed.

Lemma find_app_last {A : Type} (p : A -> bool) (l : list A) (x : A) :
  find p (l ++ [x]) =
    match find p l with
    | Some y => Some y
    | None => if p x then Some x else None
    end.
Proof.
  induction l as [| y l IH]; simpl; [reflexivity |].
  destruct (p y); [reflexivity | exact IH].
Qed.

Lemma get_fold_set (locks : list TimeLock.t) (k : string) :
  forall this : LockManager.t,
    JsMap.get (fold_left (fun this lock => JsMap.set this (TimeLock.id lock) lock)
                         locks this) k
    = match find (fun lock => String.eqb (TimeLock.id lock) k) (rev locks) with
      | Some lock => Some lock
      | None => JsMap.get this k
      end.
Proof.
  induction locks as [| lock rest IH]; intro this; simpl; [reflexivity |].
  rewrite IH, find_app_last.
  destruct (find _ (rev rest)); [reflexivity |].
  destruct (String.eqb_spec (TimeLock.id lock) k) as [<- | Hk].
  - apply get_set_same.
  - apply get_set_other. congruence.
Qed.

(** X19. A manager constructed from a list of locks holds, under each id,
    the last lock of the list with that id, and nothing under an id that no
    lock of the list has; constructed without a list it holds nothing, so
    that no entry is locked. *)
Theorem LockManager_constructor_last_wins :
  (forall (locks : list TimeLock.t) (k : string),
      JsMap.get (LockManager.constructor (Some locks)) k
      = find (fun lock => String.eqb (TimeLock.id lock) k) (rev locks))
  /\ LockManager.constructor None = JsMap.empty
  /\ (forall entry,
         LockManager.isEntryLocked (LockManager.constructor None) entry = false).
Proof.
  split; [| split; reflexivity].
  intros locks k. unfold LockManager.constructor. simpl.
  rewrite get_fold_set. now destruct (find _ (rev locks)).
Qed.

(* ================================================================= *)
(** ** Submission of a timesheet *)

Lemma isDraft_spec (e : TimeEntry.t) : isDraft e = true <-> TimeEntry.status e = DRAFT.
Proof. apply status_eqb_eq. Qed.

Lemma submitBody_draft (context : WorkflowContext) (locks : list PeriodLock)
    (entry : TimeEntry.t) :
  TimeEntry.status entry = DRAFT ->
  submitBody context locks entry =
    if isPeriodLocked (TimeEntry.startAt entry) (TimeEntry.endAt entry) locks
    then throw (PeriodLockedError (TimeEntry.startAt entry) (TimeEntry.endAt entry))
    else ok (submittedAt context entry,
             entryLog "SUBMIT" entry context SUBMITTED []).
Proof. intro H. unfold submitBody. now rewrite H. Qed.

(** X20. [submitTimesheet] fails only with a period-locked error: for the
    period of the timesheet when that is locked, whatever the entries; else
    for the first draft entry, in input order, whose own interval is locked.
    It succeeds exactly when neither the timesheet period nor the interval
    of any draft entry is locked; the status of the timesheet and the
    entries that are not drafts play no part. *)
Theorem submitTimesheet_outcome :
  forall (timesheet : Timesheet.t) (batch : list TimeEntry.t)
         (context : WorkflowContext) (locks : option (list PeriodLock)),
    let sheetLocked :=
      isPeriodLocked (Timesheet.periodStart timesheet)
                     (Timesheet.periodEnd timesheet) (orEmpty locks) = true in
    (sheetLocked ->
     submitTimesheet timesheet batch context locks
     = throw (PeriodLockedError (Timesheet.periodStart timesheet)
                                (Timesheet.periodEnd timesheet)))
    /\ (~ sheetLocked ->
        forall pre entry post,
          filter isDraft batch = pre ++ entry :: post ->
          Forall (fun e => ~ periodLocked locks e) pre ->
          periodLocked locks entry ->
          submitTimesheet timesheet batch context locks
          = throw (PeriodLockedError (TimeEntry.startAt entry)
                                     (TimeEntry.endAt entry)))
    /\ ((exists result, submitTimesheet timesheet batch context locks = ok result)
        <-> ~ sheetLocked
            /\ Forall (fun e => ~ periodLocked locks e) (filter isDraft batch))
    /\ (forall err,
           submitTimesheet timesheet batch context locks = throw err ->
           exists s e, err = PeriodLockedError s e).
Proof.
  intros timesheet batch context locks sheetLocked. subst sheetLocked.
  unfold submitTimesheet.
  destruct (isPeriodLocked (Timesheet.periodStart timesheet) _ _) eqn:Hsheet.
  { split; [reflexivity | split; [intro H; now exfalso | split]].
    - split; [intros (r & H); discriminate H | intros [H _]; now exfalso].
    - intros err [= <-]. now eexists; eexists. }
  split; [discriminate |].
  assert (Hdrafts : Forall (fun e => TimeEntry.status e = DRAFT) (filter isDraft batch)).
  { apply Forall_forall. intros e He. apply filter_In in He.
    now apply isDraft_spec. }
  unfold submitTimeEntries, periodLocked in *. simpl orEmpty.
  set (drafts := filter isDraft batch) in *. clearbody drafts.
  assert (Hthrow : forall pre entry post,
    drafts = pre ++ entry :: post ->
    Forall (fun e =>
      isPeriodLocked (TimeEntry.startAt e) (TimeEntry.endAt e) (orEmpty locks)
      <> true) pre ->
    isPeriodLocked (TimeEntry.startAt entry) (TimeEntry.endAt entry)
                   (orEmpty locks) = true ->
    forEntries (submitBody context (orEmpty locks)) drafts [] []
    = throw (PeriodLockedError (TimeEntry.startAt entry) (TimeEntry.endAt entry))).
  { intros pre entry post -> Hpre Hlocked.
    rewrite Forall_forall in Hdrafts.
    apply forEntries_first_throw.
    - intros x Hx. rewrite Forall_forall in Hpre.
      rewrite submitBody_draft by (apply Hdrafts, in_or_app; now left).
      destruct (isPeriodLocked (TimeEntry.startAt x) _ _) eqn:E;
        [apply Hpre in Hx; congruence | eexists; reflexivity].
    - rewrite submitBody_draft by (apply Hdrafts, in_or_app; right; now left).
      now rewrite Hlocked. }
  assert (Hfirst : Forall (fun e =>
      isPeriodLocked (TimeEntry.startAt e) (TimeEntry.endAt e) (orEmpty locks)
      <> true) drafts
    \/ exists pre entry post,
         drafts = pre ++ entry :: post
         /\ Forall (fun e =>
              isPeriodLocked (TimeEntry.startAt e) (TimeEntry.endAt e)
                             (orEmpty locks) <> true) pre
         /\ isPeriodLocked (TimeEntry.startAt entry) (TimeEntry.endAt entry)
                           (orEmpty locks) = true).
  { clear. induction drafts as [| d rest IH]; [left; constructor |].
    destruct (isPeriodLocked (TimeEntry.startAt d) (TimeEntry.endAt d)
                             (orEmpty locks)) eqn:E.
    - right. exists [], d, rest. repeat split; [constructor | exact E].
    - destruct IH as [Hall | (pre & entry & post & -> & Hpre & Hl)].
      + left. constructor; [congruence | exact Hall].
      + right. exists (d :: pre), entry, post.
        repeat split; [constructor; [congruence | exact Hpre] | exact Hl]. }
  assert (Hok : Forall (fun e =>
      isPeriodLocked (TimeEntry.startAt e) (TimeEntry.endAt e) (orEmpty locks)
      <> true) drafts ->
    forEntries (submitBody context (orEmpty locks)) drafts [] []
    = ok (mkEntriesResult (map (submittedAt context) drafts)
            (map (fun e => entryLog "SUBMIT" e context SUBMITTED []) drafts))).
  { intro Hall.
    rewrite (forEntries_all_ok _ (submittedAt context)
               (fun e => entryLog "SUBMIT" e context SUBMITTED []));
      [reflexivity |].
    intros e He. rewrite Forall_forall in Hdrafts, Hall.
    rewrite submitBody_draft by now apply Hdrafts.
    destruct (isPeriodLocked (TimeEntry.startAt e) _ _) eqn:E;
      [apply Hall in He; congruence | reflexivity]. }
  split; [| split].
  - intros _ pre entry post Hsplit Hpre Hlocked.
    now rewrite (Hthrow pre entry post Hsplit Hpre Hlocked).
  - split.
    + intros (r & Hr). split; [discriminate |].
      destruct Hfirst as [Hall | (pre & entry & post & Hsplit & Hpre & Hl)];
        [exact Hall |].
      rewrite (Hthrow pre entry post Hsplit Hpre Hl) in Hr. discriminate Hr.
    + intros [_ Hall]. rewrite (Hok Hall). simpl. now eexists.
  - intros err Herr.
    destruct Hfirst as [Hall | (pre & entry & post & Hsplit & Hpre & Hl)].
    + rewrite (Hok Hall) in Herr. discriminate Herr.
    + rewrite (Hthrow pre entry post Hsplit Hpre Hl) in Herr.
      injection Herr as <-. now eexists; eexists.
Qed.

Lemma submitTimesheet_outcome_witness :
  submitTimesheet sampleTimesheet [sampleEntry] sampleContext
                  (Some [marchPeriodLock])
  = throw (PeriodLockedError (Timesheet.periodStart sampleTimesheet)
                             (Timesheet.periodEnd sampleTimesheet)).
Proof.
  apply (proj1 (submitTimesheet_outcome sampleTimesheet [sampleEntry]
                  sampleContext (Some [marchPeriodLock]))).
  reflexivity.
Defined.

Lemma submitTimeEntries_drafts (drafts : list TimeEntry.t)
    (context : WorkflowContext) (locks : option (list PeriodLock))
    (result : EntriesResult) :
  Forall (fun e => TimeEntry.status e = DRAFT) drafts ->
  submitTimeEntries drafts context locks = ok result ->
  result = mkEntriesResult (map (submittedAt context) drafts)
             (map (fun e => entryLog "SUBMIT" e context SUBMITTED []) drafts).
Proof.
  intros Hdrafts H. unfold submitTimeEntries in H.
  destruct (forEntries_ok_inv _ _ _ _ _ H) as (pushed & HF & He & Hl).
  simpl in He, Hl. destruct result as [es ls]. simpl in He, Hl. subst es ls.
  clear H. f_equal.
  - induction HF as [| e p ? ? Hb HF IH]; simpl; [reflexivity |].
    inversion Hdrafts as [| ? ? Hd Hrest]; subst.
    rewrite (submitBody_draft _ _ _ Hd) in Hb.
    destruct (isPeriodLocked _ _ _); [discriminate Hb |].
    injection Hb as <-. simpl. f_equal. now apply IH.
  - induction HF as [| e p ? ? Hb HF IH]; simpl; [reflexivity |].
    inversion Hdrafts as [| ? ? Hd Hrest]; subst.
    rewrite (submitBody_draft _ _ _ Hd) in Hb.
    destruct (isPeriodLocked _ _ _); [discriminate Hb |].
    injection Hb as <-. simpl. f_equal. now apply IH.
Qed.

(** X21. When [submitTimesheet] succeeds, the entries it returns, which are
    also the entries of the returned timesheet, are the entries that were
    not drafts, unchanged and in input order, followed by the draft entries
    as submitted; so their number is that of the input, and a REJECTED
    entry comes back as it was although [submitTimeEntries] alone would
    submit it.  The timesheet becomes SUBMITTED at the context's timestamp
    with its other fields kept, whatever its status and its own entry list
    were.  The audit records are one per draft entry, in order, then one
    for the timesheet that counts the drafts. *)
Theorem submitTimesheet_result :
  forall (timesheet : Timesheet.t) (batch : list TimeEntry.t)
         (context : WorkflowContext) (locks : option (list PeriodLock))
         (result : SubmitTimesheetResult),
    submitTimesheet timesheet batch context locks = ok result ->
    let drafts := filter isDraft batch in
    sheetEntries result
    = filter (fun e => negb (isDraft e)) batch ++ map (submittedAt context) drafts
    /\ Timesheet.entries (sheet result) = sheetEntries result
    /\ List.length (sheetEntries result) = List.length batch
    /\ (forall e, In e batch -> TimeEntry.status e = REJECTED ->
                  In e (sheetEntries result))
    /\ sheet result
       = Timesheet.mk (Timesheet.id timesheet) (Timesheet.developerId timesheet)
           (Timesheet.clientId timesheet) (Timesheet.periodStart timesheet)
           (Timesheet.periodEnd timesheet) (Timesheet.totalMinutes timesheet)
           (Timesheet.billableMinutes timesheet) SUBMITTED
           (Some (timestamp context)) (Timesheet.approvedAt timesheet)
           (Timesheet.approvedBy timesheet) (sheetEntries result)
    /\ List.length (sheetLogs result) = S (List.length drafts)
    /\ map SheetLog.entityId (sheetLogs result)
       = map TimeEntry.id drafts ++ [Timesheet.id timesheet]
    /\ (exists entryLogs sheetLog,
           sheetLogs result = entryLogs ++ [sheetLog]
           /\ SheetLog.entityType sheetLog = "Timesheet"%string
           /\ SheetLog.action sheetLog = "SUBMIT"%string
           /\ In ("entriesSubmitted"%string,
                  MetaNumber (Z.of_nat (List.length drafts)))
                 (SheetLog.metadata sheetLog)).
Proof.
  intros timesheet batch context locks result H drafts.
  unfold submitTimesheet in H.
  destruct (isPeriodLocked (Timesheet.periodStart timesheet) _ _);
    [discriminate H |].
  fold drafts in H.
  destruct (submitTimeEntries drafts context (Some (orEmpty locks)))
    as [err | r] eqn:Hsub; simpl in H; [discriminate H |].
  apply submitTimeEntries_drafts in Hsub.
  2:{ apply Forall_forall. intros e He. apply filter_In in He.
      now apply isDraft_spec. }
  subst r. injection H as <-. simpl.
  split; [reflexivity | split; [reflexivity | split; [| split; [| split]]]].
  - rewrite length_app, length_map. subst drafts.
    rewrite Nat.add_comm. apply filter_length.
  - intros e He Hrej. apply in_or_app. left. apply filter_In.
    split; [exact He |]. unfold isDraft. now rewrite Hrej.
  - reflexivity.
  - split; [| split].
    + rewrite length_app, !length_map. simpl. lia.
    + rewrite map_app, !map_map. reflexivity.
    + eexists; eexists. split; [reflexivity |]. rewrite length_map.
      repeat split. simpl. tauto.
Qed.

Lemma submitTimesheet_result_witness :
  sheetEntries
    (mkSubmitTimesheetResult
       (Timesheet.mk "timesheet-1" "dev-1" "client-1" 1709510400000 1710028800000
          2400%float 2000%float SUBMITTED (Some (timestamp sampleContext)) None None
          [sampleRejected; submittedAt sampleContext sampleEntry])
       [sampleRejected; submittedAt sampleContext sampleEntry]
       [asSheetLog (entryLog "SUBMIT" sampleEntry sampleContext SUBMITTED []);
        SheetLog.mk "Timesheet" "timesheet-1" "SUBMIT" "user-123"
          [("userRole"%string, MetaJs (JsString "manager"));
           ("entriesSubmitted"%string, MetaNumber 1);
           ("weekStart"%string, MetaJs (JsString "2024-03-04T00:00:00.000Z"));
           ("weekEnd"%string, MetaJs (JsString "2024-03-10T00:00:00.000Z"))]])
  = filter (fun e => negb (isDraft e)) [sampleEntry; sampleRejected]
    ++ map (submittedAt sampleContext) (filter isDraft [sampleEntry; sampleRejected]).
Proof.
  apply (submitTimesheet_result sampleTimesheet [sampleEntry; sampleRejected]
           sampleContext None).
  vm_compute. reflexivity.
Defined.

(* ================================================================= *)
(** ** Grouping entries by date *)

Lemma length_concat_set {A : Type} (m : JsMap.t (list A)) (k : string) (x : A) :
  List.length (List.concat (JsMap.values
    (JsMap.set m k (match JsMap.get m k with
                    | Some l => l
                    | None => []
                    end ++ [x]))))
  = S (List.length (List.concat (JsMap.values m))).
Proof.
  unfold JsMap.values.
  induction m as [| [k0 v0] m IH]; [reflexivity |].
  cbn [JsMap.get JsMap.set].
  destruct (String.eqb k0 k); cbn [map snd List.concat].
  - rewrite !length_app. simpl. lia.
  - rewrite !length_app, IH. lia.
Qed.

Lemma groupEntriesByDate_fold (batch : list TimeEntry.t) :
  forall (grouped : JsMap.t (list TimeEntry.t)) (seen : list TimeEntry.t),
    NoDup (JsMap.keys grouped) ->
    (forall k, JsMap.get grouped k = nonEmpty (startingOn k seen)) ->
    List.length (List.concat (JsMap.values grouped)) = List.length seen ->
    let result :=
      fold_left (fun grouped entry =>
        let dateKey := isoDate (TimeEntry.startAt entry) in
        let existing :=
          match JsMap.get grouped dateKey with
          | Some l => l
          | None => []
          end in
        JsMap.set grouped dateKey (existing ++ [entry])) batch grouped in
    NoDup (JsMap.keys result)
    /\ (forall k, JsMap.get result k = nonEmpty (startingOn k (seen ++ batch)))
    /\ List.length (List.concat (JsMap.values result)) = List.length (seen ++ batch).
Proof.
  induction batch as [| e rest IH]; intros grouped seen Hnd Hget Hlen; simpl.
  - rewrite app_nil_r. auto.
  - replace (seen ++ e :: rest) with ((seen ++ [e]) ++ rest)
      by now rewrite <- app_assoc.
    apply IH.
    + now apply NoDup_keys_set.
    + intro k. unfold startingOn. rewrite filter_app. simpl.
      destruct (String.eqb_spec (isoDate (TimeEntry.startAt e)) k) as [<- | Hk].
      * rewrite get_set_same, Hget. unfold startingOn.
        destruct (filter _ seen); reflexivity.
      * rewrite get_set_other by congruence.
        rewrite Hget, app_nil_r. reflexivity.
    + rewrite length_app. simpl. rewrite <- Hlen.
      rewrite length_concat_set. lia.
Qed.

(** X22. [groupEntriesByDate] puts every entry in exactly one group, that
    of the UTC date its [startAt] falls on: under each date key the map
    holds the entries that start on that date, in input order, and it holds
    no key without an entry; no key occurs twice, and the groups together
    have as many entries as the input. *)
Theorem groupEntriesByDate_partition :
  forall batch : list TimeEntry.t,
    (forall k, JsMap.get (groupEntriesByDate batch) k
               = nonEmpty (startingOn k batch))
    /\ NoDup (JsMap.keys (groupEntriesByDate batch))
    /\ List.length (List.concat (JsMap.values (groupEntriesByDate batch)))
       = List.length batch.
Proof.
  intro batch. unfold groupEntriesByDate.
  destruct (groupEntriesByDate_fold batch JsMap.empty [])
    as (Hnd & Hget & Hlen); try reflexivity; [constructor |].
  simpl in Hget, Hlen. auto.
Qed.

(* ================================================================= *)
(** ** Rate resolution: ties and batches *)

(** The first element of the stable descending sort is the first card of the
    list that has the latest [effectiveFrom]. *)
Lemma hd_sort_first_latest (l : list RateCard.t) (r : RateCard.t) :
  hd_error (Array_sort byEffectiveFromDesc l) = Some r ->
  exists pre post,
    l = pre ++ r :: post
    /\ Forall (fun c => RateCard.effectiveFrom c < RateCard.effectiveFrom r) pre
    /\ Forall (fun c => RateCard.effectiveFrom c <= RateCard.effectiveFrom r) post.
Proof.
  revert r. induction l as [| x l IH]; intros r H; simpl in H; [discriminate H |].
  rewrite hd_insertSorted in H.
  destruct (hd_error (Array_sort byEffectiveFromDesc l)) as [y |] eqn:Hy.
  - destruct (IH y eq_refl) as (pre & post & -> & Hpre & Hpost).
    unfold byEffectiveFromDesc in H.
    destruct (Z.leb_spec (RateCard.effectiveFrom y - RateCard.effectiveFrom x) 0)
      as [Hle | Hgt]; injection H as <-.
    + exists [], (pre ++ y :: post). split; [reflexivity | split; [constructor |]].
      apply Forall_app. split.
      * eapply Forall_impl; [| exact Hpre]. simpl. intros; lia.
      * constructor; [lia |].
        eapply Forall_impl; [| exact Hpost]. simpl. intros; lia.
    + exists (x :: pre), post. split; [reflexivity | split; [| exact Hpost]].
      constructor; [lia | exact Hpre].
  - injection H as <-.
    pose proof (hd_sort_latest l) as Hl. rewrite Hy in Hl. subst l.
    exists [], []. repeat split; constructor.
Qed.

Lemma filter_split {A : Type} (p : A -> bool) (l a b : list A) (x : A) :
  filter p l = a ++ x :: b ->
  exists a' b', l = a' ++ x :: b' /\ filter p a' = a /\ filter p b' = b.
Proof.
  revert a. induction l as [| y l IH]; intros a H; simpl in H.
  - destruct a; discriminate H.
  - destruct (p y) eqn:Hy.
    + destruct a as [| a0 a]; simpl in H; injection H as -> H.
      * exists [], l. simpl. repeat split. exact H.
      * destruct (IH a H) as (a' & b' & -> & Ha & Hb).
        exists (a0 :: a'), b'. simpl. rewrite Hy, Ha. now repeat split.
    + destruct (IH a H) as (a' & b' & -> & Ha & Hb).
      exists (y :: a'), b'. simpl. rewrite Hy. now repeat split.
Qed.

Lemma filter_twice {A : Type} (p q : A -> bool) (l : list A) :
  filter p (filter q l) = filter (fun x => p x && q x) l.
Proof.
  induction l as [| x l IH]; simpl; [reflexivity |].
  destruct (q x); simpl.
  - rewrite andb_true_r. destruct (p x); now rewrite IH.
  - now rewrite andb_false_r.
Qed.

Lemma tierPick_first (atDate : Date) (rateCards : list RateCard.t)
    (entry : TimeEntry.t) (tier : Tier) (r : RateCard.t) :
  tierPick atDate rateCards entry tier = Some r ->
  exists pre post,
    rateCards = pre ++ r :: post
    /\ Forall (fun c => effectiveAt atDate c -> inTier tier entry c ->
                        RateCard.effectiveFrom c < RateCard.effectiveFrom r) pre.
Proof.
  unfold tierPick. rewrite filter_twice. intro H.
  apply hd_sort_first_latest in H.
  destruct H as (pre & post & Hsplit & Hpre & _).
  apply filter_split in Hsplit.
  destruct Hsplit as (pre' & post' & -> & Hfpre & _).
  exists pre', post'. split; [reflexivity |].
  apply Forall_forall. intros c Hc He Ht.
  rewrite Forall_forall in Hpre. apply Hpre. rewrite <- Hfpre.
  apply filter_In. split; [exact Hc |].
  apply andb_true_iff. split.
  - now apply tierFilter_spec.
  - now apply activeCard_spec.
Qed.

(** X23. Ties are settled by the order of the rate cards: the card
    [resolveEffectiveRate] returns stands in the list after no card of its
    own tier that is in force and as recent; every such card listed before
    it is effective from a strictly earlier date.  So of several equally
    recent cards of the winning tier the one listed first is returned. *)
Theorem resolveEffectiveRate_first_of_ties :
  forall (now : Date) (entry : TimeEntry.t) (rateCards : list RateCard.t)
         (atDate : option Date) (r : RateCard.t),
    resolveEffectiveRate now entry rateCards atDate = Some r ->
    exists tier pre post,
      rateCards = pre ++ r :: post
      /\ inTier tier entry r
      /\ Forall (fun c => effectiveAt (orNow now atDate) c ->
                          inTier tier entry c ->
                          RateCard.effectiveFrom c < RateCard.effectiveFrom r) pre.
Proof.
  intros now entry rateCards atDate r H.
  rewrite resolveEffectiveRate_tiers in H.
  assert (Hpick : exists tier,
            tierPick (orNow now atDate) rateCards entry tier = Some r).
  { destruct (tierPick _ _ _ ProjectTier) eqn:HP; [exists ProjectTier; congruence |].
    destruct (tierPick _ _ _ ClientTier) eqn:HC; [exists ClientTier; congruence |].
    now exists DeveloperTier. }
  destruct Hpick as [tier Hpick].
  pose proof (tierPick_spec (orNow now atDate) rateCards entry tier) as Hspec.
  rewrite Hpick in Hspec. destruct Hspec as [(_ & _ & Htier) _].
  destruct (tierPick_first _ _ _ _ _ Hpick) as (pre & post & Hsplit & Hpre).
  now exists tier, pre, post.
Qed.

Lemma resolveEffectiveRate_first_of_ties_witness :
  exists tier pre post,
    [tiedCardA; tiedCardB] = pre ++ tiedCardA :: post
    /\ inTier tier twoHourEntry tiedCardA
    /\ Forall (fun c => effectiveAt (orNow mid_march None) c ->
                        inTier tier twoHourEntry c ->
                        RateCard.effectiveFrom c < RateCard.effectiveFrom tiedCardA)
              pre.
Proof.
  apply (resolveEffectiveRate_first_of_ties mid_march twoHourEntry
           [tiedCardA; tiedCardB] None tiedCardA).
  vm_compute. reflexivity.
Defined.

(** X24. The cost records of a batch are those of its parts put together:
    [calculateEntryCosts] on two lists of entries one after the other gives
    the records of the first list followed by the records of the second, so
    the record of an entry does not depend on the other entries it is
    costed with; a single entry gives one record or none. *)
Theorem calculateEntryCosts_batches :
  forall (now : Date) (first second : list TimeEntry.t)
         (rateCards : list RateCard.t)
         (roundingInterval : option RoundingInterval) (atDate : option Date),
    calculateEntryCosts now (first ++ second) rateCards roundingInterval atDate
    = calculateEntryCosts now first rateCards roundingInterval atDate
      ++ calculateEntryCosts now second rateCards roundingInterval atDate
    /\ (forall entry,
           (List.length (calculateEntryCosts now [entry] rateCards
                           roundingInterval atDate) <= 1)%nat)
    /\ (List.length (calculateEntryCosts now first rateCards
                       roundingInterval atDate) <= List.length first)%nat.
Proof.
  intros now first second rateCards roundingInterval atDate.
  unfold calculateEntryCosts. rewrite !costLoop_flat_map. simpl.
  split; [apply flat_map_app | split].
  - intro entry.
    destruct (TimeEntry.billable entry); simpl; [| lia].
    destruct (resolveEffectiveRate _ _ _ _); simpl; lia.
  - induction first as [| e rest IH]; simpl; [lia |].
    rewrite length_app.
    destruct (TimeEntry.billable e); simpl; [| lia].
    destruct (resolveEffectiveRate _ _ _ _); simpl; lia.
Qed.

(* ================================================================= *)
(** ** Aggregation by project *)

Lemma set_set_same {V : Type} (m : JsMap.t V) (k : string) (v v' : V) :
  JsMap.set (JsMap.set m k v) k v' = JsMap.set m k v'.
Proof.
  induction m as [| [k0 v0] m IH]; simpl.
  - now rewrite String.eqb_refl.
  - destruct (String.eqb k0 k) eqn:E; simpl; rewrite E; [reflexivity |].
    now rewrite IH.
Qed.

Lemma aggregateProjectStep_set (costMap : JsMap.t EntryCost.t)
    (projectMap : JsMap.t ProjectSummary.t) (entry : TimeEntry.t) :
  aggregateProjectStep costMap projectMap entry
  = JsMap.set projectMap (TimeEntry.projectId entry)
      (addToProjectSummary (JsMap.get costMap (TimeEntry.id entry)) entry
         (match JsMap.get projectMap (TimeEntry.projectId entry) with
          | Some summary => summary
          | None => newProjectSummary (JsMap.get costMap (TimeEntry.id entry)) entry
          end)).
Proof.
  unfold aggregateProjectStep.
  destruct (JsMap.get projectMap (TimeEntry.projectId entry)); [reflexivity |].
  apply set_set_same.
Qed.

Lemma totalEntryCount_set (costMap : JsMap.t EntryCost.t)
    (m : JsMap.t ProjectSummary.t) (entry : TimeEntry.t) :
  totalEntryCount (JsMap.values (aggregateProjectStep costMap m entry))
  = totalEntryCount (JsMap.values m) + 1.
Proof.
  rewrite aggregateProjectStep_set. unfold JsMap.values.
  set (k := TimeEntry.projectId entry).
  set (c := JsMap.get costMap (TimeEntry.id entry)).
  induction m as [| [k0 v0] m IH]; [reflexivity |].
  cbn [JsMap.get JsMap.set].
  destruct (String.eqb k0 k); cbn [map snd totalEntryCount fold_right].
  - simpl. lia.
  - unfold totalEntryCount in IH. rewrite IH. lia.
Qed.

Lemma summaryAlone_snoc (costMap : JsMap.t EntryCost.t)
    (l : list TimeEntry.t) (e : TimeEntry.t) :
  summaryAlone costMap (l ++ [e])
  = Some (addToProjectSummary (JsMap.get costMap (TimeEntry.id e)) e
            (match summaryAlone costMap l with
             | Some summary => summary
             | None => newProjectSummary (JsMap.get costMap (TimeEntry.id e)) e
             end)).
Proof.
  destruct l as [| first rest]; [reflexivity |].
  cbn [summaryAlone app]. now rewrite app_comm_cons, fold_left_app.
Qed.

Lemma aggregate_fold (costMap : JsMap.t EntryCost.t) (batch : list TimeEntry.t) :
  forall (m : JsMap.t ProjectSummary.t) (seen : list TimeEntry.t),
    NoDup (JsMap.keys m) ->
    (forall p, JsMap.get m p = summaryAlone costMap (inProject p seen)) ->
    totalEntryCount (JsMap.values m) = Z.of_nat (List.length seen) ->
    let result := fold_left (aggregateProjectStep costMap) batch m in
    NoDup (JsMap.keys result)
    /\ (forall p, JsMap.get result p
                  = summaryAlone costMap (inProject p (seen ++ batch)))
    /\ totalEntryCount (JsMap.values result)
       = Z.of_nat (List.length (seen ++ batch)).
Proof.
  induction batch as [| e rest IH]; intros m seen Hnd Hget Hcount; simpl.
  - rewrite app_nil_r. auto.
  - replace (seen ++ e :: rest) with ((seen ++ [e]) ++ rest)
      by now rewrite <- app_assoc.
    apply IH.
    + rewrite aggregateProjectStep_set. now apply NoDup_keys_set.
    + intro p. rewrite aggregateProjectStep_set.
      unfold inProject. rewrite filter_app. simpl.
      destruct (String.eqb_spec (TimeEntry.projectId e) p) as [<- | Hp].
      * rewrite get_set_same. fold (inProject (TimeEntry.projectId e) seen).
        now rewrite summaryAlone_snoc, Hget.
      * rewrite get_set_other by congruence.
        now rewrite app_nil_r, Hget.
    + rewrite totalEntryCount_set, Hcount, length_app. simpl. lia.
Qed.

Lemma aggregate_map (entries : list TimeEntry.t) (costs : list EntryCost.t) :
  let m := fold_left (aggregateProjectStep (costLookup costs)) entries JsMap.empty in
  NoDup (JsMap.keys m)
  /\ (forall p, JsMap.get m p
                = summaryAlone (costLookup costs) (inProject p entries))
  /\ totalEntryCount (JsMap.values m) = Z.of_nat (List.length entries).
Proof.
  apply (aggregate_fold (costLookup costs) entries JsMap.empty []);
    [constructor | reflexivity | reflexivity].
Qed.

Lemma fold_add_projectId (costMap : JsMap.t EntryCost.t) (l : list TimeEntry.t) :
  forall s,
    let r := fold_left (fun summary entry =>
               addToProjectSummary (JsMap.get costMap (TimeEntry.id entry))
                                   entry summary) l s in
    ProjectSummary.projectId r = ProjectSummary.projectId s
    /\ ProjectSummary.currency r = ProjectSummary.currency s
    /\ ProjectSummary.entryCount r
       = ProjectSummary.entryCount s + Z.of_nat (List.length l).
Proof.
  induction l as [| e l IH]; intro s; simpl; [repeat split; lia |].
  destruct (IH (addToProjectSummary (JsMap.get costMap (TimeEntry.id e)) e s))
    as (Hp & Hc & Hn).
  simpl in *. rewrite Hp, Hc, Hn. repeat split. lia.
Qed.

Lemma summaryAlone_fields (costMap : JsMap.t EntryCost.t) (p : string)
    (entries : list TimeEntry.t) (s : ProjectSummary.t) :
  summaryAlone costMap (inProject p entries) = Some s ->
  ProjectSummary.projectId s = p
  /\ ProjectSummary.entryCount s = Z.of_nat (List.length (inProject p entries))
  /\ exists first rest,
       inProject p entries = first :: rest
       /\ ProjectSummary.currency s
          = currencyOrUSD (JsMap.get costMap (TimeEntry.id first)).
Proof.
  intro H.
  destruct (inProject p entries) as [| first rest] eqn:Hl; [discriminate H |].
  assert (Hfirst : TimeEntry.projectId first = p).
  { assert (Hin : In first (inProject p entries)) by (rewrite Hl; now left).
    apply filter_In in Hin. now apply String.eqb_eq. }
  cbn [summaryAlone] in H. injection H as Hs.
  pose proof (fold_add_projectId costMap (first :: rest)
                (newProjectSummary (JsMap.get costMap (TimeEntry.id first)) first))
    as Hfold.
  cbv zeta in Hfold. cbn [fold_left] in Hfold, Hs. rewrite Hs in Hfold.
  destruct Hfold as (Hp & Hc & Hn).
  rewrite Hp, Hc, Hn. simpl ProjectSummary.projectId.
  split; [exact Hfirst | split; [simpl; lia |]].
  exists first, rest. now split.
Qed.

Lemma In_values_get {V : Type} (m : JsMap.t V) (v : V) :
  NoDup (JsMap.keys m) ->
  (In v (JsMap.values m) <-> exists k, JsMap.get m k = Some v).
Proof.
  intro Hnd. split.
  - intro Hin. apply in_map_iff in Hin. destruct Hin as ([k v'] & <- & Hin).
    exists k. now apply In_get.
  - intros (k & Hg). apply get_In in Hg. apply in_map_iff. now exists (k, v).
Qed.

Lemma singleton_map {V : Type} (m : JsMap.t V) (p : string) (v : V) :
  NoDup (JsMap.keys m) ->
  JsMap.get m p = Some v ->
  (forall k, k <> p -> JsMap.get m k = None) ->
  m = [(p, v)].
Proof.
  intros Hnd Hp Hother.
  destruct m as [| [k0 v0] m]; [discriminate Hp |].
  assert (Hk0 : k0 = p).
  { destruct (String.eqb_spec k0 p) as [E | N]; [exact E |].
    specialize (Hother k0 N). simpl in Hother.
    rewrite String.eqb_refl in Hother. discriminate Hother. }
  subst k0. simpl in Hp. rewrite String.eqb_refl in Hp. injection Hp as ->.
  destruct m as [| [k1 v1] m]; [reflexivity |].
  inversion Hnd as [| ? ? Hnotin _]; subst.
  assert (Hk1 : k1 <> p) by (intros ->; apply Hnotin; now left).
  specialize (Hother k1 Hk1). simpl in Hother.
  destruct (String.eqb_spec p k1); [congruence |].
  rewrite String.eqb_refl in Hother. discriminate Hother.
Qed.

Lemma inProject_idem (p k : string) (entries : list TimeEntry.t) :
  inProject k (inProject p entries)
  = if String.eqb k p then inProject p entries else [].
Proof.
  unfold inProject. rewrite filter_twice.
  destruct (String.eqb_spec k p) as [-> | Hk].
  - apply filter_ext. intro e. apply andb_diag.
  - apply filter_none. intros e _.
    destruct (String.eqb_spec (TimeEntry.projectId e) k) as [<- | ]; [| reflexivity].
    simpl. now apply String.eqb_neq.
Qed.

(** X25. [aggregateByProject] returns one summary per project that has an
    entry in the list, and the summary of a project is the one the
    function computes from the entries of that project alone, taken in
    their input order: entries of other projects have no effect on it. *)
Theorem aggregateByProject_per_project :
  forall (batch : list TimeEntry.t) (costs : list EntryCost.t),
    (forall s,
        In s (aggregateByProject batch costs) <->
        exists p, aggregateByProject (inProject p batch) costs = [s])
    /\ NoDup (map ProjectSummary.projectId (aggregateByProject batch costs))
    /\ (forall p,
           In p (map ProjectSummary.projectId (aggregateByProject batch costs))
           <-> In p (map TimeEntry.projectId batch)).
Proof.
  intros batch costs.
  destruct (aggregate_map batch costs) as (Hnd & Hget & _).
  assert (Halone : forall p,
    aggregateByProject (inProject p batch) costs
    = match summaryAlone (costLookup costs) (inProject p batch) with
      | Some s => [s]
      | None => []
      end).
  { intro p. unfold aggregateByProject.
    destruct (aggregate_map (inProject p batch) costs) as (Hnd' & Hget' & _).
    cbv zeta in Hnd', Hget'.
    destruct (summaryAlone (costLookup costs) (inProject p batch)) as [s |] eqn:Hs.
    - rewrite (singleton_map _ p s Hnd'); [reflexivity | |].
      + rewrite Hget', inProject_idem, String.eqb_refl. exact Hs.
      + intros k Hk. rewrite Hget', inProject_idem.
        destruct (String.eqb_spec k p); [contradiction | reflexivity].
    - destruct (inProject p batch); [reflexivity | discriminate Hs]. }
  assert (Hids : map ProjectSummary.projectId (aggregateByProject batch costs)
                 = JsMap.keys (fold_left (aggregateProjectStep (costLookup costs))
                                         batch JsMap.empty)).
  { unfold aggregateByProject, JsMap.values, JsMap.keys. cbv zeta in Hnd, Hget.
    rewrite map_map. apply map_ext_in. intros [k s] Hin. simpl.
    apply In_get in Hin; [| exact Hnd]. rewrite Hget in Hin.
    now apply summaryAlone_fields in Hin. }
  split; [| split].
  - intro s. unfold aggregateByProject at 1. cbv zeta in Hnd, Hget.
    rewrite (In_values_get _ s Hnd). split.
    + intros (p & Hp). exists p. rewrite Halone, <- Hget, Hp. reflexivity.
    + intros (p & Hp). exists p. rewrite Halone in Hp. rewrite Hget.
      destruct (summaryAlone _ _); [now injection Hp as -> | discriminate Hp].
  - rewrite Hids. exact Hnd.
  - intro p. rewrite Hids. cbv zeta in Hget.
    assert (Hk : In p (JsMap.keys (fold_left (aggregateProjectStep (costLookup costs))
                                             batch JsMap.empty))
                 <-> JsMap.get (fold_left (aggregateProjectStep (costLookup costs))
                                          batch JsMap.empty) p <> None).
    { rewrite get_None_keys. split; [tauto |].
      intro H. destruct (in_dec string_dec p (JsMap.keys
        (fold_left (aggregateProjectStep (costLookup costs)) batch JsMap.empty)));
        [assumption | contradiction]. }
    rewrite Hk, Hget. rewrite in_map_iff. split.
    + intro H. destruct (inProject p batch) as [| e l] eqn:Hl; [now elim H |].
      assert (Hin : In e (inProject p batch)) by (rewrite Hl; now left).
      apply filter_In in Hin. exists e. split; [now apply String.eqb_eq | apply Hin].
    + intros (e & <- & Hin).
      assert (Hin' : In e (inProject (TimeEntry.projectId e) batch))
        by (apply filter_In; split; [exact Hin | apply String.eqb_refl]).
      destruct (inProject (TimeEntry.projectId e) batch); [destruct Hin' |].
      discriminate.
Qed.

(** X26. In the result of [aggregateByProject] the entry count of a project
    is the number of its entries in the list, at least one, and the counts
    of all projects add up to the number of entries.  The currency of a
    project is that of the cost record of the first entry of the project in
    the list, and USD when that entry has no cost record or one without a
    currency, whatever the cost records of the later entries say. *)
Theorem aggregateByProject_counts :
  forall (batch : list TimeEntry.t) (costs : list EntryCost.t),
    (forall s,
        In s (aggregateByProject batch costs) ->
        ProjectSummary.entryCount s
        = Z.of_nat (List.length (inProject (ProjectSummary.projectId s) batch))
        /\ 1 <= ProjectSummary.entryCount s
        /\ exists first rest,
             inProject (ProjectSummary.projectId s) batch = first :: rest
             /\ ProjectSummary.currency s
                = currencyOrUSD (JsMap.get (costLookup costs) (TimeEntry.id first)))
    /\ totalEntryCount (aggregateByProject batch costs)
       = Z.of_nat (List.length batch).
Proof.
  intros batch costs.
  destruct (aggregate_map batch costs) as (Hnd & Hget & Hcount).
  cbv zeta in Hnd, Hget, Hcount.
  split; [| exact Hcount].
  intros s Hin. unfold aggregateByProject in Hin.
  apply (In_values_get _ s Hnd) in Hin. destruct Hin as (p & Hp).
  rewrite Hget in Hp. apply summaryAlone_fields in Hp.
  destruct Hp as (-> & Hn & first & rest & Hl & Hc).
  split; [exact Hn | split].
  - rewrite Hn, Hl. simpl. lia.
  - now exists first, rest.
Qed.

Lemma aggregateByProject_counts_witness :
  ProjectSummary.entryCount
    (ProjectSummary.mk "project-1" 180 120 60 0 "USD" 2)
  = Z.of_nat (List.length (inProject "project-1" mixedEntries))
  /\ 1 <= ProjectSummary.entryCount
            (ProjectSummary.mk "project-1" 180 120 60 0 "USD" 2)
  /\ exists first rest,
       inProject "project-1" mixedEntries = first :: rest
       /\ ProjectSummary.currency
            (ProjectSummary.mk "project-1" 180 120 60 0 "USD" 2)
          = currencyOrUSD (JsMap.get (costLookup []) (TimeEntry.id first)).
Proof.
  apply (proj1 (aggregateByProject_counts mixedEntries [])
           (ProjectSummary.mk "project-1" 180 120 60 0 "USD" 2)).
  vm_compute. left. reflexivity.
Defined.

(* ================================================================= *)
(** ** Mapping entries to an invoice *)

Lemma fold_min_spec (rest : list Z) :
  forall x,
    In (fold_left Z.min rest x) (x :: rest)
    /\ forall y, In y (x :: rest) -> fold_left Z.min rest x <= y.
Proof.
  induction rest as [| z rest IH]; intro x; simpl.
  - split; [now left | intros y [<- | []]; lia].
  - destruct (IH (Z.min x z)) as [Hin Hle]. split.
    + destruct Hin as [Hm | Hin]; [| right; now right].
      rewrite <- Hm. destruct (Z.min_spec x z) as [[_ ->] | [_ ->]]; auto.
    + intros y [<- | [<- | Hy]].
      * specialize (Hle (Z.min x z) (or_introl eq_refl)). lia.
      * specialize (Hle (Z.min x z) (or_introl eq_refl)). lia.
      * apply Hle. now right.
Qed.

Lemma fold_max_spec (rest : list Z) :
  forall x,
    In (fold_left Z.max rest x) (x :: rest)
    /\ forall y, In y (x :: rest) -> y <= fold_left Z.max rest x.
Proof.
  induction rest as [| z rest IH]; intro x; simpl.
  - split; [now left | intros y [<- | []]; lia].
  - destruct (IH (Z.max x z)) as [Hin Hle]. split.
    + destruct Hin as [Hm | Hin]; [| right; now right].
      rewrite <- Hm. destruct (Z.max_spec x z) as [[_ ->] | [_ ->]]; auto.
    + intros y [<- | [<- | Hy]].
      * specialize (Hle (Z.max x z) (or_introl eq_refl)). lia.
      * specialize (Hle (Z.max x z) (or_introl eq_refl)). lia.
      * apply Hle. now right.
Qed.

(** X27. The date range of an invoice is taken from the start times of its
    entries only: [from] is the earliest [startAt] and [to] the latest
    [startAt] of the entries, so every entry starts within the range,
    while an entry may end after [to].  For an empty list of entries both
    ends are an Invalid Date. *)
Theorem mapToInvoice_dateRange :
  forall (batch : list TimeEntry.t) (costs : list EntryCost.t)
         (invoiceId clientId : string),
    let range := InvoiceMapping.dateRange
                   (mapToInvoice batch costs invoiceId clientId) in
    (batch = [] -> DateRange.from range = None /\ DateRange.to range = None)
    /\ (batch <> [] ->
        exists first last,
          In first batch /\ In last batch
          /\ DateRange.from range = Some (TimeEntry.startAt first)
          /\ DateRange.to range = Some (TimeEntry.startAt last)
          /\ forall e, In e batch ->
               TimeEntry.startAt first <= TimeEntry.startAt e
               <= TimeEntry.startAt last).
Proof.
  intros batch costs invoiceId clientId range. subst range. simpl.
  split; [intros ->; now split |].
  intro Hne. destruct batch as [| e0 rest]; [contradiction |]. simpl.
  destruct (fold_min_spec (map TimeEntry.startAt rest) (TimeEntry.startAt e0))
    as [Hmin_in Hmin].
  destruct (fold_max_spec (map TimeEntry.startAt rest) (TimeEntry.startAt e0))
    as [Hmax_in Hmax].
  change (TimeEntry.startAt e0 :: map TimeEntry.startAt rest)
    with (map TimeEntry.startAt (e0 :: rest)) in *.
  apply in_map_iff in Hmin_in. destruct Hmin_in as (first & Hf & Hfin).
  apply in_map_iff in Hmax_in. destruct Hmax_in as (last & Hl & Hlin).
  exists first, last. rewrite Hf, Hl.
  split; [exact Hfin | split; [exact Hlin | split; [reflexivity | split]]];
    [reflexivity |].
  intros e He.
  assert (Hin : In (TimeEntry.startAt e) (map TimeEntry.startAt (e0 :: rest)))
    by now apply in_map.
  specialize (Hmin _ Hin). specialize (Hmax _ Hin). lia.
Qed.

Lemma mapToInvoice_dateRange_witness :
  exists first last,
    In first mixedEntries /\ In last mixedEntries
    /\ DateRange.from (InvoiceMapping.dateRange
                         (mapToInvoice mixedEntries [] "invoice-1" "client-1"))
       = Some (TimeEntry.startAt first)
    /\ DateRange.to (InvoiceMapping.dateRange
                       (mapToInvoice mixedEntries [] "invoice-1" "client-1"))
       = Some (TimeEntry.startAt last)
    /\ forall e, In e mixedEntries ->
         TimeEntry.startAt first <= TimeEntry.startAt e
         <= TimeEntry.startAt last.
Proof.
  apply (proj2 (mapToInvoice_dateRange mixedEntries [] "invoice-1" "client-1")).
  discriminate.
Defined.

Lemma Set_add_spec (s : list string) (x : string) :
  NoDup s ->
  NoDup (Set_add s x) /\ forall y, In y (Set_add s x) <-> In y s \/ y = x.
Proof.
  intro Hnd. unfold Set_add.
  destruct (existsb (String.eqb x) s) eqn:E.
  - split; [exact Hnd |]. intro y. split; [tauto |].
    intros [H | ->]; [exact H |].
    apply existsb_exists in E. destruct E as (z & Hz & Hxz).
    apply String.eqb_eq in Hxz. now subst.
  - split.
    + apply NoDup_app; [exact Hnd | repeat constructor; intros [] |].
      intros y Hy [Hxy | []]. subst y.
      assert (Hex : existsb (String.eqb x) s = true)
        by (apply existsb_exists; exists x; split; [exact Hy | apply String.eqb_refl]).
      congruence.
    + intro y. rewrite in_app_iff. simpl. intuition congruence.
Qed.

Lemma distinct_fold (xs : list string) :
  forall s, NoDup s ->
    NoDup (fold_left Set_add xs s)
    /\ forall y, In y (fold_left Set_add xs s) <-> In y s \/ In y xs.
Proof.
  induction xs as [| x xs IH]; intros s Hnd; simpl; [intuition |].
  destruct (Set_add_spec s x Hnd) as [Hnd' Hin'].
  destruct (IH _ Hnd') as [Hnd'' Hin'']. split; [exact Hnd'' |].
  intro y. rewrite Hin'', Hin'. intuition congruence.
Qed.

(** X28. An invoice lists each project of its entries once.  Its total
    counts billable entries only: leaving the non-billable entries out of
    the list does not change it.  Its currency is that of the first cost
    record handed in, USD when there is none, whether or not that record
    belongs to an entry of the invoice.  The entries, the invoice id and the
    client id are passed through as given. *)
Theorem mapToInvoice_contents :
  forall (batch : list TimeEntry.t) (costs : list EntryCost.t)
         (invoiceId clientId : string),
    let invoice := mapToInvoice batch costs invoiceId clientId in
    NoDup (InvoiceMapping.projectIds invoice)
    /\ (forall p, In p (InvoiceMapping.projectIds invoice)
                  <-> In p (map TimeEntry.projectId batch))
    /\ InvoiceMapping.totalAmount invoice
       = InvoiceMapping.totalAmount
           (mapToInvoice (filter TimeEntry.billable batch) costs invoiceId clientId)
    /\ InvoiceMapping.currency invoice = currencyOrUSD (hd_error costs)
    /\ InvoiceMapping.entries invoice = batch
    /\ InvoiceMapping.invoiceId invoice = invoiceId
    /\ InvoiceMapping.clientId invoice = clientId.
Proof.
  intros batch costs invoiceId clientId invoice. subst invoice. simpl.
  destruct (distinct_fold (map TimeEntry.projectId batch) [] (NoDup_nil _))
    as [Hnd Hin].
  split; [exact Hnd | split; [| split; [| repeat split]]].
  - intro p. unfold distinct. rewrite Hin. simpl. tauto.
  - rewrite filter_twice.
    rewrite (filter_ext (fun x => TimeEntry.billable x && TimeEntry.billable x)
                        TimeEntry.billable); [reflexivity |].
    intro e. apply andb_diag.
Qed.
